(** * DIESEL dashboard: emission schedule, mint tracker, distribution metrics

    A shallow embedding of
      - [dashboard/src/types/diesel.ts]            (DIESEL_CONSTANTS,
                                                    isValidTokenAmount)
      - [dashboard/src/services/mint-tracker.ts]   (MintTracker,
                                                    DieselEmissionCalculator)
      - [dashboard/src/services/distribution-metrics.ts] (DistributionMetrics)
      - [dashboard/src/hooks/useRealtimeData.ts]   (the query functions)
      - [dashboard/src/utils/bigint-utils.ts]      (parsing, formatting,
                                                    minimum, maximum, average)

    Conventions.
      - A JavaScript [bigint] is a [Z].  BigInt [/] truncates toward zero
        ([Z.quot]); BigInt [>>] by a negative count is a left shift, which is
        what [Z.shiftr] does too.  An engine refuses a bigint beyond its
        size limit with a [RangeError]; the limit is not modelled.  The
        tracker shifts the reward to the left below genesis, by three places
        at most from height 0 on: a statement that needs the tracker to
        return for every height of a range is made for ranges that start
        at 0 or later.
      - A JavaScript [number] is an IEEE-754 binary64 value, modelled by the
        executable [spec_float] of the standard library at precision 53 and
        maximal exponent 1024.
      - An array is a list.  A JavaScript array has fewer than [2^32]
        elements; results that depend on that bound take it as a hypothesis
        on the length of the list.
      - Objects that are shared by reference live in an explicit store.
      - [async] methods are modelled by their result once every awaited
        promise has settled; a rejected promise is the [Threw] outcome.
      - [Date.now()] is an input.  [MintTracker] gives a call one reading
        of the clock; [ClockedMintTracker] follows the successive readings
        through [getParticipationTrends], which reads the clock anew for
        every snapshot.
      - A string is a [string] of the standard library.  The strings the
        modelled functions build are ASCII; of the characters a regular
        expression class or the numeric string grammar knows, those that
        fit a byte are modelled. *)

From Stdlib Require Import ZArith List Lia Bool String Ascii SpecFloat.
From Stdlib Require Import Permutation Sorted.
From Stdlib Require Import DecimalString HexadecimalString DecimalZ HexadecimalN
  DecimalPos HexadecimalPos.
Import ListNotations.
Local Open Scope Z_scope.

(** ** BigInt arithmetic *)

Module BigInt.

(** [a / b] on bigints: truncation toward zero. *)
Definition div (a b : Z) : Z := Z.quot a b.

(** [a >> n] on bigints: floor division by [2^n] for [n >= 0], and
    multiplication by [2^(-n)] for [n < 0]. *)
Definition shr (a n : Z) : Z := Z.shiftr a n.

End BigInt.

(** ** [DIESEL_CONSTANTS] (types/diesel.ts, lines 93-101) *)

Record Constants : Set := {
GENESIS_BLOCK : Z;
LAUNCH_BLOCK : Z;
HALVING_INTERVAL : Z;
INITIAL_REWARD : Z;
MAX_SUPPLY : Z;
PREMINE_BLOCKS : Z
}.

Definition DIESEL_CONSTANTS : Constants := {|
GENESIS_BLOCK := 800000;
LAUNCH_BLOCK := 880000;
HALVING_INTERVAL := 210000;
INITIAL_REWARD := 50 * 100000000;
MAX_SUPPLY := 156250000000000;
PREMINE_BLOCKS := 80000
|}.

(** ** [DieselEmissionCalculator]

  The class copies the constants into private fields and every method reads
  them through [this]; the methods are therefore functions of a
  [Constants] record, and the exported singleton is their instance at
  [DIESEL_CONSTANTS]. *)

Module EmissionCalculator.
Section WithFields.

Variable this : Constants.

(** [calculateBlockReward] (lines 222-239). *)
Definition calculateBlockReward (blockHeight : Z) : Z :=
  if blockHeight <? GENESIS_BLOCK this then 0
  else
    let blocksSinceGenesis := blockHeight - GENESIS_BLOCK this in
    let halvingEpoch := BigInt.div blocksSinceGenesis (HALVING_INTERVAL this) in
    BigInt.shr (INITIAL_REWARD this) halvingEpoch.

(** State of the [while] loop of [calculateCumulativeEmission]. *)
Record LoopState : Set := { totalEmission : Z; blockHeight : Z }.

(** One pass through the loop body (lines 255-271).  [inl] is the [break]
    taken inside the body, [inr] falls through to the loop test. *)
Definition loopBody (currentBlock : Z) (s : LoopState) : Z + LoopState :=
  let epochStart := blockHeight s in
  let epochNumber :=
    BigInt.div (blockHeight s - GENESIS_BLOCK this) (HALVING_INTERVAL this) in
  let nextHalving :=
    GENESIS_BLOCK this + (epochNumber + 1) * HALVING_INTERVAL this in
  let epochEnd :=
    if nextHalving <? currentBlock then nextHalving else currentBlock + 1 in
  let blocksInEpoch := epochEnd - epochStart in
  let rewardPerBlock := BigInt.shr (INITIAL_REWARD this) epochNumber in
  let epochEmission := blocksInEpoch * rewardPerBlock in
  let total := totalEmission s + epochEmission in
  if MAX_SUPPLY this <? total then inl (MAX_SUPPLY this)
  else inr {| totalEmission := total; blockHeight := epochEnd |}.

(** The loop, with a bound on the number of passes.  [None] is a run that
    needs more passes than the bound allows. *)
Fixpoint emissionLoop (fuel : nat) (currentBlock : Z) (s : LoopState)
  : option Z :=
  if (blockHeight s <=? currentBlock) && (totalEmission s <? MAX_SUPPLY this)
  then
    match fuel with
    | O => None
    | S fuel' =>
        match loopBody currentBlock s with
        | inl result => Some result
        | inr s' => emissionLoop fuel' currentBlock s'
        end
    end
  else Some (totalEmission s).

(** Every pass but the last moves [blockHeight] to the next halving
    boundary, so the number of epochs up to [currentBlock], and two, bounds
    the passes. *)
Definition emissionFuel (currentBlock : Z) : nat :=
  Z.to_nat ((currentBlock - GENESIS_BLOCK this) / HALVING_INTERVAL this) + 2.

(** [calculateCumulativeEmission] (lines 246-275). *)
Definition calculateCumulativeEmission (currentBlock : Z) : option Z :=
  if currentBlock <? GENESIS_BLOCK this then Some 0
  else
    emissionLoop (emissionFuel currentBlock) currentBlock
      {| totalEmission := 0; blockHeight := GENESIS_BLOCK this |}.

(** [calculatePremine] (lines 281-285). *)
Definition calculatePremine : Z :=
  let premineBlocks := LAUNCH_BLOCK this - GENESIS_BLOCK this in
  premineBlocks * INITIAL_REWARD this.

(** [getNextHalvingBlock] (lines 292-302). *)
Definition getNextHalvingBlock (currentBlock : Z) : Z :=
  if currentBlock <? GENESIS_BLOCK this
  then GENESIS_BLOCK this + HALVING_INTERVAL this
  else
    let blocksSinceGenesis := currentBlock - GENESIS_BLOCK this in
    let currentEpoch := BigInt.div blocksSinceGenesis (HALVING_INTERVAL this) in
    let nextEpoch := currentEpoch + 1 in
    GENESIS_BLOCK this + nextEpoch * HALVING_INTERVAL this.

(** The reference the iteration is compared with: the rewards of the
    heights [from], [from + 1], ... ([count] of them), one by one. *)
Fixpoint sumBlockRewards (from : Z) (count : nat) : Z :=
  match count with
  | O => 0
  | S count' => calculateBlockReward from + sumBlockRewards (from + 1) count'
  end.

(** Sum of [calculateBlockReward k] for [k] from genesis to [height]
    inclusive, clamped to the maximal supply. *)
Definition cumulativeEmissionReference (height : Z) : Z :=
  Z.min
    (sumBlockRewards (GENESIS_BLOCK this)
       (Z.to_nat (height - GENESIS_BLOCK this + 1)))
    (MAX_SUPPLY this).

End WithFields.
End EmissionCalculator.

(** The exported singleton [dieselEmissionCalculator]. *)
Module dieselEmissionCalculator.
Definition calculateBlockReward :=
  EmissionCalculator.calculateBlockReward DIESEL_CONSTANTS.
Definition calculateCumulativeEmission :=
  EmissionCalculator.calculateCumulativeEmission DIESEL_CONSTANTS.
Definition calculatePremine :=
  EmissionCalculator.calculatePremine DIESEL_CONSTANTS.
Definition cumulativeEmissionReference :=
  EmissionCalculator.cumulativeEmissionReference DIESEL_CONSTANTS.
End dieselEmissionCalculator.

(** ** JavaScript numbers *)

Module JSNumber.

Definition prec : Z := 53.
Definition emax : Z := 1024.

Definition number : Set := spec_float.

(** [Number(z)] for a bigint or an integer-valued count: the nearest
    double, ties to even. *)
Definition ofZ (z : Z) : number := binary_normalize prec emax z 0 false.

Definition add (x y : number) : number := SFadd prec emax x y.
Definition sub (x y : number) : number := SFsub prec emax x y.
Definition mul (x y : number) : number := SFmul prec emax x y.
Definition div (x y : number) : number := SFdiv prec emax x y.
Definition ltb (x y : number) : bool := SFltb x y.
Definition leb (x y : number) : bool := SFleb x y.

Definition zero : number := S754_zero false.
Definition one : number := Eval vm_compute in ofZ 1.

(** The literals [0.5], [0.1], [0.01] and [0.001]: the doubles nearest to
    the decimal fractions, which is what a correctly rounded division of
    the two integers returns. *)
Definition lit_0_5 : number := Eval vm_compute in div (ofZ 1) (ofZ 2).
Definition lit_0_1 : number := Eval vm_compute in div (ofZ 1) (ofZ 10).
Definition lit_0_01 : number := Eval vm_compute in div (ofZ 1) (ofZ 100).
Definition lit_0_001 : number := Eval vm_compute in div (ofZ 1) (ofZ 1000).

(** [Math.max(x, y)]: NaN if either is NaN; [+0] is larger than [-0]. *)
Definition max (x y : number) : number :=
  match SFcompare x y with
  | None => S754_nan
  | Some Lt => y
  | Some Gt => x
  | Some Eq => match x with S754_zero true => y | _ => x end
  end.

(** [Math.min(x, y)]: NaN if either is NaN; [-0] is smaller than [+0]. *)
Definition min (x y : number) : number :=
  match SFcompare x y with
  | None => S754_nan
  | Some Lt => x
  | Some Gt => y
  | Some Eq => match x with S754_zero false => y | _ => x end
  end.

(** [Math.abs]. *)
Definition abs (x : number) : number := SFabs x.

(** [Math.ceil]: the least integer not below [x]; a negative [x] above
    [-1] gives [-0]. *)
Definition ceil (x : number) : number :=
  match x with
  | S754_finite s m e =>
      if 0 <=? e then x
      else
        let z := - ((cond_Zopp (negb s) (Zpos m)) / 2 ^ (- e)) in
        if z =? 0 then S754_zero s else ofZ z
  | _ => x
  end.

(** [x || d]: [d] when [x] is falsy, that is [+0], [-0] or NaN. *)
Definition orElse (x d : number) : number :=
  match x with
  | S754_zero _ | S754_nan => d
  | _ => x
  end.

(** ToIntegerOrInfinity of the language specification. *)
Inductive IntegerOrInfinity : Set :=
| NegInfinity
| Integer (z : Z)
| PosInfinity.

Definition toIntegerOrInfinity (x : number) : IntegerOrInfinity :=
  match x with
  | S754_nan | S754_zero _ => Integer 0
  | S754_infinity true => NegInfinity
  | S754_infinity false => PosInfinity
  | S754_finite s m e =>
      Integer
        (cond_Zopp s
           (if 0 <=? e then Zpos m * 2 ^ e else Zpos m / 2 ^ (- e)))
  end.

End JSNumber.

(** ** Arrays *)

Module JSArray.
Import JSNumber.

(** The clamping of a relative index that [slice] applies to both of its
    arguments. *)
Definition relativeIndex (len : Z) (i : IntegerOrInfinity) : Z :=
  match i with
  | NegInfinity => 0
  | PosInfinity => len
  | Integer z => if z <? 0 then Z.max (len + z) 0 else Z.min z len
  end.

(** [l.slice(start, end)]. *)
Definition slice {A : Type} (l : list A) (start stop : IntegerOrInfinity)
  : list A :=
  let len := Z.of_nat (List.length l) in
  let k := relativeIndex len start in
  let final := relativeIndex len stop in
  firstn (Z.to_nat (Z.max (final - k) 0)) (skipn (Z.to_nat k) l).

(** [l.slice(start)]: the end defaults to the length. *)
Definition sliceFrom {A : Type} (l : list A) (start : IntegerOrInfinity)
  : list A :=
  slice l start (Integer (Z.of_nat (List.length l))).

(** Insertion of [x] in front of the first element it does not have to
    follow; [cmp x y] is the comparator's result, negative, zero or
    positive. *)
Fixpoint insertBy {A : Type} (cmp : A -> A -> Z) (x : A) (l : list A)
  : list A :=
  match l with
  | [] => [x]
  | y :: l' => if cmp x y <=? 0 then x :: l else y :: insertBy cmp x l'
  end.

(** [[...l].sort(cmp)].  The language requires the sort to be stable, and a
    stable sort has one possible result for a consistent comparator:
    this one. *)
Fixpoint sort {A : Type} (cmp : A -> A -> Z) (l : list A) : list A :=
  match l with
  | [] => []
  | x :: l' => insertBy cmp x (sort cmp l')
  end.

End JSArray.

(** ** [MintTracker] (services/mint-tracker.ts, lines 1-197) *)

Module MintTracker.
Import JSNumber.

(** How an awaited call settles. *)
Inductive Outcome (A : Type) : Type :=
| Returned (a : A)
| Threw.
Arguments Returned {A} a.
Arguments Threw {A}.

(** A value of unknown shape that the code hands to [BigInt(v || 0)]. *)
Inductive RawInteger : Set :=
| Falsy                 (* undefined, null, 0, the empty string, ... *)
| Integral (z : Z)      (* an integer number, a decimal string, a bigint *)
| NotIntegral.          (* anything [BigInt] rejects with an exception *)

(** [BigInt(v || 0)]. *)
Definition toBigInt (v : RawInteger) : Outcome Z :=
  match v with
  | Falsy => Returned 0
  | Integral z => Returned z
  | NotIntegral => Threw
  end.

(** An element of the array the indexer returns.  [entry_alkane_id] is the
    text [alkane_id.toString()] when the field is present; the other string
    fields are [None] when falsy. *)
Record ProtoruneEntry : Set := {
  entry_alkane_id : option string;
  entry_address : option string;
  entry_amount : RawInteger;
  entry_txid : option string;
  entry_timestamp : option Z
}.

(** What [protorunesByHeight] resolves to. *)
Inductive RpcResponse : Set :=
| NoResponse                                   (* a falsy response *)
| NotAnArray                                   (* [result] is not an array *)
| ResultArray (entries : list (option ProtoruneEntry)).
                                               (* [None]: a null element *)

(** What [getBlockchainInfo] resolves to: [None] is a null or undefined
    answer, [Some v] an object whose [blocks] field is [v]. *)
Definition BlockchainInfo : Set := option RawInteger.

(** The collaborator behind [this.rpcService]. *)
Record AlkanesRPCService : Type := {
  protorunesByHeight : Z -> Outcome RpcResponse;
  getBlockchainInfo : Outcome BlockchainInfo
}.

Record ClaimantData : Set := {
  address : string;
  blockHeight : Z;
  amount : Z;
  transactionId : string;
  timestamp : Z
}.

Record ParticipationData : Set := {
  snapshotHeight : Z;           (* the field [blockHeight] *)
  totalClaimants : Z;
  rewardPerClaimant : Z;
  totalDistributed : Z;
  snapshotTimestamp : Z         (* the field [timestamp] *)
}.

Record TrendData : Set := {
  blocks : list ParticipationData;
  averageParticipants : number;
  peakParticipants : Z;
  minParticipants : Z;
  totalUniqueAddresses : Z
}.

(** [DIESEL_CONSTANTS.GENESIS_BLOCK.toString()]. *)
Definition GENESIS_BLOCK_toString : string := "800000"%string.

Definition MAX_SAFE_INTEGER : Z := 2 ^ 53 - 1.

Section WithCollaborators.

(** [this.rpcService], the reading of [Date.now()] and the value of
    [import.meta.env.VITE_OYL_TREASURY_ADDRESS || ''].  A call that reads
    the clock more than once gets the same reading each time;
    [ClockedMintTracker] below follows the readings of
    [getParticipationTrends] one by one. *)
Variable rpcService : AlkanesRPCService.
Variable Date_now : Z.
Variable TREASURY_ADDRESS : string.

(** The filter of lines 50-53; reading a field of a null element throws. *)
Fixpoint filterDieselMints (entries : list (option ProtoruneEntry))
  : Outcome (list ProtoruneEntry) :=
  match entries with
  | [] => Returned []
  | None :: _ => Threw
  | Some entry :: rest =>
      match filterDieselMints rest with
      | Threw => Threw
      | Returned kept =>
          match entry_alkane_id entry with
          | Some id =>
              if String.eqb id GENESIS_BLOCK_toString
              then Returned (entry :: kept) else Returned kept
          | None => Returned kept
          end
      end
  end.

(** The map of lines 56-62. *)
Fixpoint toClaimants (height : Z) (mints : list ProtoruneEntry)
  : Outcome (list ClaimantData) :=
  match mints with
  | [] => Returned []
  | mint :: rest =>
      match toBigInt (entry_amount mint) with
      | Threw => Threw
      | Returned a =>
          match toClaimants height rest with
          | Threw => Threw
          | Returned claimants =>
              Returned
                ({| address :=
                      match entry_address mint with
                      | Some s => s | None => "unknown"%string end;
                    blockHeight := height;
                    amount := a;
                    transactionId :=
                      match entry_txid mint with
                      | Some s => s | None => ""%string end;
                    timestamp :=
                      match entry_timestamp mint with
                      | Some t => t | None => Date_now end |}
                 :: claimants)
          end
      end
  end.

(** The body of the [try] block of [getBlockClaimants] (lines 42-64). *)
Definition getBlockClaimants_try (height : Z) : Outcome (list ClaimantData) :=
  match protorunesByHeight rpcService height with
  | Threw => Threw
  | Returned NoResponse | Returned NotAnArray => Returned []
  | Returned (ResultArray entries) =>
      match filterDieselMints entries with
      | Threw => Threw
      | Returned dieselMints => toClaimants height dieselMints
      end
  end.

(** [getBlockClaimants] (lines 40-69): the [catch] clause answers every
    exception with the empty list. *)
Definition getBlockClaimants (height : Z) : list ClaimantData :=
  match getBlockClaimants_try height with
  | Returned claimants => claimants
  | Threw => []
  end.

(** [calculateRewardPerClaimant] (lines 75-80). *)
Definition calculateRewardPerClaimant (blockReward claimantCount : Z) : Z :=
  if claimantCount =? 0 then 0
  else BigInt.div blockReward claimantCount.

(** The block reward as the tracker computes it in place (lines 103-105,
    151-153 and 185-187, the same three statements each time). *)
Definition inlineBlockReward (height : Z) : Z :=
  let blocksSinceGenesis := height - GENESIS_BLOCK DIESEL_CONSTANTS in
  let halvingEpoch :=
    BigInt.div blocksSinceGenesis (HALVING_INTERVAL DIESEL_CONSTANTS) in
  BigInt.shr (INITIAL_REWARD DIESEL_CONSTANTS) halvingEpoch.

(** The snapshot built from a height and its claimants (lines 102-118 of
    [getParticipationTrends], and again lines 150-166 of
    [getCurrentBlockParticipation]). *)
Definition participationSnapshot (height : Z) (claimants : list ClaimantData)
  : ParticipationData :=
  let blockReward := inlineBlockReward height in
  let participantCount := Z.of_nat (List.length claimants) in
  let perClaimant :=
    if 0 <? participantCount
    then calculateRewardPerClaimant blockReward participantCount
    else 0 in
  {| snapshotHeight := height;
     totalClaimants := participantCount;
     rewardPerClaimant := perClaimant;
     totalDistributed := blockReward;
     snapshotTimestamp := Date_now |}.

(** The variables the [for] loop of [getParticipationTrends] updates. *)
Record TrendState : Set := {
  acc_blocks : list ParticipationData;
  acc_uniqueAddresses : list string;      (* the [Set], in insertion order *)
  acc_totalParticipants : Z;
  acc_peakParticipants : Z;
  acc_minParticipants : Z
}.

Definition setAdd (s : list string) (x : string) : list string :=
  if existsb (String.eqb x) s then s else s ++ [x].

(** One pass through the loop body (lines 97-125). *)
Definition trendStep (st : TrendState) (height : Z) : TrendState :=
  let claimants := getBlockClaimants height in
  let snapshot := participationSnapshot height claimants in
  let participantCount := totalClaimants snapshot in
  {| acc_blocks := acc_blocks st ++ [snapshot];
     acc_uniqueAddresses :=
       fold_left setAdd (map address claimants) (acc_uniqueAddresses st);
     acc_totalParticipants := acc_totalParticipants st + participantCount;
     acc_peakParticipants := Z.max (acc_peakParticipants st) participantCount;
     acc_minParticipants :=
       if 0 <? participantCount
       then Z.min (acc_minParticipants st) participantCount
       else acc_minParticipants st |}.

(** The heights [startBlock], [startBlock + 1], ... that the loop visits. *)
Fixpoint heightsFrom (startBlock : Z) (count : nat) : list Z :=
  match count with
  | O => []
  | S count' => startBlock :: heightsFrom (startBlock + 1) count'
  end.

(** [getParticipationTrends] (lines 85-137). *)
Definition getParticipationTrends (startBlock endBlock : Z) : TrendData :=
  let st :=
    fold_left trendStep
      (heightsFrom startBlock (Z.to_nat (endBlock - startBlock + 1)))
      {| acc_blocks := [];
         acc_uniqueAddresses := [];
         acc_totalParticipants := 0;
         acc_peakParticipants := 0;
         acc_minParticipants := MAX_SAFE_INTEGER |} in
  let blockCount := endBlock - startBlock + 1 in
  {| blocks := acc_blocks st;
     averageParticipants :=
       if 0 <? blockCount
       then div (ofZ (acc_totalParticipants st)) (ofZ blockCount)
       else zero;
     peakParticipants := acc_peakParticipants st;
     minParticipants :=
       if acc_minParticipants st =? MAX_SAFE_INTEGER then 0
       else acc_minParticipants st;
     totalUniqueAddresses := Z.of_nat (List.length (acc_uniqueAddresses st)) |}.

(** [getCurrentBlockParticipation] (lines 142-171): [None] is the [null] of
    the [catch] clause. *)
Definition getCurrentBlockParticipation : option ParticipationData :=
  match getBlockchainInfo rpcService with
  | Threw | Returned None => None
  | Returned (Some blocksField) =>
      match toBigInt blocksField with
      | Threw => None
      | Returned currentHeight =>
          Some (participationSnapshot currentHeight
                  (getBlockClaimants currentHeight))
      end
  end.

(** [getTreasuryParticipation] (lines 176-196). *)
Definition getTreasuryParticipation (height : Z) : Z :=
  let claimants := getBlockClaimants height in
  match find (fun c => String.eqb (address c) TREASURY_ADDRESS) claimants with
  | Some treasuryClaim =>
      let blockReward := inlineBlockReward height in
      let maxTreasuryReward := BigInt.div blockReward 2 in
      if maxTreasuryReward <? amount treasuryClaim
      then maxTreasuryReward
      else amount treasuryClaim
  | None => 0
  end.

End WithCollaborators.
End MintTracker.

(** ** [DistributionMetrics] (services/distribution-metrics.ts) *)

Module DistributionMetrics.
Import JSNumber JSArray.

Record TokenBalance : Set := {
  address : string;
  balance : Z;
  percentage : number
}.

(** Holder objects are passed by reference: a list of holders is a list of
    references into a store of objects.  Every reference a program holds is
    live, so the store is total. *)
Definition ref : Set := nat.
Definition store : Set := ref -> TokenBalance.

(** [holder.percentage = p]. *)
Definition setPercentage (sigma : store) (holder : ref) (p : number) : store :=
  fun r =>
    if Nat.eqb r holder
    then {| address := address (sigma r);
            balance := balance (sigma r);
            percentage := p |}
    else sigma r.

Record HolderCategories : Set := {
  whales : list ref;
  dolphins : list ref;
  shrimp : list ref;
  totalSupply : Z;
  holderCount : Z
}.

Record ParticipantAnalysis : Set := {
  firstTimeMinters : list string;
  veteranMinters : list string;
  totalParticipants : Z;
  newParticipantRate : number
}.

Record ConcentrationMetrics : Set := {
  top1PercentShare : number;
  top10PercentShare : number;
  nakamotoCoefficient : Z
}.

Inductive Trend : Set := improving | stable | worsening.

(** The comparator of line 32: ascending. *)
Definition compareAscending (a b : Z) : Z :=
  if a <? b then -1 else if b <? a then 1 else 0.

(** The comparator of lines 78 and 156: descending by balance. *)
Definition compareDescending (sigma : store) (a b : ref) : Z :=
  if balance (sigma b) <? balance (sigma a) then -1
  else if balance (sigma a) <? balance (sigma b) then 1
  else 0.

(** [balances.reduce((sum, balance) => sum + balance, 0n)]. *)
Definition sumBalances (balances : list Z) : Z :=
  fold_left Z.add balances 0.

(** [holders.reduce((sum, holder) => sum + holder.balance, 0n)]. *)
Definition sumHolderBalances (sigma : store) (holders : list ref) : Z :=
  fold_left (fun sum holder => sum + balance (sigma holder)) holders 0.

(** The loop of lines 44-47, entered at index [i] with [weightedSum]. *)
Fixpoint weightedSumLoop (i : Z) (sortedBalances : list Z) (weightedSum : Z)
  : Z :=
  match sortedBalances with
  | [] => weightedSum
  | x :: rest => weightedSumLoop (i + 1) rest (weightedSum + (i + 1) * x)
  end.

(** [calculateGiniCoefficient] (lines 27-61). *)
Definition calculateGiniCoefficient (balances : list Z) : number :=
  match balances with
  | [] => zero
  | [_] => zero
  | _ =>
      let sortedBalances := sort compareAscending balances in
      let total := sumBalances sortedBalances in
      if total =? 0 then zero
      else
        let weightedSum := weightedSumLoop 0 sortedBalances 0 in
        let n := Z.of_nat (List.length sortedBalances) in
        let numerator := 2 * weightedSum in
        let denominator := n * total in
        let giniRatio :=
          div (ofZ (BigInt.div (numerator * 10000) denominator)) (ofZ 10000) in
        let adjustment := div (ofZ (n + 1)) (ofZ n) in
        let gini := sub giniRatio adjustment in
        max zero (min one gini)
  end.

(** The body of the [forEach] of lines 87-91. *)
Definition percentageOf (totalSupply holderBalance : Z) : number :=
  if 0 <? totalSupply
  then div (ofZ (BigInt.div (holderBalance * 10000) totalSupply)) (ofZ 100)
  else zero.

Definition writePercentage (totalSupply : Z) (sigma : store) (holder : ref)
  : store :=
  setPercentage sigma holder (percentageOf totalSupply (balance (sigma holder))).

(** [Math.ceil(length * 0.01)] and [Math.ceil(length * 0.1)]. *)
Definition top1PercentIndex (len : nat) : number :=
  ceil (mul (ofZ (Z.of_nat len)) lit_0_01).

Definition top10PercentIndex (len : nat) : number :=
  ceil (mul (ofZ (Z.of_nat len)) lit_0_1).

(** [categorizeHolders] (lines 66-104).  The result comes with the store
    the call leaves behind. *)
Definition categorizeHolders (sigma : store) (balances : list ref)
  : store * HolderCategories :=
  match balances with
  | [] =>
      (sigma,
       {| whales := []; dolphins := []; shrimp := [];
          totalSupply := 0; holderCount := 0 |})
  | _ =>
      let sorted := sort (compareDescending sigma) balances in
      let total := sumHolderBalances sigma sorted in
      let sigma' := fold_left (writePercentage total) sorted sigma in
      let i1 := toIntegerOrInfinity (top1PercentIndex (List.length sorted)) in
      let i10 := toIntegerOrInfinity (top10PercentIndex (List.length sorted)) in
      (sigma',
       {| whales := slice sorted (Integer 0) i1;
          dolphins := slice sorted i1 i10;
          shrimp := sliceFrom sorted i10;
          totalSupply := total;
          holderCount := Z.of_nat (List.length sorted) |})
  end.

(** The variables the loop of [analyzeParticipantHistory] updates. *)
Record HistoryState : Set := {
  acc_firstTime : list string;
  acc_veteran : list string;
  acc_historical : list string          (* the [Set], in insertion order *)
}.

Definition historyStep (st : HistoryState) (addr : string) : HistoryState :=
  if existsb (String.eqb addr) (acc_historical st)
  then {| acc_firstTime := acc_firstTime st;
          acc_veteran := acc_veteran st ++ [addr];
          acc_historical := acc_historical st |}
  else {| acc_firstTime := acc_firstTime st ++ [addr];
          acc_veteran := acc_veteran st;
          acc_historical := acc_historical st ++ [addr] |}.

(** [analyzeParticipantHistory] (lines 109-137); the second component is the
    caller's set after the call. *)
Definition analyzeParticipantHistory
  (addresses : list string) (historicalParticipants : list string)
  : ParticipantAnalysis * list string :=
  let st :=
    fold_left historyStep addresses
      {| acc_firstTime := []; acc_veteran := [];
         acc_historical := historicalParticipants |} in
  let total := Z.of_nat (List.length addresses) in
  ({| firstTimeMinters := acc_firstTime st;
      veteranMinters := acc_veteran st;
      totalParticipants := total;
      newParticipantRate :=
        if 0 <? total
        then mul (div (ofZ (Z.of_nat (List.length (acc_firstTime st))))
                      (ofZ total))
                 (ofZ 100)
        else zero |},
   acc_historical st).

(** [Math.max(1, Math.ceil(length * 0.01))], and the same for [0.1]. *)
Definition top1PercentCount (len : nat) : number :=
  max one (ceil (mul (ofZ (Z.of_nat len)) lit_0_01)).

Definition top10PercentCount (len : nat) : number :=
  max one (ceil (mul (ofZ (Z.of_nat len)) lit_0_1)).

(** [sorted.slice(0, top1PercentCount)] of line 173-174: the holders whose
    balances make up [top1PercentShare]. *)
Definition top1PercentHolders (sigma : store) (balances : list ref)
  : list ref :=
  let sorted := sort (compareDescending sigma) balances in
  slice sorted (Integer 0)
    (toIntegerOrInfinity (top1PercentCount (List.length sorted))).

Definition top10PercentHolders (sigma : store) (balances : list ref)
  : list ref :=
  let sorted := sort (compareDescending sigma) balances in
  slice sorted (Integer 0)
    (toIntegerOrInfinity (top10PercentCount (List.length sorted))).

(** The loop of lines 191-197. *)
Fixpoint nakamotoLoop (sigma : store) (threshold : Z) (sorted : list ref)
  (cumulativeBalance count : Z) : Z :=
  match sorted with
  | [] => count
  | holder :: rest =>
      let cumulativeBalance' := cumulativeBalance + balance (sigma holder) in
      let count' := count + 1 in
      if threshold <? cumulativeBalance' then count'
      else nakamotoLoop sigma threshold rest cumulativeBalance' count'
  end.

(** [calculateConcentrationMetrics] (lines 142-204). *)
Definition calculateConcentrationMetrics (sigma : store) (balances : list ref)
  : ConcentrationMetrics :=
  match balances with
  | [] =>
      {| top1PercentShare := zero; top10PercentShare := zero;
         nakamotoCoefficient := 0 |}
  | _ =>
      let sorted := sort (compareDescending sigma) balances in
      let total := sumHolderBalances sigma sorted in
      if total =? 0
      then {| top1PercentShare := zero; top10PercentShare := zero;
              nakamotoCoefficient := 0 |}
      else
        let top1PercentBalance :=
          sumHolderBalances sigma (top1PercentHolders sigma balances) in
        let top10PercentBalance :=
          sumHolderBalances sigma (top10PercentHolders sigma balances) in
        {| top1PercentShare :=
             div (ofZ (BigInt.div (top1PercentBalance * 10000) total))
                 (ofZ 100);
           top10PercentShare :=
             div (ofZ (BigInt.div (top10PercentBalance * 10000) total))
                 (ofZ 100);
           nakamotoCoefficient :=
             nakamotoLoop sigma (BigInt.div total 2) sorted 0 0 |}
  end.

(** The default of the parameter [windowSize]. *)
Definition defaultWindowSize : number := ofZ 10.

(** [calculateMovingAverageGini] (lines 209-219). *)
Definition calculateMovingAverageGini
  (historicalGiniValues : list number) (windowSize : number) : number :=
  match historicalGiniValues with
  | [] => zero
  | _ =>
      let recentValues :=
        sliceFrom historicalGiniValues
          (toIntegerOrInfinity (SFopp windowSize)) in
      let sum := fold_left add recentValues zero in
      div sum (ofZ (Z.of_nat (List.length recentValues)))
  end.

(** The default of the parameter [periods]. *)
Definition defaultPeriods : number := ofZ 5.

(** [Array.from({ length: n }, (_, i) => i)]. *)
Definition indices (n : nat) : list number :=
  map (fun i => ofZ (Z.of_nat i)) (seq 0 n).

(** [predictDistributionTrend] (lines 224-269). *)
Definition predictDistributionTrend
  (historicalGiniValues : list number) (periods : number) : Trend * number :=
  match historicalGiniValues with
  | [] => (stable, lit_0_5)
  | [y] => (stable, orElse y lit_0_5)
  | _ =>
      let n := ofZ (Z.of_nat (List.length historicalGiniValues)) in
      let xs := indices (List.length historicalGiniValues) in
      let sumX := fold_left add xs zero in
      let sumY := fold_left add historicalGiniValues zero in
      let sumXY :=
        fold_left (fun sum xy => add sum (mul (fst xy) (snd xy)))
          (combine xs historicalGiniValues) zero in
      let sumX2 := fold_left (fun sum x => add sum (mul x x)) xs zero in
      let slope :=
        div (sub (mul n sumXY) (mul sumX sumY))
            (sub (mul n sumX2) (mul sumX sumX)) in
      let intercept := div (sub sumY (mul slope sumX)) n in
      let predictedGini :=
        max zero
          (min one (add (mul slope (sub (add n periods) one)) intercept)) in
      let trend :=
        if ltb (abs slope) lit_0_001 then stable
        else if ltb slope zero then improving
        else worsening in
      (trend, predictedGini)
  end.

End DistributionMetrics.

(** ** [DieselEmissionCalculator]: epochs, schedule and halvings
    (services/mint-tracker.ts, lines 304-485) *)

Module EmissionViews.
Import JSNumber.

Record EmissionSchedule : Set := {
  epoch : number;
  startBlock : number;
  endBlock : number;
  blockReward : Z;
  totalEmission : Z;
  cumulativeEmission : Z
}.

(** A [HalvingEvent]; the [Date] object is represented by the number its
    constructor is given. *)
Record HalvingEvent : Set := {
  event_epoch : number;
  event_blockHeight : number;
  event_date : number;
  previousReward : Z;
  newReward : Z;
  isCompleted : bool
}.

(** [BigInt(x)] for a number [x]: the integer [x] is, and a [RangeError] when
    [x] is not an integer. *)
Definition bigIntOfNumber (x : number) : option Z :=
  match x with
  | S754_zero _ => Some 0
  | S754_finite s m e =>
      if 0 <=? e then Some (cond_Zopp s (Zpos m * 2 ^ e))
      else if Zpos m mod 2 ^ (- e) =? 0
           then Some (cond_Zopp s (Zpos m / 2 ^ (- e)))
           else None
  | _ => None
  end.

(** What a call that may throw and may need more passes than the bound
    comes to. *)
Inductive Run (A : Type) : Type :=
| Completed (a : A)
| Exception
| OutOfFuel.
Arguments Completed {A} a.
Arguments Exception {A}.
Arguments OutOfFuel {A}.

Section WithFields.

Variable this : Constants.

(** [getCurrentEpoch] (lines 309-318). *)
Definition getCurrentEpoch (currentBlock : Z) : number :=
  if currentBlock <? GENESIS_BLOCK this then ofZ (-1)
  else
    let blocksSinceGenesis := currentBlock - GENESIS_BLOCK this in
    let epoch := BigInt.div blocksSinceGenesis (HALVING_INTERVAL this) in
    ofZ epoch.

(** One pass through the loop body of [getEmissionSchedule] (lines 330-348)
    at the counter [epoch]: the new [cumulativeEmission], and the entry that
    is pushed unless the reward is 0 and the loop is left. *)
Definition scheduleStep (epoch cumulative : Z) : Z * option EmissionSchedule :=
  let startBlock :=
    ofZ (GENESIS_BLOCK this + epoch * HALVING_INTERVAL this) in
  let endBlock :=
    ofZ (GENESIS_BLOCK this + (epoch + 1) * HALVING_INTERVAL this - 1) in
  let blockReward := BigInt.shr (INITIAL_REWARD this) epoch in
  let totalEmission := HALVING_INTERVAL this * blockReward in
  let cumulative' := cumulative + totalEmission in
  (cumulative',
   if blockReward =? 0 then None
   else Some {| epoch := ofZ epoch;
                startBlock := startBlock;
                endBlock := endBlock;
                blockReward := blockReward;
                totalEmission := totalEmission;
                cumulativeEmission := cumulative' |}).

(** The loop of [getEmissionSchedule], with a bound on the number of
    passes; [None] is a run that needs more. *)
Fixpoint scheduleLoop (fuel : nat) (maxEpochs : number)
  (epoch cumulative : Z) (schedule : list EmissionSchedule)
  : option (list EmissionSchedule) :=
  if ltb (ofZ epoch) maxEpochs then
    match fuel with
    | O => None
    | S fuel' =>
        match scheduleStep epoch cumulative with
        | (_, None) => Some schedule
        | (cumulative', Some entry) =>
            scheduleLoop fuel' maxEpochs (epoch + 1) cumulative'
              (schedule ++ [entry])
        end
    end
  else Some schedule.

(** [getEmissionSchedule] (lines 325-352). *)
Definition getEmissionScheduleWithin (fuel : nat) (maxEpochs : number)
  : option (list EmissionSchedule) :=
  scheduleLoop fuel maxEpochs 0 0 [].

(** The default of the parameter [maxEpochs]. *)
Definition defaultMaxEpochs : number := ofZ 32.

(** One pass through the loop body of [getHalvingEvents] (lines 365-381);
    [None] when [BigInt(blockHeight)] throws. *)
Definition halvingEvent (Date_now currentBlock : number)
  (currentBlockBigInt epoch : Z) : option HalvingEvent :=
  let blockHeight :=
    ofZ (GENESIS_BLOCK this + epoch * HALVING_INTERVAL this) in
  let previousReward :=
    if epoch =? 0 then INITIAL_REWARD this
    else BigInt.shr (INITIAL_REWARD this) (epoch - 1) in
  let newReward := BigInt.shr (INITIAL_REWARD this) epoch in
  let blocksFromNow := sub blockHeight currentBlock in
  let minutesFromNow := mul blocksFromNow (ofZ 10) in
  let date := add Date_now (mul (mul minutesFromNow (ofZ 60)) (ofZ 1000)) in
  match bigIntOfNumber blockHeight with
  | None => None
  | Some height =>
      Some {| event_epoch := ofZ epoch;
              event_blockHeight := blockHeight;
              event_date := date;
              previousReward := previousReward;
              newReward := newReward;
              isCompleted := height <=? currentBlockBigInt |}
  end.

(** The loop of [getHalvingEvents], with a bound on the number of passes. *)
Fixpoint halvingLoop (fuel : nat) (Date_now currentBlock : number)
  (currentBlockBigInt : Z) (maxHalvings : number) (epoch : Z)
  (events : list HalvingEvent) : Run (list HalvingEvent) :=
  if ltb (ofZ epoch) maxHalvings then
    match fuel with
    | O => OutOfFuel
    | S fuel' =>
        match halvingEvent Date_now currentBlock currentBlockBigInt epoch with
        | None => Exception
        | Some event =>
            if newReward event =? 0 then Completed (events ++ [event])
            else
              halvingLoop fuel' Date_now currentBlock currentBlockBigInt
                maxHalvings (epoch + 1) (events ++ [event])
        end
    end
  else Completed events.

(** [getHalvingEvents] (lines 360-390); [BigInt(currentBlock)] throws when
    [currentBlock] is not an integer. *)
Definition getHalvingEventsWithin (fuel : nat) (Date_now : number)
  (currentBlock maxHalvings : number) : Run (list HalvingEvent) :=
  match bigIntOfNumber currentBlock with
  | None => Exception
  | Some currentBlockBigInt =>
      halvingLoop fuel Date_now currentBlock currentBlockBigInt
        maxHalvings 0 []
  end.

(** The default of the parameter [maxHalvings]. *)
Definition defaultMaxHalvings : number := ofZ 10.

(** [getBlocksUntilHalving] (lines 431-434). *)
Definition getBlocksUntilHalving (currentBlock : Z) : number :=
  let nextHalving := EmissionCalculator.getNextHalvingBlock this currentBlock in
  ofZ (nextHalving - currentBlock).

(** [getTimeUntilHalving] (lines 441-445). *)
Definition getTimeUntilHalving (currentBlock : Z) : number :=
  let blocksRemaining := getBlocksUntilHalving currentBlock in
  let minutesRemaining := mul blocksRemaining (ofZ 10) in
  mul (mul minutesRemaining (ofZ 60)) (ofZ 1000).

(** [verifyEmissionIntegrity] (lines 451-485); [None] when the cumulative
    emission of the far future block needs more passes than its bound. *)
Definition verifyEmissionIntegrity : option bool :=
  let genesisReward :=
    EmissionCalculator.calculateBlockReward this (GENESIS_BLOCK this) in
  if negb (genesisReward =? INITIAL_REWARD this) then Some false
  else
    let firstHalvingBlock := GENESIS_BLOCK this + HALVING_INTERVAL this in
    let firstHalvingReward :=
      EmissionCalculator.calculateBlockReward this firstHalvingBlock in
    let expectedFirstHalving := BigInt.div (INITIAL_REWARD this) 2 in
    if negb (firstHalvingReward =? expectedFirstHalving) then Some false
    else
      let premine := EmissionCalculator.calculatePremine this in
      let expectedPremine :=
        (LAUNCH_BLOCK this - GENESIS_BLOCK this) * INITIAL_REWARD this in
      if negb (premine =? expectedPremine) then Some false
      else
        let farFutureBlock :=
          GENESIS_BLOCK this + HALVING_INTERVAL this * 100 in
        match
          EmissionCalculator.calculateCumulativeEmission this farFutureBlock
        with
        | None => None
        | Some total =>
            if MAX_SUPPLY this <? total then Some false else Some true
        end.

End WithFields.

(** [isValidTokenAmount] (types/diesel.ts, lines 112-114). *)
Definition isValidTokenAmount (amount : Z) : bool :=
  (0 <=? amount) && (amount <=? MAX_SUPPLY DIESEL_CONSTANTS).

End EmissionViews.

(** The remaining methods of the singleton, with enough passes for the
    shipped constants: the reward is 0 from epoch 33 on. *)
Module dieselEmissionViews.
Definition getCurrentEpoch :=
  EmissionViews.getCurrentEpoch DIESEL_CONSTANTS.
Definition getEmissionSchedule :=
  EmissionViews.getEmissionScheduleWithin DIESEL_CONSTANTS 34.
Definition getHalvingEvents :=
  EmissionViews.getHalvingEventsWithin DIESEL_CONSTANTS 34.
Definition getNextHalvingBlock :=
  EmissionCalculator.getNextHalvingBlock DIESEL_CONSTANTS.
Definition getBlocksUntilHalving :=
  EmissionViews.getBlocksUntilHalving DIESEL_CONSTANTS.
Definition getTimeUntilHalving :=
  EmissionViews.getTimeUntilHalving DIESEL_CONSTANTS.
Definition verifyEmissionIntegrity :=
  EmissionViews.verifyEmissionIntegrity DIESEL_CONSTANTS.
End dieselEmissionViews.

(** ** The tracker and the clock (services/mint-tracker.ts)

    [MintTracker] gives a call one reading of [Date.now()].  A call of
    [getParticipationTrends] reads the clock many times: once for every
    claimant that comes without a time stamp (line 61) and once for every
    snapshot (line 117), and it awaits the indexer between the heights.
    Here the readings are followed one by one: [Date_now n] is what the
    call of [Date.now()] returns that has [n] calls before it, and a method
    takes the number of readings made before it and returns, with its
    result, the number of readings made after it. *)

Module ClockedMintTracker.
Import MintTracker.

Section WithCollaborators.

Variable rpcService : AlkanesRPCService.
Variable Date_now : nat -> Z.

(** The map of lines 56-62, one element after the other; [BigInt] is
    called before the clock is read, and an exception keeps the readings
    made for the elements before it. *)
Fixpoint toClaimants (height : Z) (mints : list ProtoruneEntry) (reads : nat)
  : Outcome (list ClaimantData) * nat :=
  match mints with
  | [] => (Returned [], reads)
  | mint :: rest =>
      match toBigInt (entry_amount mint) with
      | Threw => (Threw, reads)
      | Returned a =>
          let stamp :=
            match entry_timestamp mint with
            | Some t => (t, reads)
            | None => (Date_now reads, S reads)
            end in
          match toClaimants height rest (snd stamp) with
          | (Threw, reads') => (Threw, reads')
          | (Returned claimants, reads') =>
              (Returned
                 ({| address :=
                       match entry_address mint with
                       | Some s => s | None => "unknown"%string end;
                     blockHeight := height;
                     amount := a;
                     transactionId :=
                       match entry_txid mint with
                       | Some s => s | None => ""%string end;
                     timestamp := fst stamp |}
                  :: claimants), reads')
          end
      end
  end.

(** The body of the [try] block of [getBlockClaimants] (lines 42-64). *)
Definition getBlockClaimants_try (height : Z) (reads : nat)
  : Outcome (list ClaimantData) * nat :=
  match protorunesByHeight rpcService height with
  | Threw => (Threw, reads)
  | Returned NoResponse | Returned NotAnArray => (Returned [], reads)
  | Returned (ResultArray entries) =>
      match filterDieselMints entries with
      | Threw => (Threw, reads)
      | Returned dieselMints => toClaimants height dieselMints reads
      end
  end.

(** [getBlockClaimants] (lines 40-69). *)
Definition getBlockClaimants (height : Z) (reads : nat)
  : list ClaimantData * nat :=
  match getBlockClaimants_try height reads with
  | (Returned claimants, reads') => (claimants, reads')
  | (Threw, reads') => ([], reads')
  end.

(** One pass through the loop body of [getParticipationTrends]
    (lines 97-125); the snapshot is stamped with the reading of line 117,
    made after those of [getBlockClaimants]. *)
Definition trendStep (st : TrendState * nat) (height : Z) : TrendState * nat :=
  let found := getBlockClaimants height (snd st) in
  let claimants := fst found in
  let snapshot :=
    participationSnapshot (Date_now (snd found)) height claimants in
  let participantCount := totalClaimants snapshot in
  ({| acc_blocks := acc_blocks (fst st) ++ [snapshot];
      acc_uniqueAddresses :=
        fold_left setAdd (map address claimants)
          (acc_uniqueAddresses (fst st));
      acc_totalParticipants :=
        acc_totalParticipants (fst st) + participantCount;
      acc_peakParticipants :=
        Z.max (acc_peakParticipants (fst st)) participantCount;
      acc_minParticipants :=
        if 0 <? participantCount
        then Z.min (acc_minParticipants (fst st)) participantCount
        else acc_minParticipants (fst st) |},
   S (snd found)).

(** [getParticipationTrends] (lines 85-137). *)
Definition getParticipationTrends (startBlock endBlock : Z) (reads : nat)
  : TrendData * nat :=
  let final :=
    fold_left trendStep
      (heightsFrom startBlock (Z.to_nat (endBlock - startBlock + 1)))
      ({| acc_blocks := [];
          acc_uniqueAddresses := [];
          acc_totalParticipants := 0;
          acc_peakParticipants := 0;
          acc_minParticipants := MAX_SAFE_INTEGER |}, reads) in
  let st := fst final in
  let blockCount := endBlock - startBlock + 1 in
  ({| blocks := acc_blocks st;
      averageParticipants :=
        if 0 <? blockCount
        then JSNumber.div (JSNumber.ofZ (acc_totalParticipants st))
               (JSNumber.ofZ blockCount)
        else JSNumber.zero;
      peakParticipants := acc_peakParticipants st;
      minParticipants :=
        if acc_minParticipants st =? MAX_SAFE_INTEGER then 0
        else acc_minParticipants st;
      totalUniqueAddresses :=
        Z.of_nat (List.length (acc_uniqueAddresses st)) |},
   snd final).

End WithCollaborators.
End ClockedMintTracker.

(** ** The queries of the dashboard (hooks/useRealtimeData.ts) *)

Module useRealtimeData.
Import MintTracker.

(** The alerts the queries of [useRealtimeAlerts] build; the message of an
    alert is fixed by its type and, for a large claim, by the reward per
    claimant. *)
Inductive Alert : Set :=
| large_claim (rewardPerClaimant blockHeight timestamp : Z)
| treasury_cap (amount timestamp : Z).

(** The query function of the trends query of [useRealtimeMints]
    (lines 28-32), for the cached result [currentParticipation] of the
    current-block query; it runs after that query, against the indexer and
    the clock as they are then. *)
Definition trendsQueryFn (rpcService : AlkanesRPCService)
  (Date_now : nat -> Z) (currentParticipation : option ParticipationData)
  (reads : nat) : TrendData * nat :=
  let currentBlock :=
    match currentParticipation with
    | Some participation => snapshotHeight participation
    | None => 0
    end in
  let startBlock := currentBlock - 10 in
  ClockedMintTracker.getParticipationTrends rpcService Date_now
    startBlock currentBlock reads.

Section WithTracker.

(** The collaborators of the singleton [mintTracker], and
    [BigInt(import.meta.env.VITE_ALERT_THRESHOLD || 1000)]. *)
Variable rpcService : AlkanesRPCService.
Variable Date_now : Z.
Variable TREASURY_ADDRESS : string.
Variable alertThreshold : Z.

(** The query function of the large-claims query (lines 186-201). *)
Definition largeClaimsQueryFn : list Alert :=
  match getCurrentBlockParticipation rpcService Date_now with
  | None => []
  | Some participation =>
      if alertThreshold <? rewardPerClaimant participation
      then [large_claim (rewardPerClaimant participation)
              (snapshotHeight participation) Date_now]
      else []
  end.

(** The query function of the treasury query (lines 207-224). *)
Definition treasuryQueryFn : option Alert :=
  match getCurrentBlockParticipation rpcService Date_now with
  | None => None
  | Some participation =>
      let treasuryAmount :=
        getTreasuryParticipation rpcService Date_now TREASURY_ADDRESS
          (snapshotHeight participation) in
      let maxAllowed := BigInt.div (totalDistributed participation) 2 in
      if maxAllowed <=? treasuryAmount
      then Some (treasury_cap treasuryAmount Date_now)
      else None
  end.

End WithTracker.

(** The cache entry ['mints', 'current'] after [onMutate] of
    [useOptimisticMint] (lines 250-267), given the entry before it; the
    division throws on a divisor of 0. *)
Definition onMutate (previousData : option ParticipationData)
  : Outcome (option ParticipationData) :=
  match previousData with
  | None => Returned None
  | Some previous =>
      let claimants := totalClaimants previous + 1 in
      if claimants =? 0 then Threw
      else
        Returned
          (Some {| snapshotHeight := snapshotHeight previous;
                   totalClaimants := claimants;
                   rewardPerClaimant :=
                     BigInt.div (totalDistributed previous) claimants;
                   totalDistributed := totalDistributed previous;
                   snapshotTimestamp := snapshotTimestamp previous |})
  end.

End useRealtimeData.

(** ** BigInt helpers of the user interface (utils/bigint-utils.ts) *)

Module BigIntUtils.

(** Characters.  A string is a [string] of the standard library: the
    functions below produce ASCII only, and of the white space that [\s]
    and the numeric string grammar know, the characters that fit a byte
    are modelled. *)
Definition isDigit (c : ascii) : bool :=
  ((48 <=? nat_of_ascii c) && (nat_of_ascii c <=? 57))%nat.

(** The class [\w]: letters, digits and the underscore. *)
Definition isWordChar (c : ascii) : bool :=
  let n := nat_of_ascii c in
  (((48 <=? n) && (n <=? 57)) || ((65 <=? n) && (n <=? 90))
   || (n =? 95) || ((97 <=? n) && (n <=? 122)))%nat.

(** The class [\s]: tab, line feed, vertical tab, form feed, carriage
    return, space and no-break space. *)
Definition isWhiteSpace (c : ascii) : bool :=
  let n := nat_of_ascii c in
  (((9 <=? n) && (n <=? 13)) || (n =? 32) || (n =? 160))%nat.

(** [value.toString()] and [value.toString(16)] of a bigint. *)
Definition toString (value : Z) : string :=
  DecimalString.NilZero.string_of_int (Z.to_int value).

Definition toString16 (value : Z) : string :=
  HexadecimalString.NilZero.string_of_int (Z.to_hex_int value).

(** [value.replace(/[,\s]/g, '')]. *)
Fixpoint removeSeparators (value : string) : string :=
  match value with
  | EmptyString => EmptyString
  | String c rest =>
      if Ascii.eqb c "," || isWhiteSpace c then removeSeparators rest
      else String c (removeSeparators rest)
  end.

(** [/^\d+$/.test(s)] and [/^-?\d+$/.test(s)]. *)
Fixpoint allDigits (s : string) : bool :=
  match s with
  | EmptyString => true
  | String c rest => isDigit c && allDigits rest
  end.

Definition isDigits (s : string) : bool :=
  match s with
  | EmptyString => false
  | _ => allDigits s
  end.

Definition isSignedDigits (s : string) : bool :=
  match s with
  | String "-" rest => isDigits rest
  | _ => isDigits s
  end.

(** [BigInt(s)] for a string that matches [/^-?\d+$/]: the integer the
    decimal numeral denotes. *)
Definition bigIntOfDecimal (s : string) : option Z :=
  option_map Z.of_int (DecimalString.NilZero.int_of_string s).

(** [parseBigInt] (lines 57-71). *)
Definition parseBigInt (value : string) (defaultValue : Z) : Z :=
  let cleaned := removeSeparators value in
  if negb (isSignedDigits cleaned) then defaultValue
  else
    match bigIntOfDecimal cleaned with
    | Some parsed => parsed
    | None => defaultValue          (* the [catch] clause *)
    end.

(** The lookahead [(?=(\d{3})+(?!\d))] at the front of [s]: one group of
    three digits or more, and no digit after the last. *)
Fixpoint groupsOfThreeAhead (s : string) : bool :=
  match s with
  | String c1 (String c2 (String c3 rest)) =>
      isDigit c1 && isDigit c2 && isDigit c3
      && (match rest with
          | EmptyString => true
          | String c _ => negb (isDigit c)
          end
          || groupsOfThreeAhead rest)
  | _ => false
  end.

(** [\B] between the character [before] and the front of [s]: both are
    word characters, or neither is. *)
Definition notWordBoundary (before : option ascii) (s : string) : bool :=
  let isWord (c : option ascii) :=
    match c with Some c => isWordChar c | None => false end in
  Bool.eqb (isWord before)
    (isWord (match s with String c _ => Some c | EmptyString => None end)).

(** [s.replace(/\B(?=(\d{3})+(?!\d))/g, ',')], from the position after
    [before]: a comma goes in at every position the expression matches. *)
Fixpoint insertCommas (before : option ascii) (s : string) : string :=
  let here := notWordBoundary before s && groupsOfThreeAhead s in
  let rest :=
    match s with
    | EmptyString => EmptyString
    | String c s' => String c (insertCommas (Some c) s')
    end in
  if here then String "," rest else rest.

(** [formatWithCommas] (lines 105-107). *)
Definition formatWithCommas (value : Z) : string :=
  insertCommas None (toString value).

Record MinMax : Set := { min : Z; max : Z }.

(** [getMinMax] (lines 114-128). *)
Definition getMinMax (values : list Z) : MinMax :=
  match values with
  | [] => {| min := 0; max := 0 |}
  | first :: _ =>
      fold_left
        (fun acc value =>
           {| min := if value <? min acc then value else min acc;
              max := if max acc <? value then value else max acc |})
        values {| min := first; max := first |}
  end.

(** [sumBigInt] (lines 135-137). *)
Definition sumBigInt (values : list Z) : Z :=
  fold_left (fun sum value => sum + value) values 0.

(** [averageBigInt] (lines 144-148). *)
Definition averageBigInt (values : list Z) : Z :=
  match values with
  | [] => 0
  | _ =>
      let sum := sumBigInt values in
      BigInt.div sum (Z.of_nat (List.length values))
  end.

(** [bigintToHex] (lines 155-157). *)
Definition bigintToHex (value : Z) : string :=
  ("0x" ++ toString16 value)%string.

(** A string without the white space at its end. *)
Fixpoint trimEnd (s : string) : string :=
  match s with
  | EmptyString => EmptyString
  | String c rest =>
      match trimEnd rest with
      | EmptyString => if isWhiteSpace c then EmptyString
                       else String c EmptyString
      | trimmed => String c trimmed
      end
  end.

(** A hexadecimal digit in lower case. *)
Definition lowerHexDigit (c : ascii) : ascii :=
  let n := nat_of_ascii c in
  if ((65 <=? n) && (n <=? 70))%nat then ascii_of_nat (n + 32) else c.

Fixpoint lowerHex (s : string) : string :=
  match s with
  | EmptyString => EmptyString
  | String c rest => String (lowerHexDigit c) (lowerHex rest)
  end.

(** [BigInt('0x' + digits)]: the integer the hexadecimal digits denote,
    which white space may follow; [None] is the [SyntaxError] for anything
    else. *)
Definition bigIntOfHex (digits : string) : option Z :=
  match trimEnd digits with
  | EmptyString => None
  | trimmed =>
      option_map (fun d => Z.of_N (N.of_hex_uint d))
        (HexadecimalString.NilEmpty.uint_of_string (lowerHex trimmed))
  end.

(** [hexToBigint] (lines 164-168); [None] when [BigInt] throws. *)
Definition hexToBigint (hex : string) : option Z :=
  match hex with
  | EmptyString => Some 0
  | _ =>
      let cleanHex :=
        match hex with
        | String "0" (String "x" rest) => rest
        | _ => hex
        end in
      bigIntOfHex cleanHex
  end.

End BigIntUtils.

(** ** Predicates and auxiliary functions of the proofs *)

Module NumberSpec.
Import JSNumber.

(** The exponent of the binary64 format for a value of [x] binary digits
    before the point: [fexp prec emax x], written out. *)
Definition fexp64 (x : Z) : Z := Z.max (x - 53) (-1074).

Definition is_nan (x : number) : bool :=
  match x with S754_nan => true | _ => false end.

Definition is_finite_or_zero (x : number) : bool :=
  match x with S754_finite _ _ _ | S754_zero _ => true | _ => false end.

(** [ge_unit mv m e]: the value [m * 2^e] is at least [mv * 2^(-52)]. *)
Definition ge_unit (mv m e : Z) : Prop :=
  mv * 2 ^ Z.max 0 (-52 - e) <= m * 2 ^ Z.max 0 (e + 52).

(** [at_least_one x]: [x] is [+Infinity] or a finite number that is at least
    one, with a mantissa of at most 53 bits. *)
Definition at_least_one (x : number) : Prop :=
  match x with
  | S754_infinity false => True
  | S754_finite false m e => 2 ^ (0 - e) <= Zpos m /\ Zpos m < 2 ^ 53
  | _ => False
  end.

(** [x] is [+0]. *)
Definition is_positive_zero (x : number) : bool :=
  match x with S754_zero false => true | _ => false end.

End NumberSpec.

Module GiniSpec.
Import JSNumber NumberSpec.

(** What is left of the Gini computation for [n] equal balances: the
    truncated ratio depends on [n] alone. *)
Definition giniOfEqualBalances (n : Z) : number :=
  max zero
    (min one
       (sub (div (ofZ ((n + 1) * 10000 / n)) (ofZ 10000))
            (div (ofZ (n + 1)) (ofZ n)))).

(** The check that settles the length [n] when the truncated ratio is
    [10000 + j]: the ratio rounds to [mv * 2^(-52)] in the binade of one and
    the exact quotient [(n+1)/n] is not below it. *)
Definition equalBalancesCheck (n j : Z) : bool :=
  match div (ofZ (10000 + j)) (ofZ 10000) with
  | S754_finite false mv e =>
      (e =? -52) && (2 ^ 52 <=? Zpos mv) && (Zpos mv <? 2 ^ 53)
      && ((Zpos mv - 2 ^ 52) * n <=? 2 ^ 52)
  | _ => false
  end.

End GiniSpec.

Module TrackerSpec.
Import MintTracker.

(** The equal split recorded by a snapshot: every claimant is given
    [rewardPerClaimant], and what is left of [totalDistributed], the dust, is
    given to nobody. *)
Definition splitsEqually (s : ParticipationData) : Prop :=
  let k := totalClaimants s in
  rewardPerClaimant s * k <= totalDistributed s /\
  (k = 0 -> rewardPerClaimant s = 0) /\
  (0 < k ->
   rewardPerClaimant s = totalDistributed s / k /\
   0 <= totalDistributed s - rewardPerClaimant s * k < k).

(** The treasury's claim among the claimants of a height: the amount of the
    first claimant with the treasury's address, and 0 without one. *)
Definition rawTreasuryClaim (treasury : string) (claimants : list ClaimantData)
  : Z :=
  match find (fun c => String.eqb (address c) treasury) claimants with
  | Some treasuryClaim => amount treasuryClaim
  | None => 0
  end.

(** Indexers to run the tracker against: one whose claimant lookup always
    fails, one that knows of no claim at any height, and one that reports a
    single DIESEL claim, by the address [treasury], at every height. *)
Definition unavailableIndexer (tip : Z) : AlkanesRPCService :=
  {| protorunesByHeight := fun _ => Threw;
     getBlockchainInfo := Returned (Some (Integral tip)) |}.

Definition emptyIndexer (tip : Z) : AlkanesRPCService :=
  {| protorunesByHeight := fun _ => Returned (ResultArray []);
     getBlockchainInfo := Returned (Some (Integral tip)) |}.

Definition treasuryMint (claimed : Z) : ProtoruneEntry :=
  {| entry_alkane_id := Some "800000"%string;
     entry_address := Some "treasury"%string;
     entry_amount := Integral claimed;
     entry_txid := Some "tx"%string;
     entry_timestamp := Some 1 |}.

Definition treasuryIndexer (claimed tip : Z) : AlkanesRPCService :=
  {| protorunesByHeight :=
       fun _ => Returned (ResultArray [Some (treasuryMint claimed)]);
     getBlockchainInfo := Returned (Some (Integral tip)) |}.

(** An indexer that does not know the chain tip. *)
Definition tiplessIndexer : AlkanesRPCService :=
  {| protorunesByHeight := fun _ => Returned (ResultArray []);
     getBlockchainInfo := Returned (Some Falsy) |}.

End TrackerSpec.

Module EmissionSpec.

(** A miniature schedule whose cap is out of reach: halving every ten
    blocks from height 0, an initial reward of one unit. *)
Definition miniatureSchedule : Constants :=
  {| GENESIS_BLOCK := 0;
     LAUNCH_BLOCK := 0;
     HALVING_INTERVAL := 10;
     INITIAL_REWARD := 1;
     MAX_SUPPLY := 1000;
     PREMINE_BLOCKS := 0 |}.

End EmissionSpec.

Module StoreSpec.
Import JSNumber DistributionMetrics.

(** A store in which holder [r] owns [r + 1] units. *)
Definition exampleStore : store :=
  fun r => {| address := ""%string;
              balance := Z.of_nat r + 1;
              percentage := zero |}.

End StoreSpec.

Module EmissionViewsSpec.
Import JSNumber EmissionViews.

(** The emission of the epochs [0] to [count - 1] of the shipped schedule,
    a full halving interval each. *)
Fixpoint emissionOfEpochs (count : nat) : Z :=
  match count with
  | O => 0
  | S count' =>
      emissionOfEpochs count'
      + HALVING_INTERVAL DIESEL_CONSTANTS
        * BigInt.shr (INITIAL_REWARD DIESEL_CONSTANTS) (Z.of_nat count')
  end.

(** The entry of the shipped schedule for epoch [i]. *)
Definition scheduleEntry (i : Z) : EmissionSchedule :=
  {| epoch := ofZ i;
     startBlock := ofZ (800000 + 210000 * i);
     endBlock := ofZ (800000 + 210000 * (i + 1) - 1);
     blockReward := BigInt.shr 5000000000 i;
     totalEmission := 210000 * BigInt.shr 5000000000 i;
     cumulativeEmission := emissionOfEpochs (Z.to_nat (i + 1)) |}.

(** The halving event of epoch [i] of the shipped schedule, for a caller at
    the height [currentBlock]. *)
Definition halvingEventAt (Date_now currentBlock : number)
  (currentBlockBigInt i : Z) : HalvingEvent :=
  {| event_epoch := ofZ i;
     event_blockHeight := ofZ (800000 + 210000 * i);
     event_date :=
       add Date_now
         (mul (mul (mul (sub (ofZ (800000 + 210000 * i)) currentBlock)
                      (ofZ 10)) (ofZ 60)) (ofZ 1000));
     previousReward := BigInt.shr 5000000000 (Z.max 0 (i - 1));
     newReward := BigInt.shr 5000000000 i;
     isCompleted := 800000 + 210000 * i <=? currentBlockBigInt |}.

End EmissionViewsSpec.

Module TrackerViewsSpec.
Import MintTracker.

(** The test of the filter of [getBlockClaimants]. *)
Definition isDieselMint (entry : ProtoruneEntry) : bool :=
  match entry_alkane_id entry with
  | Some id => String.eqb id GENESIS_BLOCK_toString
  | None => false
  end.

(** The elements of an answer that are objects. *)
Fixpoint presentEntries (entries : list (option ProtoruneEntry))
  : list ProtoruneEntry :=
  match entries with
  | [] => []
  | Some entry :: rest => entry :: presentEntries rest
  | None :: rest => presentEntries rest
  end.

Definition hasIntegralAmount (entry : ProtoruneEntry) : bool :=
  match entry_amount entry with
  | NotIntegral => false
  | _ => true
  end.

(** An answer that [getBlockClaimants] can read to its end: no null
    element, and an amount that [BigInt] accepts in every DIESEL mint. *)
Definition wellFormed (entries : list (option ProtoruneEntry)) : bool :=
  forallb (fun e => match e with Some _ => true | None => false end) entries
  && forallb hasIntegralAmount (filter isDieselMint (presentEntries entries)).

Definition sumZ (l : list Z) : Z := fold_right Z.add 0 l.

(** A snapshot with its time stamp replaced. *)
Definition stampedAt (now : Z) (s : ParticipationData) : ParticipationData :=
  {| snapshotHeight := snapshotHeight s;
     totalClaimants := totalClaimants s;
     rewardPerClaimant := rewardPerClaimant s;
     totalDistributed := totalDistributed s;
     snapshotTimestamp := now |}.

(** The number of claimants the tracker finds at a height. *)
Definition claimantCount (rpc : AlkanesRPCService) (now h : Z) : Z :=
  Z.of_nat (List.length (getBlockClaimants rpc now h)).

(** An indexer that reports at every height the same three DIESEL claims,
    two of them by one address. *)
Definition claimBy (who : string) : option ProtoruneEntry :=
  Some {| entry_alkane_id := Some "800000"%string;
          entry_address := Some who;
          entry_amount := Integral 1;
          entry_txid := None;
          entry_timestamp := None |}.

Definition busyIndexer (tip : Z) : AlkanesRPCService :=
  {| protorunesByHeight :=
       fun _ => Returned (ResultArray
                  [claimBy "a"%string; claimBy "b"%string; claimBy "a"%string]);
     getBlockchainInfo := Returned (Some (Integral tip)) |}.

End TrackerViewsSpec.

Module DistributionViewsSpec.
Import JSNumber JSArray DistributionMetrics.

(** Holders in the order of their balances, largest first. *)
Definition descending (sigma : store) (holders : list ref) : Prop :=
  StronglySorted
    (fun a b => balance (sigma b) <= balance (sigma a)) holders.

(** The balance of the first [count] holders of a list. *)
Definition balanceOfFirst (sigma : store) (count : Z) (holders : list ref)
  : Z :=
  sumHolderBalances sigma (firstn (Z.to_nat count) holders).

(** A store of four holders with the balances 40, 30, 20 and 10; every
    other reference is a holder without balance. *)
Definition fourHolders : store :=
  fun r =>
    {| address := ""%string;
       balance := match r with
                  | 0%nat => 40 | 1%nat => 30 | 2%nat => 20 | 3%nat => 10
                  | _ => 0
                  end;
       percentage := zero |}.

End DistributionViewsSpec.

Module BigIntUtilsSpec.
Import BigIntUtils.

(** Digits in groups of three from the right: a comma after every digit
    that a positive multiple of three digits follows. *)
Fixpoint groupThousands (digits : string) : string :=
  match digits with
  | EmptyString => EmptyString
  | String c rest =>
      let n := String.length rest in
      if (negb (n =? 0) && (n mod 3 =? 0))%nat
      then String c (String "," (groupThousands rest))
      else String c (groupThousands rest)
  end.

End BigIntUtilsSpec.

(** * Facts *)

(** ** The emission schedule *)

Module EmissionFacts.
Import EmissionCalculator.

Lemma shr_nonneg a n : 0 <= a -> 0 <= BigInt.shr a n.
Proof. intros Ha. unfold BigInt.shr. now apply Z.shiftr_nonneg. Qed.

Lemma div_nonneg_floor a b : 0 <= a -> 0 < b -> BigInt.div a b = a / b.
Proof. intros Ha Hb. unfold BigInt.div. apply Z.quot_div_nonneg; lia. Qed.

Section AnyConstants.
Variable this : Constants.
Hypothesis reward_nonneg : 0 <= INITIAL_REWARD this.

Lemma calculateBlockReward_nonneg h : 0 <= calculateBlockReward this h.
Proof.
  unfold calculateBlockReward.
  destruct (h <? GENESIS_BLOCK this); [lia | now apply shr_nonneg].
Qed.

Lemma sumBlockRewards_nonneg count : forall from,
  0 <= sumBlockRewards this from count.
Proof.
  induction count as [|c IH]; intros from; cbn [sumBlockRewards]; [lia|].
  specialize (IH (from + 1)). pose proof (calculateBlockReward_nonneg from). lia.
Qed.

Lemma sumBlockRewards_add a b : forall from,
  sumBlockRewards this from (a + b) =
  sumBlockRewards this from a + sumBlockRewards this (from + Z.of_nat a) b.
Proof.
  induction a as [|a IH]; intros from.
  - cbn. now rewrite Z.add_0_r.
  - cbn [Nat.add sumBlockRewards]. rewrite IH.
    replace (from + 1 + Z.of_nat a) with (from + Z.of_nat (S a)) by lia. lia.
Qed.

Lemma sumBlockRewards_mono a b from :
  (a <= b)%nat -> sumBlockRewards this from a <= sumBlockRewards this from b.
Proof.
  intros Hab. replace b with (a + (b - a))%nat by lia.
  rewrite sumBlockRewards_add.
  pose proof (sumBlockRewards_nonneg (b - a) (from + Z.of_nat a)). lia.
Qed.

(** The clamp: whatever the constants, a run that returns returns at most
    the maximal supply. *)
Lemma emissionLoop_le_max fuel currentBlock : forall s r,
  0 <= MAX_SUPPLY this ->
  totalEmission s <= MAX_SUPPLY this ->
  emissionLoop this fuel currentBlock s = Some r ->
  r <= MAX_SUPPLY this.
Proof.
  induction fuel as [|fuel IH]; intros s r Hmax Hs; cbn [emissionLoop].
  - destruct (_ && _); [discriminate|]. intros [= <-]. exact Hs.
  - destruct (_ && _); [|intros [= <-]; exact Hs].
    unfold loopBody.
    destruct (MAX_SUPPLY this <? _) eqn:E.
    + intros [= <-]. lia.
    + apply IH; [exact Hmax|]. cbn. apply Z.ltb_ge in E. exact E.
Qed.

End AnyConstants.

Section PositiveInterval.
Variable this : Constants.
Hypothesis interval_pos : 0 < HALVING_INTERVAL this.

(** Past [currentBlock] the loop is over. *)
Lemma emissionLoop_past fuel currentBlock s :
  currentBlock < blockHeight s ->
  emissionLoop this fuel currentBlock s = Some (totalEmission s).
Proof.
  intros H. destruct fuel; cbn [emissionLoop];
    destruct (Z.leb_spec (blockHeight s) currentBlock); try lia; reflexivity.
Qed.

(** The loop returns: [blockHeight] is on the boundary of epoch [j], and
    every pass that does not return moves it to the next boundary or past
    [currentBlock]. *)
Lemma emissionLoop_returns currentBlock : forall fuel s j,
  0 <= j ->
  blockHeight s = GENESIS_BLOCK this + j * HALVING_INTERVAL this ->
  (currentBlock - blockHeight s) / HALVING_INTERVAL this + 1 < Z.of_nat fuel ->
  exists r, emissionLoop this fuel currentBlock s = Some r.
Proof.
  induction fuel as [|fuel IH]; intros s j Hj Hs Hfuel.
  - cbn [emissionLoop]. destruct (_ && _) eqn:E; [|eauto].
    apply andb_prop in E. destruct E as [E _]. apply Z.leb_le in E.
    assert (0 <= (currentBlock - blockHeight s) / HALVING_INTERVAL this)
      by (apply Z.div_pos; lia).
    lia.
  - cbn [emissionLoop]. destruct (_ && _) eqn:E; [|eauto].
    apply andb_prop in E. destruct E as [E _]. apply Z.leb_le in E.
    unfold loopBody.
    destruct (MAX_SUPPLY this <? _); [eauto|].
    rewrite Hs.
    replace (GENESIS_BLOCK this + j * HALVING_INTERVAL this - GENESIS_BLOCK this)
      with (j * HALVING_INTERVAL this) by lia.
    unfold BigInt.div. rewrite Z.quot_mul by lia.
    destruct (Z.ltb_spec (GENESIS_BLOCK this + (j + 1) * HALVING_INTERVAL this)
                currentBlock) as [Hnext|Hlast].
    + apply (IH _ (j + 1)); [lia|reflexivity|]. cbn [blockHeight].
      replace (currentBlock
               - (GENESIS_BLOCK this + (j + 1) * HALVING_INTERVAL this))
        with (currentBlock - blockHeight s + -1 * HALVING_INTERVAL this)
        by (rewrite Hs; lia).
      rewrite Z.div_add by lia. lia.
    + rewrite emissionLoop_past by (cbn [blockHeight]; lia). eauto.
Qed.

(** Whatever the constants, as long as the halving interval is positive and
    the maximal supply is not negative, the cumulative emission is defined at
    every height and is at most the maximal supply. *)
Lemma calculateCumulativeEmission_bounded currentBlock :
  0 <= MAX_SUPPLY this ->
  exists e,
    calculateCumulativeEmission this currentBlock = Some e /\
    e <= MAX_SUPPLY this.
Proof.
  intros Hmax. unfold calculateCumulativeEmission.
  destruct (Z.ltb_spec currentBlock (GENESIS_BLOCK this)) as [Hb|Ha];
    [exists 0; split; [reflexivity|lia]|].
  destruct (emissionLoop_returns currentBlock (emissionFuel this currentBlock)
              {| totalEmission := 0; blockHeight := GENESIS_BLOCK this |} 0)
    as [r Hr]; [lia|cbn [blockHeight]; lia| |].
  - cbn [blockHeight]. unfold emissionFuel.
    assert (0 <= (currentBlock - GENESIS_BLOCK this) / HALVING_INTERVAL this)
      by (apply Z.div_pos; lia).
    lia.
  - exists r. split; [exact Hr|].
    apply (emissionLoop_le_max this _ _ _ _ Hmax) in Hr; [exact Hr|].
    cbn [totalEmission]. exact Hmax.
Qed.

End PositiveInterval.

Import dieselEmissionCalculator.

Lemma reward_first_epoch h :
  800000 <= h < 1010000 -> calculateBlockReward h = 5000000000.
Proof.
  intros Hh. unfold calculateBlockReward, EmissionCalculator.calculateBlockReward.
  cbn [GENESIS_BLOCK HALVING_INTERVAL INITIAL_REWARD DIESEL_CONSTANTS].
  destruct (Z.ltb_spec h 800000); [lia|].
  unfold BigInt.div. rewrite Z.quot_small by lia. reflexivity.
Qed.

Lemma sum_first_epoch count : forall from,
  800000 <= from -> from + Z.of_nat count <= 1010000 ->
  sumBlockRewards DIESEL_CONSTANTS from count = Z.of_nat count * 5000000000.
Proof.
  induction count as [|c IH]; intros from Hlo Hhi; cbn [sumBlockRewards]; [lia|].
  rewrite IH by lia.
  change (EmissionCalculator.calculateBlockReward DIESEL_CONSTANTS from)
    with (calculateBlockReward from).
  rewrite reward_first_epoch by lia. lia.
Qed.

Lemma DIESEL_reward_nonneg : 0 <= INITIAL_REWARD DIESEL_CONSTANTS.
Proof. cbn. lia. Qed.

Lemma reference_value h :
  800000 <= h ->
  cumulativeEmissionReference h = Z.min ((h - 800000 + 1) * 5000000000) 156250000000000.
Proof.
  intros Hh. unfold cumulativeEmissionReference, EmissionCalculator.cumulativeEmissionReference.
  cbn [GENESIS_BLOCK MAX_SUPPLY DIESEL_CONSTANTS].
  destruct (Z_lt_le_dec h 1010000) as [Hlt|Hge].
  - rewrite sum_first_epoch by lia. f_equal. lia.
  - pose proof (sumBlockRewards_mono DIESEL_CONSTANTS DIESEL_reward_nonneg
                  (Z.to_nat 210000) (Z.to_nat (h - 800000 + 1)) 800000 ltac:(lia)) as Hm.
    rewrite (sum_first_epoch (Z.to_nat 210000) 800000) in Hm by lia.
    lia.
Qed.

Lemma cumulative_value h :
  800000 <= h ->
  calculateCumulativeEmission h =
  Some (Z.min ((h - 800000 + 1) * 5000000000) 156250000000000).
Proof.
  intros Hh.
  unfold calculateCumulativeEmission, EmissionCalculator.calculateCumulativeEmission.
  cbn [GENESIS_BLOCK DIESEL_CONSTANTS].
  destruct (Z.ltb_spec h 800000); [lia|].
  unfold emissionFuel.
  replace (_ + 2)%nat with (S (S (Z.to_nat ((h - GENESIS_BLOCK DIESEL_CONSTANTS) / HALVING_INTERVAL DIESEL_CONSTANTS)))) by lia.
  set (f := Z.to_nat _).
  cbn [emissionLoop EmissionCalculator.blockHeight EmissionCalculator.totalEmission MAX_SUPPLY DIESEL_CONSTANTS].
  destruct (Z.leb_spec 800000 h); [|lia].
  cbn [andb Z.ltb Z.compare].
  unfold loopBody.
  cbn [EmissionCalculator.blockHeight EmissionCalculator.totalEmission
       MAX_SUPPLY GENESIS_BLOCK HALVING_INTERVAL INITIAL_REWARD DIESEL_CONSTANTS].
  change (BigInt.div (800000 - 800000) 210000) with 0.
  change (BigInt.shr (50 * 100000000) 0) with 5000000000.
  change (800000 + (0 + 1) * 210000) with 1010000.
  destruct (Z.ltb_spec 1010000 h).
  - destruct (Z.ltb_spec 156250000000000 (0 + (1010000 - 800000) * 5000000000)); [|lia].
    f_equal. lia.
  - destruct (Z.ltb_spec 156250000000000 (0 + (h + 1 - 800000) * 5000000000)).
    + f_equal. lia.
    + cbn [EmissionCalculator.blockHeight EmissionCalculator.totalEmission].
      destruct (Z.leb_spec (h + 1) h); [lia|]. cbn [andb]. f_equal. lia.
Qed.
End EmissionFacts.

(** ** The tracker *)

Module TrackerFacts.
Import MintTracker.

Lemma inlineBlockReward_nonneg h : 0 <= inlineBlockReward h.
Proof.
  unfold inlineBlockReward, BigInt.shr. apply Z.shiftr_nonneg. cbn. lia.
Qed.

Lemma inlineBlockReward_from_genesis h :
  GENESIS_BLOCK DIESEL_CONSTANTS <= h ->
  inlineBlockReward h = dieselEmissionCalculator.calculateBlockReward h.
Proof.
  intros Hh. unfold dieselEmissionCalculator.calculateBlockReward,
    EmissionCalculator.calculateBlockReward, inlineBlockReward.
  destruct (Z.ltb_spec h (GENESIS_BLOCK DIESEL_CONSTANTS)); [lia|reflexivity].
Qed.

Lemma fold_trendStep_blocks rpc now : forall hs st,
  acc_blocks (fold_left (trendStep rpc now) hs st) =
  acc_blocks st ++
  map (fun h => participationSnapshot now h (getBlockClaimants rpc now h)) hs.
Proof.
  induction hs as [|h hs IH]; intros st; cbn [fold_left map].
  - now rewrite app_nil_r.
  - rewrite IH. cbn [trendStep acc_blocks]. now rewrite <- app_assoc.
Qed.

Lemma getParticipationTrends_blocks rpc now startBlock endBlock :
  blocks (getParticipationTrends rpc now startBlock endBlock) =
  map (fun h => participationSnapshot now h (getBlockClaimants rpc now h))
      (heightsFrom startBlock (Z.to_nat (endBlock - startBlock + 1))).
Proof.
  unfold getParticipationTrends. cbn [blocks].
  now rewrite fold_trendStep_blocks.
Qed.

Lemma calculateRewardPerClaimant_floor R k :
  0 <= R -> 0 < k -> calculateRewardPerClaimant R k = R / k.
Proof.
  intros HR Hk. unfold calculateRewardPerClaimant.
  destruct (Z.eqb_spec k 0); [lia|].
  unfold BigInt.div. apply Z.quot_div_nonneg; lia.
Qed.

Lemma snapshot_split now h claimants :
  let s := participationSnapshot now h claimants in
  let k := totalClaimants s in
  k = Z.of_nat (List.length claimants) /\
  totalDistributed s = inlineBlockReward h /\
  (k = 0 -> rewardPerClaimant s = 0) /\
  (0 < k -> rewardPerClaimant s = totalDistributed s / k) /\
  rewardPerClaimant s * k <= totalDistributed s /\
  (0 < k -> totalDistributed s - rewardPerClaimant s * k < k).
Proof.
  cbn zeta. unfold participationSnapshot. cbn [totalClaimants totalDistributed rewardPerClaimant].
  set (k := Z.of_nat (List.length claimants)).
  pose proof (inlineBlockReward_nonneg h) as HR.
  set (R := inlineBlockReward h) in *.
  assert (Hk : 0 <= k) by (unfold k; lia).
  split; [reflexivity|]. split; [reflexivity|].
  destruct (Z.ltb_spec 0 k) as [Hpos|Hz].
  - rewrite calculateRewardPerClaimant_floor by lia.
    pose proof (Z.mul_div_le R k Hpos).
    pose proof (Z.mod_pos_bound R k Hpos).
    pose proof (Z.div_mod R k ltac:(lia)).
    repeat split; intros; try lia.
  - repeat split; intros; try lia.
Qed.
End TrackerFacts.

(** ** Binary64 arithmetic *)

Module NumberFacts.
Import JSNumber NumberSpec.

(** *** Binary digits *)

Lemma digits2_pos_size p : digits2_pos p = Pos.size p.
Proof. induction p as [p IH|p IH|]; cbn; now rewrite ?IH. Qed.

Lemma digits2_pos_bounds p :
  2 ^ (Zpos (digits2_pos p) - 1) <= Zpos p < 2 ^ Zpos (digits2_pos p).
Proof.
  rewrite digits2_pos_size. split.
  - pose proof (Pos.size_le p) as H.
    apply Pos2Z.pos_le_pos in H. rewrite Pos2Z.inj_pow in H.
    change (Zpos p~0) with (2 * Zpos p) in H.
    replace (Zpos (Pos.size p)) with (Z.succ (Zpos (Pos.size p) - 1)) in H by lia.
    rewrite Z.pow_succ_r in H by lia. lia.
  - pose proof (Pos.size_gt p) as H.
    apply Pos2Z.pos_lt_pos in H. now rewrite Pos2Z.inj_pow in H.
Qed.

Lemma Zdigits2_bounds m :
  0 < m -> 0 < Zdigits2 m /\ 2 ^ (Zdigits2 m - 1) <= m < 2 ^ Zdigits2 m.
Proof.
  destruct m as [|p|p]; try lia. intros _. cbn [Zdigits2].
  split; [lia | apply digits2_pos_bounds].
Qed.

Lemma Zdigits2_le m d : 0 < m -> 0 <= d -> m < 2 ^ d -> Zdigits2 m <= d.
Proof.
  intros Hm Hd Hlt. destruct (Zdigits2_bounds m Hm) as [Hpos [Hlo _]].
  destruct (Z_le_gt_dec (Zdigits2 m) d) as [|Hgt]; [assumption|exfalso].
  assert (2 ^ d <= 2 ^ (Zdigits2 m - 1)) by (apply Z.pow_le_mono_r; lia).
  lia.
Qed.

Lemma Zdigits2_ge m d : 0 < m -> 2 ^ d <= m -> d < Zdigits2 m.
Proof.
  intros Hm Hle. destruct (Zdigits2_bounds m Hm) as [Hpos [_ Hhi]].
  destruct (Z_lt_le_dec d (Zdigits2 m)) as [|Hge]; [assumption|exfalso].
  assert (2 ^ Zdigits2 m <= 2 ^ d) by (apply Z.pow_le_mono_r; lia).
  lia.
Qed.

(** *** Right shifts *)

Lemma shr_1_m mrs : 0 <= shr_m mrs -> shr_m (shr_1 mrs) = shr_m mrs / 2.
Proof.
  destruct mrs as [m r s]. cbn [shr_m]. intros Hm.
  destruct m as [|[p|p|]|p]; cbn [shr_1 shr_m]; try lia; try reflexivity.
  - rewrite Pos2Z.inj_xI. apply Z.div_unique with (r := 1); lia.
  - rewrite Pos2Z.inj_xO. apply Z.div_unique with (r := 0); lia.
Qed.

Lemma iter_pos_nat {A} (f : A -> A) p : forall x,
  iter_pos f p x = Nat.iter (Pos.to_nat p) f x.
Proof.
  induction p as [p IH|p IH|]; intros x; cbn [iter_pos].
  - rewrite !IH. rewrite Pos2Nat.inj_xI.
    replace (S (2 * Pos.to_nat p))
      with (Pos.to_nat p + (Pos.to_nat p + 1))%nat by lia.
    now rewrite !Nat.iter_add.
  - rewrite !IH. rewrite Pos2Nat.inj_xO.
    replace (2 * Pos.to_nat p)%nat with (Pos.to_nat p + Pos.to_nat p)%nat by lia.
    now rewrite Nat.iter_add.
  - reflexivity.
Qed.

Lemma iter_shr_1_m n : forall mrs,
  0 <= shr_m mrs ->
  shr_m (Nat.iter n shr_1 mrs) = shr_m mrs / 2 ^ Z.of_nat n.
Proof.
  induction n as [|n IH]; intros mrs Hm.
  - cbn. now rewrite Z.div_1_r.
  - rewrite Nat.iter_succ. rewrite shr_1_m.
    + rewrite IH by assumption.
      rewrite Nat2Z.inj_succ, Z.pow_succ_r by lia.
      rewrite Z.div_div by lia. f_equal. lia.
    + rewrite IH by assumption. apply Z.div_pos; lia.
Qed.

Lemma shr_m_spec mrs e n :
  0 <= shr_m mrs ->
  shr_m (fst (shr mrs e n)) = shr_m mrs / 2 ^ Z.max n 0 /\
  snd (shr mrs e n) = e + Z.max n 0.
Proof.
  intros Hm. unfold shr. destruct n as [|p|p]; cbn [fst snd].
  - cbn. rewrite Z.div_1_r. lia.
  - rewrite iter_pos_nat, iter_shr_1_m by assumption.
    rewrite positive_nat_Z. rewrite Z.max_l by lia. split; reflexivity.
  - cbn. rewrite Z.div_1_r. lia.
Qed.

Lemma shr_record_of_loc_m m l : shr_m (shr_record_of_loc m l) = m.
Proof. destruct l as [|[| |]]; reflexivity. Qed.

Lemma shr_fexp_spec m e l :
  0 <= m ->
  let s := Z.max (fexp prec emax (Zdigits2 m + e) - e) 0 in
  shr_m (fst (shr_fexp prec emax m e l)) = m / 2 ^ s /\
  snd (shr_fexp prec emax m e l) = e + s.
Proof.
  intros Hm s. unfold shr_fexp.
  pose proof (shr_m_spec (shr_record_of_loc m l) e
                (fexp prec emax (Zdigits2 m + e) - e)) as H.
  rewrite shr_record_of_loc_m in H. apply H. exact Hm.
Qed.


(** *** Arithmetic of shifted mantissas *)

Lemma pow2_pos n : 0 <= n -> 0 < 2 ^ n.
Proof. intros. apply Z.pow_pos_nonneg; lia. Qed.

Lemma pow2_split a b : 0 <= a -> 0 <= b -> 2 ^ (a + b) = 2 ^ a * 2 ^ b.
Proof. intros. apply Z.pow_add_r; assumption. Qed.

(** A lower bound [2^(k-e) <= m] on the value [m * 2^e] survives a shift. *)
Lemma shift_keeps_lower_bound m e t k :
  0 <= t -> 2 ^ (k - e) <= m -> 2 ^ (k - (e + t)) <= m / 2 ^ t.
Proof.
  intros Ht Hv. pose proof (pow2_pos t Ht) as Hp.
  destruct (Z_lt_le_dec (k - (e + t)) 0) as [Hneg|Hnn].
  - rewrite (Z.pow_neg_r 2 _ Hneg).
    destruct (Z_lt_le_dec (k - e) 0) as [Hneg'|Hnn'].
    + rewrite (Z.pow_neg_r 2 _ Hneg') in Hv. apply Z.div_pos; lia.
    + pose proof (pow2_pos (k - e) Hnn'). apply Z.div_pos; lia.
  - apply Z.div_le_lower_bound; [lia|].
    rewrite <- pow2_split by lia.
    now replace (t + (k - (e + t))) with (k - e) by lia.
Qed.

Lemma shift_stays_positive m t :
  0 < m -> 0 <= t -> t <= Zdigits2 m - 1 -> 0 < m / 2 ^ t.
Proof.
  intros Hm Ht Hd. destruct (Zdigits2_bounds m Hm) as [_ [Hlo _]].
  apply Z.div_str_pos. split; [now apply pow2_pos|].
  assert (2 ^ t <= 2 ^ (Zdigits2 m - 1)) by (apply Z.pow_le_mono_r; lia). lia.
Qed.

Lemma shift_upper_bound m t d :
  0 <= m -> 0 <= t -> 0 <= d -> m < 2 ^ (t + d) -> m / 2 ^ t < 2 ^ d.
Proof.
  intros Hm Ht Hd Hlt. apply Z.div_lt_upper_bound; [now apply pow2_pos|].
  now rewrite <- pow2_split.
Qed.

(** *** [shr_fexp] at binary64 *)

Lemma fexp_64 x : fexp prec emax x = fexp64 x.
Proof. reflexivity. Qed.

Lemma shr_fexp_eq m e l :
  0 <= m ->
  let e' := Z.max e (fexp64 (Zdigits2 m + e)) in
  shr_m (fst (shr_fexp prec emax m e l)) = m / 2 ^ (e' - e) /\
  snd (shr_fexp prec emax m e l) = e'.
Proof.
  intros Hm e'. destruct (shr_fexp_spec m e l Hm) as [H1 H2].
  rewrite fexp_64 in H1, H2. rewrite H1, H2. unfold e'.
  split; [f_equal; f_equal|]; lia.
Qed.

Lemma shr_fexp_bounded m e l :
  0 <= m -> shr_m (fst (shr_fexp prec emax m e l)) < 2 ^ 53.
Proof.
  intros Hm. destruct (shr_fexp_eq m e l Hm) as [-> _].
  destruct (Z.eq_dec m 0) as [->|Hnz].
  - rewrite Z.div_0_l; [lia|]. apply Z.pow_nonzero; [lia|unfold fexp64; lia].
  - destruct (Zdigits2_bounds m ltac:(lia)) as [Hd [_ Hhi]].
    apply shift_upper_bound; try lia.
    eapply Z.lt_le_trans; [exact Hhi|].
    apply Z.pow_le_mono_r; unfold fexp64; lia.
Qed.

Lemma shr_fexp_lower m e l k :
  0 < m -> -1074 <= k -> 2 ^ (k - e) <= m ->
  0 < shr_m (fst (shr_fexp prec emax m e l)) /\
  2 ^ (k - snd (shr_fexp prec emax m e l))
    <= shr_m (fst (shr_fexp prec emax m e l)).
Proof.
  intros Hm Hk Hv. destruct (shr_fexp_eq m e l ltac:(lia)) as [-> ->].
  destruct (Zdigits2_bounds m Hm) as [Hd [Hlo Hhi]].
  assert (Hke : k - e < Zdigits2 m).
  { destruct (Z_lt_le_dec (k - e) 0); [lia|]. now apply Zdigits2_ge. }
  split.
  - apply shift_stays_positive; unfold fexp64; lia.
  - replace (Z.max e (fexp64 (Zdigits2 m + e)))
      with (e + (Z.max e (fexp64 (Zdigits2 m + e)) - e)) at 1 by lia.
    apply shift_keeps_lower_bound; [lia|assumption].
Qed.

Lemma round_nearest_even_bounds m l :
  m <= round_nearest_even m l <= m + 1.
Proof.
  unfold round_nearest_even. destruct l as [|[| |]]; try lia.
  destruct (Z.even m); lia.
Qed.


(** *** [binary_round_aux] at binary64 *)

Lemma binary_round_aux_unfold s m e l :
  binary_round_aux prec emax s m e l =
  let r1 := shr_fexp prec emax m e l in
  let m1 := round_nearest_even (shr_m (fst r1)) (loc_of_shr_record (fst r1)) in
  let r2 := shr_fexp prec emax m1 (snd r1) loc_Exact in
  match shr_m (fst r2) with
  | Z0 => S754_zero s
  | Zpos p => if snd r2 <=? 971 then S754_finite s p (snd r2)
              else S754_infinity s
  | Zneg _ => S754_nan
  end.
Proof.
  unfold binary_round_aux.
  destruct (shr_fexp prec emax m e l) as [mrs1 e1]. cbn [fst snd].
  destruct (shr_fexp prec emax _ e1 loc_Exact) as [mrs2 e2]. reflexivity.
Qed.

(** The result of rounding a non-negative mantissa is a zero, an infinity or
    a finite number with a mantissa of at most 53 bits, of the given sign. *)
Lemma binary_round_aux_shape s m e l :
  0 <= m ->
  binary_round_aux prec emax s m e l = S754_zero s \/
  binary_round_aux prec emax s m e l = S754_infinity s \/
  exists m' e',
    binary_round_aux prec emax s m e l = S754_finite s m' e' /\
    Zpos m' < 2 ^ 53.
Proof.
  intros Hm. rewrite binary_round_aux_unfold. cbn zeta.
  set (r1 := shr_fexp prec emax m e l).
  assert (H1 : 0 <= shr_m (fst r1)).
  { unfold r1. destruct (shr_fexp_eq m e l Hm) as [-> _].
    apply Z.div_pos; [lia|]. apply pow2_pos. unfold fexp64. lia. }
  set (m1 := round_nearest_even _ _).
  assert (Hm1 : 0 <= m1).
  { unfold m1. pose proof (round_nearest_even_bounds (shr_m (fst r1))
                             (loc_of_shr_record (fst r1))). lia. }
  pose proof (shr_fexp_bounded m1 (snd r1) loc_Exact Hm1) as Hb.
  destruct (shr_fexp_eq m1 (snd r1) loc_Exact Hm1) as [H2 _].
  set (r2 := shr_fexp prec emax m1 (snd r1) loc_Exact) in *.
  assert (H2' : 0 <= shr_m (fst r2)).
  { rewrite H2. apply Z.div_pos; [lia|]. apply pow2_pos. unfold fexp64. lia. }
  destruct (shr_m (fst r2)) as [|p|p]; [now left| |lia].
  destruct (snd r2 <=? 971); [|now right; left].
  right; right. exists p, (snd r2). split; [reflexivity|exact Hb].
Qed.

(** Rounding does not go below a power of two that the rounded value
    reaches, as long as that power is a binary64 number. *)
Lemma binary_round_aux_lower s m e l k :
  0 < m -> -1074 <= k -> 2 ^ (k - e) <= m ->
  binary_round_aux prec emax s m e l = S754_infinity s \/
  exists m' e',
    binary_round_aux prec emax s m e l = S754_finite s m' e' /\
    2 ^ (k - e') <= Zpos m' /\ Zpos m' < 2 ^ 53.
Proof.
  intros Hm Hk Hv. rewrite binary_round_aux_unfold. cbn zeta.
  destruct (shr_fexp_lower m e l k Hm Hk Hv) as [Hp1 Hl1].
  set (r1 := shr_fexp prec emax m e l) in *.
  pose proof (round_nearest_even_bounds (shr_m (fst r1))
                (loc_of_shr_record (fst r1))) as Hr.
  set (m1 := round_nearest_even _ _) in *.
  destruct (shr_fexp_lower m1 (snd r1) loc_Exact k ltac:(lia) Hk ltac:(lia))
    as [Hp2 Hl2].
  pose proof (shr_fexp_bounded m1 (snd r1) loc_Exact ltac:(lia)) as Hb.
  set (r2 := shr_fexp prec emax m1 (snd r1) loc_Exact) in *.
  destruct (shr_m (fst r2)) as [|p|p]; [lia| |lia].
  destruct (snd r2 <=? 971); [|now left].
  right. exists p, (snd r2). split; [reflexivity|split; [exact Hl2|exact Hb]].
Qed.

(** No overflow for a value below [2^1023]. *)
Lemma binary_round_aux_no_overflow s m e l :
  0 < m -> e <= 971 -> Zdigits2 m + e <= 1023 ->
  binary_round_aux prec emax s m e l <> S754_infinity s.
Proof.
  intros Hm He Hd. rewrite binary_round_aux_unfold. cbn zeta.
  destruct (shr_fexp_eq m e l ltac:(lia)) as [Hm1 He1].
  set (r1 := shr_fexp prec emax m e l) in *.
  pose proof (round_nearest_even_bounds (shr_m (fst r1))
                (loc_of_shr_record (fst r1))) as Hr.
  set (m1 := round_nearest_even _ _) in *.
  destruct (Zdigits2_bounds m Hm) as [Hdp [Hlo Hhi]].
  set (t := snd r1 - e) in *.
  assert (Ht : 0 <= t) by (unfold t; rewrite He1; lia).
  assert (Hq : 0 <= shr_m (fst r1)).
  { rewrite Hm1. apply Z.div_pos; [lia|]. apply pow2_pos. lia. }
  assert (Hm1lt : m1 < 2 ^ (Z.max (Zdigits2 m - t) 0 + 1)).
  { rewrite pow2_split by lia. change (2 ^ 1) with 2.
    enough (shr_m (fst r1) < 2 ^ Z.max (Zdigits2 m - t) 0) by lia.
    rewrite Hm1. fold t.
    apply shift_upper_bound; try lia.
    eapply Z.lt_le_trans; [exact Hhi|]. apply Z.pow_le_mono_r; lia. }
  destruct (shr_fexp_eq m1 (snd r1) loc_Exact ltac:(lia)) as [Hm2 He2].
  set (r2 := shr_fexp prec emax m1 (snd r1) loc_Exact) in *.
  destruct (shr_m (fst r2)) as [|p|p] eqn:Ep; try discriminate.
  assert (Hm1pos : 0 < m1).
  { destruct (Z.eq_dec m1 0) as [Hz|]; [|lia].
    rewrite Hz, Z.div_0_l in Hm2; [discriminate|].
    apply Z.pow_nonzero; [lia|]. unfold fexp64. lia. }
  pose proof (Zdigits2_le m1 (Z.max (Zdigits2 m - t) 0 + 1) Hm1pos
                ltac:(lia) Hm1lt) as Hd1.
  destruct (Z.leb_spec (snd r2) 971) as [|Hgt]; [discriminate|exfalso].
  rewrite He2 in Hgt. unfold t in *. rewrite He1 in *.
  unfold fexp64 in *. lia.
Qed.


(** *** [Number(z)] *)

Lemma shr_fexp_noshift m e l :
  fexp64 (Zdigits2 m + e) <= e ->
  shr_fexp prec emax m e l = (shr_record_of_loc m l, e).
Proof.
  intros H. unfold shr_fexp. rewrite fexp_64. unfold shr.
  destruct (fexp64 (Zdigits2 m + e) - e) as [|p|p] eqn:E; try reflexivity. lia.
Qed.

Lemma binary_round_aux_exact s p e :
  fexp64 (Zpos (digits2_pos p) + e) <= e -> e <= 971 ->
  binary_round_aux prec emax s (Zpos p) e loc_Exact = S754_finite s p e.
Proof.
  intros Hc He. rewrite binary_round_aux_unfold. cbn zeta.
  rewrite (shr_fexp_noshift (Zpos p) e loc_Exact) by exact Hc.
  cbn [fst snd shr_record_of_loc shr_m loc_of_shr_record round_nearest_even].
  rewrite (shr_fexp_noshift (Zpos p) e loc_Exact) by exact Hc.
  cbn [fst snd shr_record_of_loc shr_m].
  destruct (Z.leb_spec e 971); [reflexivity|lia].
Qed.

Lemma iter_xO_value p k : Zpos (Pos.iter xO p k) = Zpos p * 2 ^ Zpos k.
Proof.
  pose proof (shift_pos_correct k p) as H. unfold shift_pos in H.
  rewrite H. change (Z.pow_pos 2 k) with (2 ^ Zpos k). lia.
Qed.

Lemma scaled_mantissa_range z d :
  0 < d -> d <= 53 -> 2 ^ (d - 1) <= z -> z < 2 ^ d ->
  2 ^ 52 <= z * 2 ^ (53 - d) < 2 ^ 53.
Proof.
  intros Hd Hd' Hlo Hhi.
  pose proof (pow2_pos (53 - d) ltac:(lia)) as Hp.
  assert (E52 : 2 ^ 52 = 2 ^ (d - 1) * 2 ^ (53 - d))
    by (rewrite <- pow2_split by lia; f_equal; lia).
  assert (E53 : 2 ^ 53 = 2 ^ d * 2 ^ (53 - d))
    by (rewrite <- pow2_split by lia; f_equal; lia).
  rewrite E52, E53. split; nia.
Qed.

(** An integer of at most 53 bits converts exactly, to the representation
    with a 53-bit mantissa. *)
Lemma ofZ_small z :
  0 < z < 2 ^ 53 ->
  ofZ z = S754_finite false (Z.to_pos (z * 2 ^ (53 - Zdigits2 z)))
                      (Zdigits2 z - 53).
Proof.
  intros [Hpos Hlt]. destruct z as [|p|p]; try lia.
  pose proof (Zdigits2_le (Zpos p) 53 Hpos ltac:(lia) Hlt) as Hd.
  destruct (Zdigits2_bounds (Zpos p) Hpos) as [Hdp [Hlo Hhi]].
  cbn [Zdigits2] in *. set (d := Zpos (digits2_pos p)) in *.
  unfold ofZ, binary_normalize, binary_round. rewrite fexp_64.
  fold d. rewrite Z.add_0_r.
  assert (Hf : fexp64 d = d - 53) by (unfold fexp64; lia). rewrite Hf.
  assert (Hval : 2 ^ 52 <= Zpos p * 2 ^ (53 - d) < 2 ^ 53).
  { apply scaled_mantissa_range; assumption. }
  unfold shl_align. replace (d - 53 - 0) with (d - 53) by lia.
  destruct (d - 53) as [|q|q] eqn:Eq; try lia.
  - (* d = 53 *)
    replace (53 - d) with 0 by lia. rewrite Z.mul_1_r. cbn [Z.to_pos].
    apply binary_round_aux_exact; [fold d; unfold fexp64; lia|lia].
  - (* d < 53 *)
    assert (Hq : Zpos q = 53 - d) by lia.
    assert (Hm : Zpos (Pos.iter xO p q) = Zpos p * 2 ^ (53 - d)).
    { rewrite iter_xO_value. now rewrite Hq. }
    rewrite <- Hm. cbn [Z.to_pos].
    apply binary_round_aux_exact; [|lia].
    assert (Hd53 : Zdigits2 (Zpos (Pos.iter xO p q)) = 53).
    { apply Z.le_antisymm.
      - apply Zdigits2_le; lia.
      - enough (52 < Zdigits2 (Zpos (Pos.iter xO p q))) by lia.
        apply Zdigits2_ge; lia. }
    cbn [Zdigits2] in Hd53. rewrite Hd53. unfold fexp64. lia.
Qed.


Lemma ofZ_small_mantissa z :
  0 < z < 2 ^ 53 ->
  exists m,
    ofZ z = S754_finite false m (Zdigits2 z - 53) /\
    Zpos m = z * 2 ^ (53 - Zdigits2 z) /\
    2 ^ 52 <= Zpos m < 2 ^ 53 /\
    1 <= Zdigits2 z <= 53.
Proof.
  intros Hz. exists (Z.to_pos (z * 2 ^ (53 - Zdigits2 z))).
  destruct Hz as [Hpos Hlt].
  pose proof (Zdigits2_le z 53 Hpos ltac:(lia) Hlt) as Hd.
  destruct (Zdigits2_bounds z Hpos) as [Hdp [Hlo Hhi]].
  set (d := Zdigits2 z) in *.
  assert (Hval : 2 ^ 52 <= z * 2 ^ (53 - d) < 2 ^ 53).
  { apply scaled_mantissa_range; assumption. }
  split; [apply ofZ_small; lia|].
  rewrite Z2Pos.id by lia. repeat split; lia.
Qed.

Lemma Zdigits2_mono a b : 0 < b -> b <= a -> Zdigits2 b <= Zdigits2 a.
Proof.
  intros Hb Hab.
  destruct (Zdigits2_bounds b Hb) as [_ [Hlo _]].
  destruct (Zdigits2_bounds a ltac:(lia)) as [Hda [_ Hhi]].
  enough (Zdigits2 b - 1 < Zdigits2 a) by lia.
  apply Zdigits2_ge; lia.
Qed.

Lemma Zdigits2_53 m : 2 ^ 52 <= m < 2 ^ 53 -> Zdigits2 m = 53.
Proof.
  intros [Hlo Hhi]. apply Z.le_antisymm.
  - apply Zdigits2_le; lia.
  - enough (52 < Zdigits2 m) by lia. apply Zdigits2_ge; lia.
Qed.

Lemma div_eucl_div a b : Z.div_eucl a b = (a / b, a mod b).
Proof. unfold Z.div, Z.modulo. now destruct (Z.div_eucl a b). Qed.

(** *** Lower bounds by a number of the binade of one *)

Lemma ge_unit_low mv m e :
  e <= -52 -> (ge_unit mv m e <-> mv * 2 ^ (-52 - e) <= m).
Proof.
  intros He. unfold ge_unit.
  rewrite (Z.max_r 0 (-52 - e)), (Z.max_l 0 (e + 52)) by lia.
  rewrite Z.pow_0_r, Z.mul_1_r. reflexivity.
Qed.

Lemma ge_unit_high mv m e :
  -52 <= e -> (ge_unit mv m e <-> mv <= m * 2 ^ (e + 52)).
Proof.
  intros He. unfold ge_unit.
  rewrite (Z.max_l 0 (-52 - e)), (Z.max_r 0 (e + 52)) by lia.
  rewrite Z.pow_0_r, Z.mul_1_r. reflexivity.
Qed.

Lemma ge_unit_digits mv m e :
  0 < m -> 2 ^ 52 <= mv -> ge_unit mv m e -> 1 <= Zdigits2 m + e.
Proof.
  intros Hm Hmv Hge.
  destruct (Zdigits2_bounds m Hm) as [Hd _].
  destruct (Z_le_gt_dec 0 e) as [|Hneg]; [lia|].
  enough (- e < Zdigits2 m) by lia.
  apply Zdigits2_ge; [assumption|].
  destruct (Z_le_gt_dec e (-52)) as [Hlow|Hhigh].
  - apply ge_unit_low in Hge; [|assumption].
    pose proof (pow2_pos (-52 - e) ltac:(lia)).
    replace (- e) with (52 + (-52 - e)) by lia.
    rewrite pow2_split by lia. nia.
  - apply ge_unit_high in Hge; [|lia].
    pose proof (pow2_pos (e + 52) ltac:(lia)).
    pose proof (pow2_pos (- e) ltac:(lia)).
    assert (E : 2 ^ 52 = 2 ^ (- e) * 2 ^ (e + 52))
      by (rewrite <- pow2_split by lia; f_equal; lia).
    nia.
Qed.

Lemma shr_fexp_ge_unit mv m e l :
  0 < m -> 2 ^ 52 <= mv < 2 ^ 53 -> ge_unit mv m e ->
  0 < shr_m (fst (shr_fexp prec emax m e l)) /\
  -52 <= snd (shr_fexp prec emax m e l) /\
  ge_unit mv (shr_m (fst (shr_fexp prec emax m e l)))
             (snd (shr_fexp prec emax m e l)).
Proof.
  intros Hm Hmv Hge.
  pose proof (ge_unit_digits mv m e Hm ltac:(lia) Hge) as Hde.
  destruct (shr_fexp_eq m e l ltac:(lia)) as [-> ->].
  destruct (Zdigits2_bounds m Hm) as [Hd [Hlo Hhi]].
  set (d := Zdigits2 m) in *.
  destruct (Z_le_gt_dec d 53) as [Hsmall|Hbig].
  - replace (Z.max e (fexp64 (d + e))) with e by (unfold fexp64; lia).
    rewrite Z.sub_diag, Z.pow_0_r, Z.div_1_r.
    repeat split; [assumption|lia|assumption].
  - replace (Z.max e (fexp64 (d + e))) with (d + e - 53)
      by (unfold fexp64; lia).
    replace (d + e - 53 - e) with (d - 53) by lia.
    assert (Hm1 : 2 ^ 52 <= m / 2 ^ (d - 53)).
    { apply Z.div_le_lower_bound; [apply pow2_pos; lia|].
      rewrite <- pow2_split by lia.
      now replace (d - 53 + 52) with (d - 1) by lia. }
    repeat split; [lia|lia|].
    apply ge_unit_high; [lia|].
    destruct (Z.eq_dec (d + e - 53) (-52)) as [E|NE].
    + rewrite E. change (2 ^ (-52 + 52)) with 1. rewrite Z.mul_1_r.
      apply ge_unit_low in Hge; [|lia].
      apply Z.div_le_lower_bound; [apply pow2_pos; lia|].
      replace (d - 53) with (-52 - e) by lia. lia.
    + pose proof (Z.pow_le_mono_r 2 1 (d + e - 53 + 52) ltac:(lia) ltac:(lia)).
      change (2 ^ 1) with 2 in *. nia.
Qed.

Lemma ge_unit_mono mv m m' e : m <= m' -> ge_unit mv m e -> ge_unit mv m' e.
Proof.
  unfold ge_unit. intros Hle Hge.
  pose proof (pow2_pos (Z.max 0 (e + 52)) ltac:(lia)). nia.
Qed.

(** Rounding does not go below a number of the binade of one that the
    rounded value reaches. *)
Lemma binary_round_aux_ge_unit s mv m e l :
  0 < m -> 2 ^ 52 <= mv < 2 ^ 53 -> ge_unit mv m e ->
  binary_round_aux prec emax s m e l = S754_infinity s \/
  exists m' e',
    binary_round_aux prec emax s m e l = S754_finite s m' e' /\
    -52 <= e' /\ mv <= Zpos m' * 2 ^ (e' + 52) /\ Zpos m' < 2 ^ 53.
Proof.
  intros Hm Hmv Hge. rewrite binary_round_aux_unfold. cbn zeta.
  destruct (shr_fexp_ge_unit mv m e l Hm Hmv Hge) as (Hp1 & _ & Hg1).
  set (r1 := shr_fexp prec emax m e l) in *.
  pose proof (round_nearest_even_bounds (shr_m (fst r1))
                (loc_of_shr_record (fst r1))) as Hr.
  set (m1 := round_nearest_even _ _) in *.
  assert (Hg1' : ge_unit mv m1 (snd r1))
    by (apply (ge_unit_mono mv (shr_m (fst r1))); [lia|assumption]).
  destruct (shr_fexp_ge_unit mv m1 (snd r1) loc_Exact ltac:(lia) Hmv Hg1')
    as (Hp2 & He2 & Hg2).
  pose proof (shr_fexp_bounded m1 (snd r1) loc_Exact ltac:(lia)) as Hb.
  set (r2 := shr_fexp prec emax m1 (snd r1) loc_Exact) in *.
  apply ge_unit_high in Hg2; [|assumption].
  destruct (shr_m (fst r2)) as [|p|p]; [lia| |lia].
  destruct (snd r2 <=? 971); [|left; reflexivity].
  right. exists p, (snd r2). repeat split; assumption.
Qed.

(** The quotient of two integers of at most 53 bits is a finite number, and
    it is not below a number [mv * 2^(-52)] of the binade of one that the
    exact quotient reaches. *)
Lemma div_ofZ_ge_unit mv a b :
  0 < b -> b <= a -> a <= 2 * b -> a < 2 ^ 53 ->
  2 ^ 52 <= mv < 2 ^ 53 -> mv * b <= a * 2 ^ 52 ->
  exists m e,
    div (ofZ a) (ofZ b) = S754_finite false m e /\
    -52 <= e /\ mv <= Zpos m * 2 ^ (e + 52).
Proof.
  intros Hb Hab Hab2 Ha Hmv Hq.
  destruct (ofZ_small_mantissa a ltac:(lia)) as (ma & -> & Hma & Hra & Hda).
  destruct (ofZ_small_mantissa b ltac:(lia)) as (mb & -> & Hmb & Hrb & Hdb).
  pose proof (Zdigits2_mono a b Hb Hab) as Hmono.
  assert (Hmono2 : Zdigits2 a <= Zdigits2 b + 1).
  { destruct (Zdigits2_bounds b Hb) as [_ [_ Hbhi]].
    apply Zdigits2_le; [lia|lia|].
    rewrite pow2_split by lia. change (2 ^ 1) with 2. lia. }
  set (da := Zdigits2 a) in *. set (db := Zdigits2 b) in *.
  unfold div, SFdiv, SFdiv_core_binary. cbn [xorb].
  rewrite (Zdigits2_53 (Zpos ma) Hra), (Zdigits2_53 (Zpos mb) Hrb).
  rewrite fexp_64.
  assert (He : Z.min (fexp64 (53 + (da - 53) - (53 + (db - 53))))
                 (da - 53 - (db - 53)) = da - db - 53)
    by (unfold fexp64; lia).
  rewrite He.
  replace (da - 53 - (db - 53) - (da - db - 53)) with 53 by lia.
  rewrite Z.shiftl_mul_pow2 by lia.
  rewrite div_eucl_div.
  set (q := Zpos ma * 2 ^ 53 / Zpos mb).
  assert (Hqlo : mv * 2 ^ (-52 - (da - db - 53)) <= q).
  { unfold q. apply Z.div_le_lower_bound; [lia|].
    rewrite Hma, Hmb.
    replace (-52 - (da - db - 53)) with (1 - da + db) by lia.
    pose proof (pow2_pos (53 - da) ltac:(lia)) as P1.
    pose proof (pow2_pos (1 - da + db) ltac:(lia)) as P2.
    pose proof (pow2_pos (53 - db) ltac:(lia)) as P3.
    assert (E : 2 ^ (53 - db) * 2 ^ (1 - da + db) = 2 * 2 ^ (53 - da)).
    { rewrite <- pow2_split by lia. change 2 with (2 ^ 1) at 2.
      rewrite <- pow2_split by lia. f_equal. lia. }
    change (2 ^ 53) with (2 * 2 ^ 52).
    transitivity (mv * b * (2 ^ (53 - db) * 2 ^ (1 - da + db))); [lia|].
    rewrite E. nia. }
  assert (Hqpos : 0 < q).
  { pose proof (pow2_pos (-52 - (da - db - 53)) ltac:(lia)). nia. }
  assert (Hqhi : q < 2 ^ 54).
  { unfold q. apply Z.div_lt_upper_bound; [lia|].
    change (2 ^ 54) with (2 * 2 ^ 53). nia. }
  pose proof (Zdigits2_le q 54 Hqpos ltac:(lia) Hqhi) as Hdq.
  pose proof (binary_round_aux_no_overflow false q (da - db - 53)
                (new_location (Zpos mb) (Zpos ma * 2 ^ 53 mod Zpos mb))
                Hqpos ltac:(lia) ltac:(lia)) as Hno.
  assert (Hge : ge_unit mv q (da - db - 53))
    by (apply ge_unit_low; [lia|assumption]).
  destruct (binary_round_aux_ge_unit false mv q (da - db - 53)
              (new_location (Zpos mb) (Zpos ma * 2 ^ 53 mod Zpos mb))
              Hqpos Hmv Hge) as [Hinf|(m & e & Hr & Hlo & Hhi & _)].
  - contradiction.
  - exists m, e. rewrite Hr. repeat split; assumption.
Qed.

(** *** Comparison and clamping *)

Lemma SFcompare_antisym x y c :
  SFcompare x y = Some c -> SFcompare y x = Some (CompOpp c).
Proof.
  destruct x as [sx|sx| |sx mx ex], y as [sy|sy| |sy my ey];
    cbn [SFcompare]; try discriminate;
    try (destruct sx; intros [= <-]; reflexivity);
    try (destruct sy; intros [= <-]; reflexivity);
    try (destruct sx, sy; intros [= <-]; reflexivity).
  destruct sx, sy; intros [= <-]; try reflexivity.
  - rewrite (Z.compare_antisym ex ey).
    destruct (ex ?= ey); cbn [CompOpp]; try reflexivity.
    now rewrite (Pos.compare_cont_antisym mx my Eq).
  - rewrite (Z.compare_antisym ex ey).
    destruct (ex ?= ey); cbn [CompOpp]; try reflexivity.
    now rewrite (Pos.compare_cont_antisym mx my Eq).
Qed.

(** [Math.max(0, Math.min(1, g))] lies between 0 and 1 unless [g] is NaN. *)
Lemma clamp_in_unit_interval g :
  is_nan g = false ->
  leb zero (max zero (min one g)) = true /\
  leb (max zero (min one g)) one = true.
Proof.
  intros Hg. destruct g as [s|s| |s m e]; try discriminate.
  - destruct s; vm_compute; auto.
  - destruct s; vm_compute; auto.
  - destruct s.
    + split; reflexivity.
    + unfold min. destruct (SFcompare one (S754_finite false m e)) as [c|] eqn:E.
      * destruct c.
        -- split; reflexivity.
        -- split; reflexivity.
        -- apply SFcompare_antisym in E. cbn [CompOpp] in E.
           unfold max. cbn [SFcompare zero]. unfold leb, SFleb.
           rewrite E. split; reflexivity.
      * discriminate.
Qed.

(** A non-positive number is clamped to [+0]. *)
Lemma clamp_nonpositive g :
  match g with
  | S754_zero _ | S754_finite true _ _ | S754_infinity true => True
  | _ => False
  end ->
  max zero (min one g) = zero.
Proof. destruct g as [[|]|[|]| |[|] m e]; intros H; try contradiction; reflexivity. Qed.

(** *** Results that are not NaN *)

Lemma binary_round_aux_not_nan s m e l :
  0 <= m -> is_nan (binary_round_aux prec emax s m e l) = false.
Proof.
  intros Hm.
  destruct (binary_round_aux_shape s m e l Hm) as [->|[->|(m' & e' & -> & _)]];
    reflexivity.
Qed.

Lemma binary_normalize_not_nan z e b :
  is_nan (binary_normalize prec emax z e b) = false.
Proof.
  unfold binary_normalize, binary_round.
  destruct z as [|p|p]; [reflexivity| |];
    destruct (shl_align _ _ _) as [mz ez];
    apply binary_round_aux_not_nan; lia.
Qed.

Lemma ofZ_not_nan z : is_nan (ofZ z) = false.
Proof. apply binary_normalize_not_nan. Qed.

Lemma div_by_finite_not_nan x s m e :
  is_nan x = false -> is_nan (div x (S754_finite s m e)) = false.
Proof.
  intros Hx. destruct x as [sx|sx| |sx mx ex]; try discriminate; try reflexivity.
  unfold div, SFdiv, SFdiv_core_binary. rewrite div_eucl_div.
  apply binary_round_aux_not_nan. apply Z.div_pos; [|lia].
  destruct (_ - _ - _) as [|p|p]; try lia.
  rewrite Z.shiftl_mul_pow2 by lia. apply Z.mul_nonneg_nonneg; [lia|].
  apply Z.pow_nonneg. lia.
Qed.

Lemma sub_finite_not_nan x y :
  is_nan x = false -> is_finite_or_zero y = true -> is_nan (sub x y) = false.
Proof.
  intros Hx Hy.
  destruct x as [sx|sx| |sx mx ex], y as [sy|sy| |sy my ey];
    try discriminate; try reflexivity.
  - destruct sx, sy; reflexivity.
  - unfold sub, SFsub. apply binary_normalize_not_nan.
Qed.


(** *** Subtraction below zero *)

Lemma shl_align_value p ex ez :
  ez <= ex -> Zpos (fst (shl_align p ex ez)) = Zpos p * 2 ^ (ex - ez).
Proof.
  intros H. unfold shl_align.
  destruct (ez - ex) as [|d|d] eqn:E; cbn [fst]; try lia.
  - replace (ex - ez) with 0 by lia. lia.
  - rewrite iter_xO_value. f_equal. f_equal. lia.
Qed.

Lemma binary_normalize_nonpositive z e :
  z <= 0 ->
  match binary_normalize prec emax z e false with
  | S754_zero _ | S754_finite true _ _ | S754_infinity true => True
  | _ => False
  end.
Proof.
  intros Hz. destruct z as [|p|p]; [exact I|lia|].
  unfold binary_normalize, binary_round.
  destruct (shl_align _ _ _) as [mz ez].
  destruct (binary_round_aux_shape true (Zpos mz) ez loc_Exact ltac:(lia))
    as [->|[->|(m' & e' & -> & _)]]; exact I.
Qed.

(** Subtracting from a number of the binade of one a number that is not
    smaller, and clamping, gives [+0]. *)
Lemma clamp_sub_ge_unit mv m e :
  -52 <= e -> Zpos mv <= Zpos m * 2 ^ (e + 52) ->
  max zero (min one (sub (S754_finite false mv (-52)) (S754_finite false m e)))
  = zero.
Proof.
  intros He Hle. apply clamp_nonpositive.
  unfold sub, SFsub. cbn [cond_Zopp].
  rewrite (Z.min_l (-52) e) by lia.
  rewrite !shl_align_value by lia.
  apply binary_normalize_nonpositive.
  replace (-52 - -52) with 0 by lia. replace (e - -52) with (e + 52) by lia.
  lia.
Qed.

End NumberFacts.

(** ** The Gini coefficient of equal balances *)

Module GiniFacts.
Import JSNumber JSArray DistributionMetrics NumberSpec GiniSpec NumberFacts.

Lemma insertBy_length {A} (cmp : A -> A -> Z) x : forall l,
  List.length (insertBy cmp x l) = S (List.length l).
Proof.
  induction l as [|y l IH]; cbn [insertBy]; [reflexivity|].
  destruct (cmp x y <=? 0); cbn [List.length]; [reflexivity|now rewrite IH].
Qed.

Lemma sort_length {A} (cmp : A -> A -> Z) : forall l,
  List.length (sort cmp l) = List.length l.
Proof.
  induction l as [|x l IH]; cbn [sort]; [reflexivity|].
  rewrite insertBy_length. cbn [List.length]. now rewrite IH.
Qed.

Lemma sort_repeat x n : sort compareAscending (repeat x n) = repeat x n.
Proof.
  induction n as [|n IH]; cbn [repeat sort]; [reflexivity|].
  rewrite IH. destruct n as [|n]; cbn [repeat insertBy]; [reflexivity|].
  unfold compareAscending. rewrite Z.ltb_irrefl. reflexivity.
Qed.

Lemma fold_add_shift l : forall a, fold_left Z.add l a = a + fold_left Z.add l 0.
Proof.
  induction l as [|x l IH]; intros a; cbn [fold_left]; [lia|].
  rewrite (IH (a + x)), (IH (0 + x)). lia.
Qed.

Lemma sumBalances_repeat x n : sumBalances (repeat x n) = Z.of_nat n * x.
Proof.
  unfold sumBalances. induction n as [|n IH]; cbn [repeat fold_left]; [lia|].
  rewrite fold_add_shift, IH. lia.
Qed.

Lemma weightedSumLoop_repeat x n : forall i acc,
  2 * weightedSumLoop i (repeat x n) acc =
  2 * acc + x * (2 * Z.of_nat n * i + Z.of_nat n * (Z.of_nat n + 1)).
Proof.
  induction n as [|n IH]; intros i acc; cbn [repeat weightedSumLoop]; [lia|].
  rewrite IH. lia.
Qed.

Lemma gini_repeat x n :
  (2 <= n)%nat -> 0 < x ->
  calculateGiniCoefficient (repeat x n) = giniOfEqualBalances (Z.of_nat n).
Proof.
  intros Hn Hx.
  destruct n as [|[|n]]; try lia.
  set (k := S (S n)) in *.
  change (repeat x k) with (x :: x :: repeat x n) at 1.
  unfold calculateGiniCoefficient.
  change (x :: x :: repeat x n) with (repeat x k).
  rewrite sort_repeat, sumBalances_repeat, repeat_length.
  assert (Hk : 2 <= Z.of_nat k) by lia.
  destruct (Z.eqb_spec (Z.of_nat k * x) 0) as [E|_]; [nia|].
  pose proof (weightedSumLoop_repeat x k 0 0) as Hw.
  rewrite Hw. unfold giniOfEqualBalances. do 4 f_equal.
  unfold BigInt.div. rewrite Z.quot_div_nonneg by nia.
  replace ((2 * 0 + x * (2 * Z.of_nat k * 0 + Z.of_nat k * (Z.of_nat k + 1))) * 10000)
    with (((Z.of_nat k + 1) * 10000) * (Z.of_nat k * x)) by lia.
  f_equal. apply Z.div_mul_cancel_r; nia.
Qed.


Lemma equalBalancesCheck_mono n n' j :
  0 <= n <= n' -> equalBalancesCheck n' j = true ->
  equalBalancesCheck n j = true.
Proof.
  unfold equalBalancesCheck. intros Hn.
  destruct (div _ _) as [| | |[|] mv e]; try discriminate.
  rewrite !andb_true_iff. intros [[[He Hlo] Hhi] Hc].
  repeat split; try assumption.
  apply Z.leb_le in Hlo, Hc. apply Z.leb_le. nia.
Qed.

Lemma equalBalancesCheck_sound n j :
  2 <= n < 2 ^ 53 - 1 -> (n + 1) * 10000 / n = 10000 + j ->
  equalBalancesCheck n j = true ->
  giniOfEqualBalances n = zero.
Proof.
  intros Hn Hj. unfold equalBalancesCheck, giniOfEqualBalances. rewrite Hj.
  destruct (div (ofZ (10000 + j)) (ofZ 10000)) as [| | |[|] mv e];
    try discriminate.
  rewrite !andb_true_iff. intros [[[He Hlo] Hhi] Hc].
  apply Z.eqb_eq in He. apply Z.leb_le in Hlo, Hc. apply Z.ltb_lt in Hhi.
  subst e.
  destruct (div_ofZ_ge_unit (Zpos mv) (n + 1) n) as (m & e & -> & He & Hm);
    try lia.
  now apply clamp_sub_ge_unit.
Qed.

Lemma ratio_of_length n : 0 < n -> (n + 1) * 10000 / n = 10000 + 10000 / n.
Proof.
  intros Hn. replace ((n + 1) * 10000) with (10000 * n + 10000) by lia.
  rewrite Z.add_comm, Z.div_add by lia. lia.
Qed.

Lemma is_positive_zero_eq x : is_positive_zero x = true -> x = zero.
Proof. destruct x as [[|]| | |]; try discriminate. reflexivity. Qed.

(** Lengths up to 100, one by one: by the check, or by evaluation where the
    length divides 10000 and the two quotients are the same number. *)
Lemma checks_short :
  forallb
    (fun n =>
       equalBalancesCheck (Z.of_nat n) (10000 / Z.of_nat n)
       || is_positive_zero (giniOfEqualBalances (Z.of_nat n)))
    (seq 2 99) = true.
Proof. vm_compute. reflexivity. Qed.

(** Lengths from 101 to 10000, by the value [j] of [10000 / n]: the check
    at the largest length with that value settles the smaller ones. *)
Lemma checks_long :
  forallb
    (fun j =>
       let n := 10000 / Z.of_nat j in
       equalBalancesCheck n (Z.of_nat j)
       || (equalBalancesCheck (n - 1) (Z.of_nat j)
           && is_positive_zero (giniOfEqualBalances n)))
    (seq 1 100) = true.
Proof. vm_compute. reflexivity. Qed.

Lemma check_beyond n : 0 <= n -> equalBalancesCheck n 0 = true.
Proof.
  intros Hn. unfold equalBalancesCheck.
  change (div (ofZ (10000 + 0)) (ofZ 10000)) with one. unfold one.
  rewrite !andb_true_iff. repeat split; reflexivity.
Qed.

Lemma giniOfEqualBalances_zero n :
  2 <= n < 2 ^ 53 - 1 -> giniOfEqualBalances n = zero.
Proof.
  intros Hn.
  assert (Hr : (n + 1) * 10000 / n = 10000 + 10000 / n)
    by (apply ratio_of_length; lia).
  destruct (Z_le_gt_dec n 100) as [Hs|Hl].
  - pose proof checks_short as H. rewrite forallb_forall in H.
    specialize (H (Z.to_nat n)). rewrite Z2Nat.id in H by lia.
    destruct (orb_prop _ _ (H ltac:(apply in_seq; lia))) as [Hc|Hz].
    + now apply (equalBalancesCheck_sound n (10000 / n)).
    + now apply is_positive_zero_eq.
  - destruct (Z_le_gt_dec n 10000) as [Hm|Hb].
    + pose proof checks_long as H. rewrite forallb_forall in H.
      assert (Hj : 1 <= 10000 / n <= 100).
      { split.
        - apply Z.div_le_lower_bound; lia.
        - apply Z.lt_succ_r. apply Z.div_lt_upper_bound; lia. }
      specialize (H (Z.to_nat (10000 / n))). rewrite Z2Nat.id in H by lia.
      cbn zeta in H.
      assert (Hle : n <= 10000 / (10000 / n)).
      { apply Z.div_le_lower_bound; [lia|].
        rewrite Z.mul_comm. apply Z.mul_div_le. lia. }
      destruct (orb_prop _ _ (H ltac:(apply in_seq; lia))) as [Hc|Hc].
      * apply (equalBalancesCheck_sound n (10000 / n)); try assumption.
        apply (equalBalancesCheck_mono n (10000 / (10000 / n)));
          [lia|assumption].
      * apply andb_prop in Hc. destruct Hc as [Hc Hz].
        destruct (Z.eq_dec n (10000 / (10000 / n))) as [E|NE].
        -- rewrite E. now apply is_positive_zero_eq.
        -- apply (equalBalancesCheck_sound n (10000 / n)); try assumption.
           apply (equalBalancesCheck_mono n (10000 / (10000 / n) - 1));
             [lia|assumption].
    + apply (equalBalancesCheck_sound n (10000 / n)); try assumption.
      rewrite Z.div_small by lia. apply check_beyond. lia.
Qed.

End GiniFacts.

(** ** Percentile brackets *)

Module BracketFacts.
Import JSNumber JSArray DistributionMetrics NumberSpec NumberFacts.

Lemma ofZ_at_least_one z : 0 < z -> at_least_one (ofZ z).
Proof.
  intros Hz. destruct z as [|p|p]; try lia.
  unfold ofZ, binary_normalize, binary_round.
  destruct (shl_align p 0 _) as [mz ez] eqn:E.
  assert (Hv : 2 ^ (0 - ez) <= Zpos mz).
  { unfold shl_align in E. destruct (_ - 0) as [|d|d] eqn:Ed.
    - injection E as <- <-. change (2 ^ (0 - 0)) with 1. lia.
    - injection E as <- <-. change (2 ^ (0 - 0)) with 1. lia.
    - injection E as <- <-. rewrite iter_xO_value.
      rewrite ?Z.add_0_r in Ed.
      replace (0 - _) with (Zpos d) by lia.
      pose proof (pow2_pos (Zpos d) ltac:(lia)). nia. }
  destruct (binary_round_aux_lower false (Zpos mz) ez loc_Exact 0
              ltac:(lia) ltac:(lia) Hv) as [->|(m & e & -> & Hlo & Hhi)].
  - exact I.
  - split; assumption.
Qed.

(** The product of a number that is at least one and a positive literal
    with a full mantissa is a positive number. *)
Lemma mul_literal_positive x c ec :
  at_least_one x -> 2 ^ 52 <= Zpos c -> -1074 <= ec + 52 ->
  match mul x (S754_finite false c ec) with
  | S754_infinity false | S754_finite false _ _ => True
  | _ => False
  end.
Proof.
  intros Hx Hc Hec. destruct x as [|[|]| |[|] m e]; try contradiction.
  - exact I.
  - destruct Hx as [Hlo Hhi]. unfold mul, SFmul. cbn [xorb].
    assert (Hv : 2 ^ (ec + 52 - (e + ec)) <= Zpos (m * c)).
    { rewrite Pos2Z.inj_mul. replace (ec + 52 - (e + ec)) with (52 - e) by lia.
      destruct (Z_lt_le_dec (52 - e) 0) as [Hn|Hp].
      - rewrite Z.pow_neg_r by assumption. lia.
      - destruct (Z_lt_le_dec 0 e) as [He|He].
        + assert (2 ^ (52 - e) <= 2 ^ 52) by (apply Z.pow_le_mono_r; lia). nia.
        + replace (52 - e) with (52 + (0 - e)) by lia.
          rewrite pow2_split by lia.
          pose proof (pow2_pos (0 - e) ltac:(lia)). nia. }
    destruct (binary_round_aux_lower false (Zpos (m * c)) (e + ec) loc_Exact
                (ec + 52) ltac:(lia) Hec Hv) as [->|(m' & e' & -> & _)];
      exact I.
Qed.

Lemma ceil_at_least_one x :
  match x with
  | S754_infinity false | S754_finite false _ _ => True
  | _ => False
  end ->
  (forall m e, x = S754_finite false m e -> Zpos m < 2 ^ 53) ->
  at_least_one (ceil x).
Proof.
  intros Hx Hb. destruct x as [|[|]| |[|] m e]; try contradiction.
  - exact I.
  - specialize (Hb m e eq_refl). unfold ceil.
    destruct (Z.leb_spec 0 e) as [He|He].
    + split; [|assumption].
      destruct (Z.eq_dec e 0) as [->|]; [cbn; lia|].
      rewrite Z.pow_neg_r by lia. lia.
    + cbn [negb cond_Zopp].
      pose proof (pow2_pos (- e) ltac:(lia)) as Hp.
      assert (Hq : - Zpos m / 2 ^ (- e) <= -1).
      { apply Z.lt_succ_r. apply Z.div_lt_upper_bound; lia. }
      set (z := - (- Zpos m / 2 ^ (- e))) in *.
      destruct (Z.eqb_spec z 0) as [|_]; [lia|].
      apply ofZ_at_least_one. lia.
Qed.

Lemma max_one_at_least_one x : at_least_one x -> max one x = x.
Proof.
  intros Hx. destruct x as [|[|]| |[|] m e]; try contradiction.
  - reflexivity.
  - destruct Hx as [Hlo Hhi]. unfold max, one. cbn [SFcompare].
    destruct (Z.compare_spec (-52) e) as [<-|Hlt|Hgt].
    + change (2 ^ (0 - -52)) with (Zpos 4503599627370496) in Hlo.
      change (Pos.compare_cont Eq 4503599627370496 m)
        with (Pos.compare 4503599627370496 m).
      destruct (Pos.compare 4503599627370496 m) eqn:E.
      * apply Pos.compare_eq in E. now rewrite <- E.
      * reflexivity.
      * apply Pos.compare_gt_iff in E. exfalso. clear - E Hlo.
        apply Pos2Z.pos_lt_pos in E. apply (Z.lt_irrefl (Zpos m)).
        eapply Z.lt_le_trans; [exact E|exact Hlo].
    + reflexivity.
    + exfalso.
      assert (2 ^ 53 <= 2 ^ (0 - e)) by (apply Z.pow_le_mono_r; lia). lia.
Qed.

Lemma toInteger_at_least_one x :
  at_least_one x ->
  match toIntegerOrInfinity x with
  | PosInfinity => True
  | Integer z => 1 <= z
  | NegInfinity => False
  end.
Proof.
  intros Hx. destruct x as [|[|]| |[|] m e]; try contradiction.
  - exact I.
  - destruct Hx as [Hlo _]. cbn [toIntegerOrInfinity cond_Zopp].
    destruct (Z.leb_spec 0 e) as [He|He].
    + pose proof (pow2_pos e He). nia.
    + apply Z.div_le_lower_bound; [apply pow2_pos; lia|].
      replace (0 - e) with (- e) in Hlo by lia. lia.
Qed.

Lemma slice_head_nonempty {A} (l : list A) i :
  l <> [] ->
  match i with
  | PosInfinity => True
  | Integer z => 1 <= z
  | NegInfinity => False
  end ->
  (1 <= List.length (slice l (Integer 0) i))%nat.
Proof.
  intros Hl Hi. unfold slice.
  assert (Hlen : 1 <= Z.of_nat (List.length l)).
  { destruct l; [contradiction|cbn [List.length]; lia]. }
  set (len := Z.of_nat (List.length l)) in *.
  assert (Hk : relativeIndex len (Integer 0) = 0).
  { unfold relativeIndex. cbn. lia. }
  rewrite Hk. cbn [Z.to_nat skipn].
  rewrite length_firstn.
  assert (Hf : 1 <= relativeIndex len i).
  { destruct i as [|z|]; cbn [relativeIndex]; try contradiction; [|lia].
    destruct (Z.ltb_spec z 0); lia. }
  unfold len in *. lia.
Qed.

(** The two bracket sizes are the same number for a non-empty list. *)
Lemma top1PercentCount_eq_index len :
  (1 <= len)%nat ->
  top1PercentCount len = top1PercentIndex len /\
  at_least_one (top1PercentIndex len).
Proof.
  intros Hlen. unfold top1PercentCount, top1PercentIndex.
  pose proof (ofZ_at_least_one (Z.of_nat len) ltac:(lia)) as H1.
  pose proof (mul_literal_positive (ofZ (Z.of_nat len))
                5764607523034235 (-59) H1 ltac:(lia) ltac:(lia)) as H2.
  change (S754_finite false 5764607523034235 (-59)) with lit_0_01 in H2.
  assert (H3 : at_least_one (ceil (mul (ofZ (Z.of_nat len)) lit_0_01))).
  { apply ceil_at_least_one; [exact H2|].
    intros m e E. unfold mul, lit_0_01 in E.
    destruct (ofZ (Z.of_nat len)) as [|[|]| |[|] mx ex]; try contradiction;
      try discriminate.
    unfold SFmul in E. cbn [xorb] in E.
    destruct (binary_round_aux_shape false (Zpos (mx * 5764607523034235))
                (ex + -59) loc_Exact ltac:(lia))
      as [H|[H|(m' & e' & H & Hb)]]; rewrite H in E; try discriminate.
    injection E as <- <-. exact Hb. }
  split; [now apply max_one_at_least_one|exact H3].
Qed.

End BracketFacts.

(** ** Sorting and the store of holders *)

Module StoreFacts.
Import JSNumber JSArray DistributionMetrics.

Lemma insertBy_In {A} (cmp : A -> A -> Z) x y : forall l,
  In y (insertBy cmp x l) <-> y = x \/ In y l.
Proof.
  induction l as [|z l IH]; cbn [insertBy].
  - cbn. intuition.
  - destruct (cmp x z <=? 0); cbn [In]; [intuition|].
    rewrite IH. cbn [In]. intuition.
Qed.

Lemma sort_In {A} (cmp : A -> A -> Z) y : forall l,
  In y (sort cmp l) <-> In y l.
Proof.
  induction l as [|x l IH]; cbn [sort]; [reflexivity|].
  rewrite insertBy_In, IH. cbn [In]. intuition.
Qed.

Lemma fold_balance_shift sigma l : forall a,
  fold_left (fun sum holder => sum + balance (sigma holder)) l a =
  a + sumHolderBalances sigma l.
Proof.
  unfold sumHolderBalances.
  induction l as [|x l IH]; intros a; cbn [fold_left]; [lia|].
  rewrite (IH (a + _)), (IH (0 + _)). lia.
Qed.

Lemma sumHolderBalances_cons sigma x l :
  sumHolderBalances sigma (x :: l) = balance (sigma x) + sumHolderBalances sigma l.
Proof.
  unfold sumHolderBalances at 1. cbn [fold_left].
  rewrite fold_balance_shift. lia.
Qed.

Lemma sumHolderBalances_insertBy sigma cmp x : forall l,
  sumHolderBalances sigma (insertBy cmp x l) =
  balance (sigma x) + sumHolderBalances sigma l.
Proof.
  induction l as [|y l IH]; cbn [insertBy].
  - apply sumHolderBalances_cons.
  - destruct (cmp x y <=? 0).
    + apply sumHolderBalances_cons.
    + rewrite !sumHolderBalances_cons, IH. lia.
Qed.

(** The total supply does not depend on the order of the holders. *)
Lemma sumHolderBalances_sort sigma cmp : forall l,
  sumHolderBalances sigma (sort cmp l) = sumHolderBalances sigma l.
Proof.
  induction l as [|x l IH]; cbn [sort]; [reflexivity|].
  now rewrite sumHolderBalances_insertBy, sumHolderBalances_cons, IH.
Qed.

Lemma writePercentage_frame total sigma holder r :
  address (writePercentage total sigma holder r) = address (sigma r) /\
  balance (writePercentage total sigma holder r) = balance (sigma r) /\
  (r <> holder -> writePercentage total sigma holder r = sigma r).
Proof.
  unfold writePercentage, setPercentage.
  destruct (Nat.eqb_spec r holder) as [->|Hne]; cbn; intuition.
Qed.

Lemma writePercentage_written total sigma holder :
  percentage (writePercentage total sigma holder holder) =
  percentageOf total (balance (sigma holder)).
Proof.
  unfold writePercentage, setPercentage. now rewrite Nat.eqb_refl.
Qed.

Lemma fold_writePercentage_frame total l : forall sigma r,
  address (fold_left (writePercentage total) l sigma r) = address (sigma r) /\
  balance (fold_left (writePercentage total) l sigma r) = balance (sigma r) /\
  (~ In r l -> fold_left (writePercentage total) l sigma r = sigma r).
Proof.
  induction l as [|h l IH]; intros sigma r; cbn [fold_left].
  - intuition.
  - destruct (IH (writePercentage total sigma h) r) as (Ha & Hb & Hf).
    destruct (writePercentage_frame total sigma h r) as (Ha' & Hb' & Hf').
    rewrite Ha, Hb. repeat split; try assumption.
    intros Hnot. cbn [In] in Hnot.
    rewrite Hf by intuition. apply Hf'. intuition.
Qed.

Lemma fold_writePercentage_written total l : forall sigma r,
  In r l ->
  percentage (fold_left (writePercentage total) l sigma r) =
  percentageOf total (balance (sigma r)).
Proof.
  induction l as [|h l IH]; intros sigma r Hin; [contradiction|].
  cbn [fold_left].
  destruct (in_dec Nat.eq_dec r l) as [Hl|Hl].
  - rewrite (IH _ _ Hl).
    destruct (writePercentage_frame total sigma h r) as (_ & -> & _).
    reflexivity.
  - destruct Hin as [->|Hin]; [|contradiction].
    destruct (fold_writePercentage_frame total l
                (writePercentage total sigma r) r) as (_ & _ & Hf).
    rewrite (Hf Hl). apply writePercentage_written.
Qed.

End StoreFacts.

(** ** Scenarios of the specification, evaluated *)

Module Scenarios.
Import JSNumber JSArray MintTracker DistributionMetrics StoreSpec.

Example reward_at_genesis :
  dieselEmissionCalculator.calculateBlockReward 800000 = 5000000000.
Proof. reflexivity. Qed.

Example reward_in_first_epoch :
  dieselEmissionCalculator.calculateBlockReward 850000 = 5000000000.
Proof. reflexivity. Qed.

Example reward_at_first_halving :
  dieselEmissionCalculator.calculateBlockReward 1010000 = 2500000000.
Proof. reflexivity. Qed.

Example reward_before_genesis :
  dieselEmissionCalculator.calculateBlockReward 799999 = 0.
Proof. reflexivity. Qed.

Example reward_after_all_halvings :
  dieselEmissionCalculator.calculateBlockReward (800000 + 33 * 210000) = 0.
Proof. reflexivity. Qed.

Example premine_value :
  dieselEmissionCalculator.calculatePremine = 400000000000000.
Proof. reflexivity. Qed.

Example cumulative_emission_far_future :
  dieselEmissionCalculator.calculateCumulativeEmission (800000 + 210000 * 100)
  = Some 156250000000000.
Proof. reflexivity. Qed.

Example ten_claimants :
  calculateRewardPerClaimant 5000000000 10 = 500000000.
Proof. reflexivity. Qed.

Example three_claimants_and_dust :
  calculateRewardPerClaimant 10 3 = 3 /\ 10 - 3 * 3 = 1.
Proof. split; reflexivity. Qed.

Example gini_of_equal_holders :
  calculateGiniCoefficient [100; 100; 100; 100] = zero.
Proof. reflexivity. Qed.

(** [0.72], above [0.6]. *)
Example gini_of_one_large_holder :
  calculateGiniCoefficient [1; 1; 1; 97]
  = S754_finite false 6485183463413514 (-53) /\
  ltb (div (ofZ 6) (ofZ 10)) (calculateGiniCoefficient [1; 1; 1; 97]) = true.
Proof. split; reflexivity. Qed.

(** Bracket sizes [Math.ceil(n * 0.01)] for a few lengths. *)
Example top1PercentIndex_values :
  map (fun n => toIntegerOrInfinity (top1PercentIndex n))
      [0; 1; 99; 100; 101; 250; 1000]%nat
  = [Integer 0; Integer 1; Integer 1; Integer 1; Integer 2; Integer 3;
     Integer 10].
Proof. reflexivity. Qed.

(** Three holders with 1, 2 and 3 units: one whale, the largest holder, no
    dolphin, two shrimp; the two largest holders together own more than
    half. *)
Example categories_of_three_holders :
  snd (categorizeHolders exampleStore [0; 1; 2]%nat)
  = {| whales := [2%nat]; dolphins := []; shrimp := [1%nat; 0%nat];
       totalSupply := 6; holderCount := 3 |} /\
  nakamotoCoefficient (calculateConcentrationMetrics exampleStore [0; 1; 2]%nat)
  = 2.
Proof. split; reflexivity. Qed.

End Scenarios.

(** ** Exact conversions and products *)

Module ExactNumbers.
Import JSNumber NumberSpec NumberFacts EmissionViews.

Lemma shr_1_even x :
  0 < x ->
  shr_1 (Build_shr_record (2 * x) false false) = Build_shr_record x false false.
Proof. destruct x as [|p|p]; try lia. reflexivity. Qed.

(** Shifting out zero bits leaves no remainder behind. *)
Lemma iter_shr_1_exact n : forall m,
  0 < m ->
  Nat.iter n shr_1 (Build_shr_record (m * 2 ^ Z.of_nat n) false false) =
  Build_shr_record m false false.
Proof.
  induction n as [|n IH]; intros m Hm.
  - cbn [Nat.iter Z.of_nat]. now rewrite Z.pow_0_r, Z.mul_1_r.
  - rewrite Nat.iter_succ_r.
    replace (m * 2 ^ Z.of_nat (S n)) with (2 * (m * 2 ^ Z.of_nat n)).
    2:{ rewrite Nat2Z.inj_succ, Z.pow_succ_r by lia. ring. }
    rewrite shr_1_even.
    + now apply IH.
    + apply Z.mul_pos_pos; [assumption|apply pow2_pos; lia].
Qed.

Lemma shr_fexp_exact m t e :
  0 < m -> 0 <= t ->
  fexp64 (Zdigits2 (m * 2 ^ t) + e) - e = t ->
  shr_fexp prec emax (m * 2 ^ t) e loc_Exact =
  (Build_shr_record m false false, e + t).
Proof.
  intros Hm Ht Hs. unfold shr_fexp. rewrite fexp_64, Hs.
  cbn [shr_record_of_loc]. unfold shr.
  destruct t as [|p|p]; try lia.
  - now rewrite Z.pow_0_r, Z.mul_1_r, Z.add_0_r.
  - rewrite iter_pos_nat.
    rewrite <- (positive_nat_Z p) at 1.
    now rewrite iter_shr_1_exact.
Qed.

Lemma Zdigits2_shift m t :
  0 < m -> 0 <= t -> Zdigits2 (m * 2 ^ t) = Zdigits2 m + t.
Proof.
  intros Hm Ht. destruct (Zdigits2_bounds m Hm) as [Hd [Hlo Hhi]].
  pose proof (pow2_pos t Ht) as Hp.
  assert (Hmt : 0 < m * 2 ^ t) by nia.
  apply Z.le_antisymm.
  - apply Zdigits2_le; [assumption|lia|].
    rewrite pow2_split by lia. nia.
  - enough (Zdigits2 m + t - 1 < Zdigits2 (m * 2 ^ t)) by lia.
    apply Zdigits2_ge; [assumption|].
    replace (Zdigits2 m + t - 1) with (Zdigits2 m - 1 + t) by lia.
    rewrite pow2_split by lia. nia.
Qed.

(** The product of two positive integers is exact when it has at most 53
    bits. *)
Lemma mul_ofZ_exact a b :
  0 < a -> 0 < b -> a * b < 2 ^ 53 ->
  mul (ofZ a) (ofZ b) = ofZ (a * b).
Proof.
  intros Ha Hb Hab.
  assert (Ha' : a < 2 ^ 53) by nia. assert (Hb' : b < 2 ^ 53) by nia.
  assert (Hp : 0 < a * b) by nia.
  destruct (ofZ_small_mantissa a ltac:(lia)) as (ma & -> & Hma & Hra & Hda).
  destruct (ofZ_small_mantissa b ltac:(lia)) as (mb & -> & Hmb & Hrb & Hdb).
  destruct (ofZ_small_mantissa (a * b) ltac:(lia))
    as (mab & -> & Hmab & Hrab & Hdab).
  set (da := Zdigits2 a) in *. set (db := Zdigits2 b) in *.
  set (dab := Zdigits2 (a * b)) in *.
  assert (Hdd : da + db - 1 <= dab <= da + db).
  { destruct (Zdigits2_bounds a Ha) as [_ [Halo Hahi]].
    destruct (Zdigits2_bounds b Hb) as [_ [Hblo Hbhi]].
    fold da in Halo, Hahi. fold db in Hblo, Hbhi. split.
    - enough (da + db - 2 < dab) by lia. apply Zdigits2_ge; [assumption|].
      replace (da + db - 2) with ((da - 1) + (db - 1)) by lia.
      rewrite pow2_split by lia.
      apply Z.mul_le_mono_nonneg; try assumption;
        apply Z.lt_le_incl, pow2_pos; lia.
    - apply Zdigits2_le; [assumption|lia|].
      rewrite pow2_split by lia.
      apply Z.mul_lt_mono_nonneg; lia. }
  unfold mul, SFmul. cbn [xorb]. rewrite Pos2Z.inj_mul.
  set (t := 53 + dab - da - db).
  assert (Hprod : Zpos ma * Zpos mb = Zpos mab * 2 ^ t).
  { rewrite Hma, Hmb, Hmab. unfold t.
    replace (a * 2 ^ (53 - da) * (b * 2 ^ (53 - db)))
      with (a * b * (2 ^ (53 - da) * 2 ^ (53 - db))) by ring.
    replace (a * b * 2 ^ (53 - dab) * 2 ^ (53 + dab - da - db))
      with (a * b * (2 ^ (53 - dab) * 2 ^ (53 + dab - da - db))) by ring.
    rewrite <- !pow2_split by lia. do 2 f_equal. lia. }
  rewrite Hprod. rewrite binary_round_aux_unfold. cbn zeta.
  assert (Hd : Zdigits2 (Zpos mab * 2 ^ t) = 53 + t).
  { rewrite Zdigits2_shift by (unfold t; lia).
    now rewrite (Zdigits2_53 (Zpos mab) Hrab). }
  rewrite (shr_fexp_exact (Zpos mab) t (da - 53 + (db - 53)));
    [|lia|unfold t; lia|rewrite Hd; unfold fexp64, t; lia].
  cbn [fst snd shr_m loc_of_shr_record round_nearest_even].
  replace (da - 53 + (db - 53) + t) with (dab - 53) by (unfold t; lia).
  rewrite shr_fexp_noshift
    by (rewrite (Zdigits2_53 (Zpos mab) Hrab); unfold fexp64; lia).
  cbn [fst snd shr_record_of_loc shr_m].
  destruct (Z.leb_spec (dab - 53) 971); [reflexivity|lia].
Qed.

(** [BigInt(Number(z)) = z] for an integer of at most 53 bits. *)
Lemma bigIntOfNumber_ofZ z :
  0 <= z < 2 ^ 53 -> bigIntOfNumber (ofZ z) = Some z.
Proof.
  intros [Hlo Hhi]. destruct (Z.eq_dec z 0) as [->|Hnz]; [reflexivity|].
  destruct (ofZ_small_mantissa z ltac:(lia)) as (m & -> & Hm & Hr & Hd).
  unfold bigIntOfNumber. set (d := Zdigits2 z) in *.
  pose proof (pow2_pos (53 - d) ltac:(lia)) as Hp.
  destruct (Z.leb_spec 0 (d - 53)) as [He|He].
  - replace (d - 53) with 0 by lia. replace (53 - d) with 0 in Hm by lia.
    cbn [cond_Zopp]. f_equal. rewrite Hm. cbn. lia.
  - replace (- (d - 53)) with (53 - d) by lia. rewrite Hm.
    rewrite Z.mod_mul by lia. cbn [Z.eqb cond_Zopp].
    now rewrite Z.div_mul by lia.
Qed.

Lemma toIntegerOrInfinity_ofZ z :
  0 <= z < 2 ^ 53 -> toIntegerOrInfinity (ofZ z) = Integer z.
Proof.
  intros [Hlo Hhi]. destruct (Z.eq_dec z 0) as [->|Hnz]; [reflexivity|].
  destruct (ofZ_small_mantissa z ltac:(lia)) as (m & -> & Hm & Hr & Hd).
  unfold toIntegerOrInfinity. set (d := Zdigits2 z) in *.
  pose proof (pow2_pos (53 - d) ltac:(lia)) as Hp.
  destruct (Z.leb_spec 0 (d - 53)) as [He|He].
  - replace (d - 53) with 0 by lia. replace (53 - d) with 0 in Hm by lia.
    cbn [cond_Zopp]. f_equal. rewrite Hm. cbn. lia.
  - replace (- (d - 53)) with (53 - d) by lia. rewrite Hm.
    cbn [cond_Zopp]. now rewrite Z.div_mul by lia.
Qed.

End ExactNumbers.

(** ** Epochs, schedule and halvings *)

Module EmissionViewFacts.
Import JSNumber EmissionCalculator EmissionViews EmissionViewsSpec.
Import NumberFacts ExactNumbers EmissionFacts.

Lemma shr_as_div a n : 0 <= n -> BigInt.shr a n = a / 2 ^ n.
Proof. intros Hn. unfold BigInt.shr. now apply Z.shiftr_div_pow2. Qed.

Lemma shr_antitone a n1 n2 :
  0 <= a -> 0 <= n1 <= n2 -> BigInt.shr a n2 <= BigInt.shr a n1.
Proof.
  intros Ha Hn. rewrite !shr_as_div by lia.
  apply Z.div_le_compat_l; [assumption|].
  split; [apply Z.pow_pos_nonneg; lia|apply Z.pow_le_mono_r; lia].
Qed.

Lemma shr_succ a n : 0 <= n -> BigInt.shr a (n + 1) = BigInt.shr a n / 2.
Proof.
  intros Hn. rewrite !shr_as_div by lia.
  rewrite Z.pow_add_r by lia. change (2 ^ 1) with 2.
  rewrite Z.div_div; [reflexivity|apply Z.pow_nonzero; lia|lia].
Qed.

Lemma shr_zero_iff a n :
  0 < a -> 0 <= n -> (BigInt.shr a n = 0 <-> a < 2 ^ n).
Proof.
  intros Ha Hn. rewrite shr_as_div by lia.
  assert (Hp : 0 < 2 ^ n) by (apply Z.pow_pos_nonneg; lia).
  split; intros H.
  - apply Z.div_small_iff in H; lia.
  - apply Z.div_small. lia.
Qed.

Section AnySchedule.
Variable this : Constants.
Hypothesis reward_nonneg : 0 <= INITIAL_REWARD this.
Hypothesis interval_pos : 0 < HALVING_INTERVAL this.

Lemma epoch_of_height h :
  GENESIS_BLOCK this <= h ->
  let e := BigInt.div (h - GENESIS_BLOCK this) (HALVING_INTERVAL this) in
  0 <= e /\
  GENESIS_BLOCK this + e * HALVING_INTERVAL this <= h
    < GENESIS_BLOCK this + (e + 1) * HALVING_INTERVAL this.
Proof.
  intros Hh e. unfold e, BigInt.div. rewrite Z.quot_div_nonneg by lia.
  pose proof (Z.div_pos (h - GENESIS_BLOCK this) (HALVING_INTERVAL this)
                ltac:(lia) interval_pos).
  pose proof (Z.mul_div_le (h - GENESIS_BLOCK this) (HALVING_INTERVAL this)
                interval_pos).
  pose proof (Z.mul_succ_div_gt (h - GENESIS_BLOCK this)
                (HALVING_INTERVAL this) interval_pos).
  lia.
Qed.

Lemma epoch_unique h e :
  0 <= e ->
  GENESIS_BLOCK this + e * HALVING_INTERVAL this <= h
    < GENESIS_BLOCK this + (e + 1) * HALVING_INTERVAL this ->
  BigInt.div (h - GENESIS_BLOCK this) (HALVING_INTERVAL this) = e.
Proof.
  intros He Hh. unfold BigInt.div. rewrite Z.quot_div_nonneg by nia.
  symmetry. apply Z.div_unique with (r := h - GENESIS_BLOCK this
                                            - e * HALVING_INTERVAL this); lia.
Qed.

Lemma reward_from_genesis h :
  GENESIS_BLOCK this <= h ->
  calculateBlockReward this h =
  BigInt.shr (INITIAL_REWARD this)
    (BigInt.div (h - GENESIS_BLOCK this) (HALVING_INTERVAL this)).
Proof.
  intros Hh. unfold calculateBlockReward.
  destruct (Z.ltb_spec h (GENESIS_BLOCK this)); [lia|reflexivity].
Qed.

Lemma reward_antitone h1 h2 :
  GENESIS_BLOCK this <= h1 -> h1 <= h2 ->
  0 <= calculateBlockReward this h2 /\
  calculateBlockReward this h2 <= calculateBlockReward this h1 /\
  calculateBlockReward this h1 <= INITIAL_REWARD this.
Proof.
  intros H1 H12. rewrite !reward_from_genesis by lia.
  destruct (epoch_of_height h1 H1) as [He1 _].
  cbn zeta in He1.
  assert (Hq : BigInt.div (h1 - GENESIS_BLOCK this) (HALVING_INTERVAL this)
               <= BigInt.div (h2 - GENESIS_BLOCK this) (HALVING_INTERVAL this)).
  { unfold BigInt.div. apply Z.quot_le_mono; lia. }
  split; [apply shr_nonneg; assumption|]. split.
  - apply shr_antitone; [assumption|lia].
  - replace (INITIAL_REWARD this) with (BigInt.shr (INITIAL_REWARD this) 0)
      at 2 by reflexivity.
    apply shr_antitone; [assumption|lia].
Qed.

Lemma next_halving h :
  GENESIS_BLOCK this <= h ->
  let n := getNextHalvingBlock this h in
  h < n <= h + HALVING_INTERVAL this /\
  calculateBlockReward this n = calculateBlockReward this h / 2 /\
  (forall k, h <= k < n ->
     calculateBlockReward this k = calculateBlockReward this h).
Proof.
  intros Hh n. unfold n, getNextHalvingBlock.
  destruct (Z.ltb_spec h (GENESIS_BLOCK this)); [lia|].
  destruct (epoch_of_height h Hh) as [He Hb]. cbn zeta in He, Hb.
  set (e := BigInt.div (h - GENESIS_BLOCK this) (HALVING_INTERVAL this)) in *.
  split; [lia|]. split.
  - rewrite !reward_from_genesis by nia. fold e.
    rewrite (epoch_unique _ (e + 1)) by lia.
    now apply shr_succ.
  - intros k Hk. rewrite !reward_from_genesis by lia. fold e.
    now rewrite (epoch_unique k e) by lia.
Qed.

End AnySchedule.

Lemma DIESEL_interval_pos : 0 < HALVING_INTERVAL DIESEL_CONSTANTS.
Proof. reflexivity. Qed.

Lemma emissionOfEpochs_succ n :
  emissionOfEpochs (S n) =
  emissionOfEpochs n + 210000 * BigInt.shr 5000000000 (Z.of_nat n).
Proof. reflexivity. Qed.

Lemma shipped_reward_zero_iff i :
  0 <= i -> (BigInt.shr 5000000000 i = 0 <-> 33 <= i).
Proof.
  intros Hi. rewrite shr_zero_iff by lia. split; intros H.
  - destruct (Z_lt_le_dec i 33) as [Hlt|]; [exfalso|assumption].
    assert (2 ^ i <= 2 ^ 32) by (apply Z.pow_le_mono_r; lia).
    change (2 ^ 32) with 4294967296 in *. lia.
  - assert (2 ^ 33 <= 2 ^ i) by (apply Z.pow_le_mono_r; lia).
    change (2 ^ 33) with 8589934592 in *. lia.
Qed.

(** The loop of [getEmissionSchedule] on the shipped constants, entered at
    epoch [33 - n]. *)
Lemma scheduleLoop_shipped maxEpochs : forall n fuel schedule,
  (n <= 33)%nat -> (n < fuel)%nat ->
  exists k : nat,
    (k <= n)%nat /\
    scheduleLoop DIESEL_CONSTANTS fuel maxEpochs (33 - Z.of_nat n)
      (emissionOfEpochs (33 - n)) schedule =
    Some (schedule
          ++ map scheduleEntry
               (MintTracker.heightsFrom (33 - Z.of_nat n) k)).
Proof.
  induction n as [|n IH]; intros fuel schedule Hn Hfuel.
  - exists 0%nat. split; [lia|]. cbn [MintTracker.heightsFrom map].
    rewrite app_nil_r. destruct fuel as [|fuel]; [lia|].
    cbn [scheduleLoop]. destruct (ltb _ _); reflexivity.
  - destruct fuel as [|fuel]; [lia|]. cbn [scheduleLoop].
    destruct (ltb _ maxEpochs).
    2:{ exists 0%nat. split; [lia|]. cbn [MintTracker.heightsFrom map].
        now rewrite app_nil_r. }
    set (e := 33 - Z.of_nat (S n)).
    assert (He : 0 <= e < 33) by (unfold e; lia).
    unfold scheduleStep.
    cbn [GENESIS_BLOCK HALVING_INTERVAL INITIAL_REWARD DIESEL_CONSTANTS].
    change (50 * 100000000) with 5000000000.
    destruct (Z.eqb_spec (BigInt.shr 5000000000 e) 0) as [Hz|_].
    { apply shipped_reward_zero_iff in Hz; lia. }
    replace (e + 1) with (33 - Z.of_nat n) by (unfold e; lia).
    assert (Hcum : emissionOfEpochs (33 - S n)
                   + 210000 * BigInt.shr 5000000000 e
                   = emissionOfEpochs (33 - n)).
    { replace (33 - n)%nat with (S (33 - S n)) by lia.
      rewrite emissionOfEpochs_succ. do 3 f_equal. unfold e. lia. }
    rewrite Hcum.
    destruct (IH fuel
                (schedule ++
                 [{| epoch := ofZ e;
                     startBlock := ofZ (800000 + e * 210000);
                     endBlock := ofZ (800000 + (33 - Z.of_nat n) * 210000 - 1);
                     blockReward := BigInt.shr 5000000000 e;
                     totalEmission := 210000 * BigInt.shr 5000000000 e;
                     cumulativeEmission := emissionOfEpochs (33 - n) |}])
                ltac:(lia) ltac:(lia)) as (k & Hk & ->).
    exists (S k). split; [lia|].
    rewrite <- app_assoc. do 2 f_equal.
    cbn [MintTracker.heightsFrom map app]. fold e.
    replace (e + 1) with (33 - Z.of_nat n) by (unfold e; lia).
    f_equal. unfold scheduleEntry. f_equal.
    + f_equal. lia.
    + f_equal. unfold e. lia.
    + f_equal. unfold e. lia.
Qed.

Lemma halvingEvent_shipped Date_now currentBlock cb i :
  0 <= i <= 33 ->
  halvingEvent DIESEL_CONSTANTS Date_now currentBlock cb i =
  Some (halvingEventAt Date_now currentBlock cb i).
Proof.
  intros Hi. unfold halvingEvent.
  cbn [GENESIS_BLOCK HALVING_INTERVAL INITIAL_REWARD DIESEL_CONSTANTS].
  change (50 * 100000000) with 5000000000.
  replace (800000 + i * 210000) with (800000 + 210000 * i) by lia.
  rewrite bigIntOfNumber_ofZ.
  2:{ split; [lia|]. apply Z.le_lt_trans with (800000 + 210000 * 33); [lia|].
      reflexivity. }
  unfold halvingEventAt. f_equal. f_equal.
  destruct (Z.eqb_spec i 0) as [->|Hne]; [reflexivity|].
  f_equal. lia.
Qed.

(** The loop of [getHalvingEvents] on the shipped constants, entered at
    epoch [34 - n]. *)
Lemma halvingLoop_shipped Date_now currentBlock cb maxHalvings :
  forall n fuel events,
  (1 <= n <= 34)%nat -> (n <= fuel)%nat ->
  exists k : nat,
    (k <= n)%nat /\
    halvingLoop DIESEL_CONSTANTS fuel Date_now currentBlock cb maxHalvings
      (34 - Z.of_nat n) events =
    Completed (events
               ++ map (halvingEventAt Date_now currentBlock cb)
                    (MintTracker.heightsFrom (34 - Z.of_nat n) k)).
Proof.
  induction n as [|n IH]; intros fuel events Hn Hfuel; [lia|].
  destruct fuel as [|fuel]; [lia|]. cbn [halvingLoop].
  destruct (ltb _ maxHalvings).
  2:{ exists 0%nat. split; [lia|]. cbn [MintTracker.heightsFrom map].
      now rewrite app_nil_r. }
  set (e := 34 - Z.of_nat (S n)).
  assert (He : 0 <= e <= 33) by (unfold e; lia).
  rewrite halvingEvent_shipped by assumption.
  cbn [newReward halvingEventAt].
  destruct (Z.eqb_spec (BigInt.shr 5000000000 e) 0) as [Hz|Hnz].
  - exists 1%nat. split; [lia|]. reflexivity.
  - assert (e < 33) by (rewrite shipped_reward_zero_iff in Hnz; lia).
    replace (e + 1) with (34 - Z.of_nat n) by (unfold e; lia).
    destruct (IH fuel
                (events ++ [halvingEventAt Date_now currentBlock cb e])
                ltac:(unfold e in *; lia) ltac:(lia)) as (k & Hk & ->).
    exists (S k). split; [lia|].
    rewrite <- app_assoc. do 2 f_equal.
    cbn [MintTracker.heightsFrom map app]. fold e.
    replace (e + 1) with (34 - Z.of_nat n) by (unfold e; lia).
    reflexivity.
Qed.

Lemma length_heightsFrom count : forall from,
  List.length (MintTracker.heightsFrom from count) = count.
Proof.
  induction count as [|c IH]; intros from; cbn; [reflexivity|].
  now rewrite IH.
Qed.

Lemma nth_error_heightsFrom count : forall from i h,
  nth_error (MintTracker.heightsFrom from count) i = Some h ->
  h = from + Z.of_nat i /\ (i < count)%nat.
Proof.
  induction count as [|c IH]; intros from i h H.
  - destruct i; discriminate.
  - destruct i as [|i]; cbn in H.
    + injection H as <-. split; lia.
    + apply IH in H. lia.
Qed.

End EmissionViewFacts.

(** ** Claimants and the statistics of a range *)

Module TrackerViewFacts.
Import JSNumber MintTracker TrackerSpec TrackerViewsSpec TrackerFacts.
Import EmissionViewFacts.

Lemma In_heightsFrom count : forall from h,
  In h (heightsFrom from count) <-> from <= h < from + Z.of_nat count.
Proof.
  induction count as [|c IH]; intros from h; cbn [heightsFrom In].
  - lia.
  - rewrite IH. lia.
Qed.

(** *** The claimants of a block *)

Lemma filterDieselMints_wellFormed entries :
  forallb (fun e => match e with Some _ => true | None => false end) entries
    = true ->
  filterDieselMints entries
  = Returned (filter isDieselMint (presentEntries entries)).
Proof.
  induction entries as [|[entry|] rest IH]; cbn [forallb]; intros H.
  - reflexivity.
  - cbn [filterDieselMints presentEntries filter]. rewrite IH by exact H.
    unfold isDieselMint. destruct (entry_alkane_id entry) as [id|];
      [destruct (String.eqb id _)|]; reflexivity.
  - discriminate.
Qed.

Lemma filterDieselMints_null entries :
  forallb (fun e => match e with Some _ => true | None => false end) entries
    = false ->
  filterDieselMints entries = Threw.
Proof.
  induction entries as [|[entry|] rest IH]; cbn [forallb]; intros H.
  - discriminate.
  - cbn [filterDieselMints]. now rewrite IH.
  - reflexivity.
Qed.

Lemma toClaimants_integral now height : forall mints,
  forallb hasIntegralAmount mints = true ->
  exists claimants,
    toClaimants now height mints = Returned claimants /\
    List.length claimants = List.length mints /\
    map address claimants
    = map (fun mint => match entry_address mint with
                       | Some s => s | None => "unknown"%string end) mints /\
    Forall (fun c => blockHeight c = height) claimants.
Proof.
  induction mints as [|mint rest IH]; cbn [forallb]; intros H.
  - exists []. repeat split. constructor.
  - apply andb_prop in H. destruct H as [Hm Hrest].
    destruct (IH Hrest) as (cs & E & Hlen & Hadr & Hh).
    cbn [toClaimants]. unfold hasIntegralAmount in Hm.
    destruct (entry_amount mint) eqn:Ea; [| |discriminate];
      cbn [toBigInt]; rewrite E; eexists; (split; [reflexivity|]);
      cbn [List.length map address]; rewrite Hlen, Hadr;
      (repeat split); constructor; auto.
Qed.

Lemma toClaimants_not_integral now height : forall mints,
  forallb hasIntegralAmount mints = false ->
  toClaimants now height mints = Threw.
Proof.
  induction mints as [|mint rest IH]; cbn [forallb]; intros H.
  - discriminate.
  - cbn [toClaimants]. unfold hasIntegralAmount in H.
    destruct (entry_amount mint); cbn [toBigInt]; try reflexivity;
      cbn [andb] in H; now rewrite IH.
Qed.

(** The claimants of a height are the same at every reading of the clock,
    their time stamps apart. *)
Lemma toClaimants_clock now now' height : forall mints,
  match toClaimants now height mints, toClaimants now' height mints with
  | Returned claimants, Returned claimants' =>
      map address claimants = map address claimants' /\
      map amount claimants = map amount claimants'
  | Threw, Threw => True
  | _, _ => False
  end.
Proof.
  induction mints as [|mint rest IH]; cbn [toClaimants].
  - split; reflexivity.
  - destruct (toBigInt (entry_amount mint)); [|exact I].
    destruct (toClaimants now height rest), (toClaimants now' height rest);
      try contradiction; [|exact I].
    destruct IH as [Ha Hb]. cbn [map address amount].
    now rewrite Ha, Hb.
Qed.

Lemma getBlockClaimants_clock rpc now now' h :
  map address (getBlockClaimants rpc now h)
  = map address (getBlockClaimants rpc now' h) /\
  map amount (getBlockClaimants rpc now h)
  = map amount (getBlockClaimants rpc now' h).
Proof.
  unfold getBlockClaimants, getBlockClaimants_try.
  destruct (protorunesByHeight rpc h) as [[| |entries]|];
    try (split; reflexivity).
  destruct (filterDieselMints entries) as [mints|]; [|split; reflexivity].
  pose proof (toClaimants_clock now now' h mints) as H.
  destruct (toClaimants now h mints), (toClaimants now' h mints);
    try contradiction; [exact H|split; reflexivity].
Qed.

Lemma claimantCount_clock rpc now now' h :
  claimantCount rpc now h = claimantCount rpc now' h.
Proof.
  unfold claimantCount.
  destruct (getBlockClaimants_clock rpc now now' h) as [H _].
  apply (f_equal (@List.length string)) in H.
  rewrite !length_map in H. now rewrite H.
Qed.

(** The claimants of a height depend on the answer for that height
    alone. *)
Lemma getBlockClaimants_same_answer rpc rpc' now h :
  protorunesByHeight rpc' h = protorunesByHeight rpc h ->
  getBlockClaimants rpc' now h = getBlockClaimants rpc now h.
Proof.
  intros H. unfold getBlockClaimants, getBlockClaimants_try. now rewrite H.
Qed.

(** *** The statistics of a range of blocks *)

Lemma trendStep_count rpc now st h :
  acc_peakParticipants (trendStep rpc now st h)
    = Z.max (acc_peakParticipants st) (claimantCount rpc now h) /\
  acc_minParticipants (trendStep rpc now st h)
    = (if 0 <? claimantCount rpc now h
       then Z.min (acc_minParticipants st) (claimantCount rpc now h)
       else acc_minParticipants st) /\
  acc_totalParticipants (trendStep rpc now st h)
    = acc_totalParticipants st + claimantCount rpc now h.
Proof. repeat split. Qed.

Lemma fold_trendStep_peak rpc now : forall hs st,
  let st' := fold_left (trendStep rpc now) hs st in
  acc_peakParticipants st <= acc_peakParticipants st' /\
  (forall h, In h hs -> claimantCount rpc now h <= acc_peakParticipants st') /\
  (acc_peakParticipants st' = acc_peakParticipants st \/
   exists h, In h hs /\ acc_peakParticipants st' = claimantCount rpc now h).
Proof.
  induction hs as [|h hs IH]; intros st; cbn zeta; cbn [fold_left].
  - split; [lia|]. split; [intros h []|now left].
  - destruct (IH (trendStep rpc now st h)) as (Hle & Hall & Hatt).
    cbn zeta in Hle, Hall, Hatt.
    destruct (trendStep_count rpc now st h) as (Ep & _ & _).
    rewrite Ep in Hle, Hatt.
    split; [lia|]. split.
    + intros h' [<-|Hin]; [lia|now apply Hall].
    + destruct Hatt as [Hatt|(h' & Hin & Hatt)].
      * rewrite Hatt.
        destruct (Z.max_spec (acc_peakParticipants st)
                    (claimantCount rpc now h)) as [[_ ->]|[_ ->]];
          [right; exists h; split; [now left|reflexivity]|now left].
      * right. exists h'. split; [now right|exact Hatt].
Qed.

Lemma fold_trendStep_min rpc now : forall hs st,
  let st' := fold_left (trendStep rpc now) hs st in
  acc_minParticipants st' <= acc_minParticipants st /\
  (forall h, In h hs -> 0 < claimantCount rpc now h ->
     acc_minParticipants st' <= claimantCount rpc now h) /\
  (acc_minParticipants st' = acc_minParticipants st \/
   exists h, In h hs /\ 0 < claimantCount rpc now h /\
             acc_minParticipants st' = claimantCount rpc now h).
Proof.
  induction hs as [|h hs IH]; intros st; cbn zeta; cbn [fold_left].
  - split; [lia|]. split; [intros h []|now left].
  - destruct (IH (trendStep rpc now st h)) as (Hle & Hall & Hatt).
    cbn zeta in Hle, Hall, Hatt.
    destruct (trendStep_count rpc now st h) as (_ & Em & _).
    rewrite Em in Hle, Hatt.
    destruct (Z.ltb_spec 0 (claimantCount rpc now h)) as [Hpos|Hz].
    + split; [lia|]. split.
      * intros h' [<-|Hin] Hc; [lia|now apply Hall].
      * destruct Hatt as [Hatt|(h' & Hin & Hc & Hatt)].
        -- rewrite Hatt.
           destruct (Z.min_spec (acc_minParticipants st)
                       (claimantCount rpc now h)) as [[_ ->]|[_ ->]];
             [now left|right; exists h; repeat split; [now left|exact Hpos]].
        -- right. exists h'. repeat split; [now right|exact Hc|exact Hatt].
    + split; [lia|]. split.
      * intros h' [<-|Hin] Hc; [lia|now apply Hall].
      * destruct Hatt as [Hatt|(h' & Hin & Hc & Hatt)]; [now left|].
        right. exists h'. repeat split; [now right|exact Hc|exact Hatt].
Qed.

Lemma fold_trendStep_total rpc now : forall hs st,
  acc_totalParticipants (fold_left (trendStep rpc now) hs st)
  = acc_totalParticipants st + sumZ (map (claimantCount rpc now) hs).
Proof.
  induction hs as [|h hs IH]; intros st; cbn [fold_left map sumZ fold_right].
  - lia.
  - rewrite IH. destruct (trendStep_count rpc now st h) as (_ & _ & ->).
    fold (sumZ (map (claimantCount rpc now) hs)). lia.
Qed.

(** *** The set of addresses *)

Lemma existsb_eqb_In x s :
  existsb (String.eqb x) s = true <-> In x s.
Proof.
  rewrite existsb_exists. split.
  - intros (y & Hin & E). apply String.eqb_eq in E. now subst.
  - intros Hin. exists x. split; [exact Hin|apply String.eqb_refl].
Qed.

Lemma setAdd_spec s x :
  NoDup s ->
  NoDup (setAdd s x) /\
  (forall a, In a (setAdd s x) <-> In a s \/ a = x) /\
  (List.length (setAdd s x) <= S (List.length s))%nat.
Proof.
  intros Hs. unfold setAdd.
  destruct (existsb (String.eqb x) s) eqn:E.
  - apply existsb_eqb_In in E. split; [exact Hs|]. split; [|lia].
    intros a. split; [now left|]. intros [H| ->]; assumption.
  - assert (Hx : ~ In x s).
    { intros Hin. apply existsb_eqb_In in Hin. congruence. }
    split; [|split].
    + apply NoDup_app; [exact Hs|repeat constructor; intros []|].
      intros a Ha [<-|[]]. contradiction.
    + intros a. rewrite in_app_iff. cbn [In]. intuition.
    + rewrite length_app. cbn. lia.
Qed.

Lemma fold_setAdd_spec : forall xs s,
  NoDup s ->
  NoDup (fold_left setAdd xs s) /\
  (forall a, In a (fold_left setAdd xs s) <-> In a s \/ In a xs) /\
  (List.length (fold_left setAdd xs s)
   <= List.length s + List.length xs)%nat.
Proof.
  induction xs as [|x xs IH]; intros s Hs; cbn [fold_left].
  - split; [exact Hs|]. split; [intros a; cbn [In]; tauto|cbn; lia].
  - destruct (setAdd_spec s x Hs) as (Hn & Hin & Hlen).
    destruct (IH (setAdd s x) Hn) as (Hn' & Hin' & Hlen').
    split; [exact Hn'|]. split.
    + intros a. rewrite Hin', Hin. cbn [In]. intuition.
    + cbn [List.length]. lia.
Qed.

Lemma fold_trendStep_addresses rpc now : forall hs st,
  NoDup (acc_uniqueAddresses st) ->
  let st' := fold_left (trendStep rpc now) hs st in
  NoDup (acc_uniqueAddresses st') /\
  (forall a, In a (acc_uniqueAddresses st') <->
     In a (acc_uniqueAddresses st) \/
     exists h c, In h hs /\ In c (getBlockClaimants rpc now h) /\
                 address c = a) /\
  Z.of_nat (List.length (acc_uniqueAddresses st'))
  <= Z.of_nat (List.length (acc_uniqueAddresses st))
     + sumZ (map (claimantCount rpc now) hs).
Proof.
  induction hs as [|h hs IH]; intros st Hs; cbn zeta; cbn [fold_left].
  - split; [exact Hs|]. split; [|cbn; lia].
    intros a. split; [now left|]. intros [H|(h & c & [] & _)]. exact H.
  - destruct (fold_setAdd_spec (map address (getBlockClaimants rpc now h))
                (acc_uniqueAddresses st) Hs) as (Hn & Hin & Hlen).
    destruct (IH (trendStep rpc now st h) Hn) as (Hn' & Hin' & Hlen').
    cbn zeta in Hn', Hin', Hlen'.
    cbn [trendStep acc_uniqueAddresses] in Hin', Hlen'.
    split; [exact Hn'|]. split.
    + intros a. rewrite Hin', Hin. rewrite in_map_iff. split.
      * intros [[H|(c & E & Hc)]|(h' & c & Hh & Hc & E)].
        -- now left.
        -- right. exists h, c. repeat split; [now left|exact Hc|exact E].
        -- right. exists h', c. repeat split; [now right|exact Hc|exact E].
      * intros [H|(h' & c & [<-|Hh] & Hc & E)].
        -- left. now left.
        -- left. right. exists c. split; [exact E|exact Hc].
        -- right. exists h', c. repeat split; assumption.
    + cbn [map sumZ fold_right].
      fold (sumZ (map (claimantCount rpc now) hs)).
      rewrite length_map in Hlen. unfold claimantCount at 1. lia.
Qed.

Lemma sumZ_map_snapshot rpc now hs :
  sumZ (map totalClaimants
          (map (fun h => participationSnapshot now h
                           (getBlockClaimants rpc now h)) hs))
  = sumZ (map (claimantCount rpc now) hs).
Proof.
  induction hs as [|h hs IH]; [reflexivity|].
  cbn [map sumZ fold_right]. unfold sumZ in IH. now rewrite IH.
Qed.

(** *** The result for a range of heights, at one reading of the clock *)

Lemma standing_snapshot_at rpc now startBlock endBlock i snapshot :
  nth_error (blocks (getParticipationTrends rpc now startBlock endBlock)) i
  = Some snapshot ->
  startBlock + Z.of_nat i <= endBlock /\
  snapshot
  = participationSnapshot now (startBlock + Z.of_nat i)
      (getBlockClaimants rpc now (startBlock + Z.of_nat i)).
Proof.
  rewrite getParticipationTrends_blocks. intros Hi.
  rewrite nth_error_map in Hi.
  destruct (nth_error _ i) as [h|] eqn:Eh; [|discriminate].
  apply nth_error_heightsFrom in Eh. destruct Eh as [-> Hlt].
  injection Hi as <-. split; [lia|reflexivity].
Qed.

Lemma standing_average rpc now startBlock endBlock :
  let trends := getParticipationTrends rpc now startBlock endBlock in
  averageParticipants trends
  = (if 0 <? endBlock - startBlock + 1
     then div (ofZ (sumZ (map totalClaimants (blocks trends))))
            (ofZ (endBlock - startBlock + 1))
     else zero).
Proof.
  cbn zeta. rewrite getParticipationTrends_blocks.
  unfold getParticipationTrends. cbn [averageParticipants].
  rewrite fold_trendStep_total. cbn [acc_totalParticipants].
  now rewrite sumZ_map_snapshot.
Qed.

Lemma standing_peak_and_minimum rpc now startBlock endBlock :
  let trends := getParticipationTrends rpc now startBlock endBlock in
  (forall snapshot, In snapshot (blocks trends) ->
     totalClaimants snapshot <= peakParticipants trends /\
     (0 < totalClaimants snapshot ->
      minParticipants trends <= totalClaimants snapshot) /\
     (minParticipants trends = 0 ->
      totalClaimants snapshot < MAX_SAFE_INTEGER ->
      totalClaimants snapshot = 0)) /\
  (peakParticipants trends = 0 \/
   exists snapshot, In snapshot (blocks trends) /\
                    totalClaimants snapshot = peakParticipants trends) /\
  (minParticipants trends = 0 \/
   exists snapshot, In snapshot (blocks trends) /\
                    totalClaimants snapshot = minParticipants trends) /\
  0 <= minParticipants trends <= peakParticipants trends.
Proof.
  cbn zeta. rewrite getParticipationTrends_blocks.
  unfold getParticipationTrends.
  cbn [peakParticipants minParticipants].
  set (hs := heightsFrom startBlock (Z.to_nat (endBlock - startBlock + 1))).
  set (st0 := {| acc_blocks := []; acc_uniqueAddresses := [];
                 acc_totalParticipants := 0; acc_peakParticipants := 0;
                 acc_minParticipants := MAX_SAFE_INTEGER |}).
  destruct (fold_trendStep_peak rpc now hs st0) as (Hp0 & Hpall & Hpatt).
  destruct (fold_trendStep_min rpc now hs st0) as (Hm0 & Hmall & Hmatt).
  cbn zeta in Hp0, Hpall, Hpatt, Hm0, Hmall, Hmatt.
  set (st := fold_left (trendStep rpc now) hs st0) in *.
  cbn [acc_peakParticipants acc_minParticipants st0] in Hp0, Hpatt, Hm0, Hmatt.
  assert (Hsafe : 0 < MAX_SAFE_INTEGER) by reflexivity.
  assert (Hsnap : forall snapshot,
            In snapshot (map (fun h => participationSnapshot now h
                                         (getBlockClaimants rpc now h)) hs) ->
            exists h, In h hs /\ totalClaimants snapshot = claimantCount rpc now h).
  { intros s Hs. apply in_map_iff in Hs. destruct Hs as (h & <- & Hh).
    exists h. split; [exact Hh|reflexivity]. }
  assert (Hmk : forall h, In h hs ->
            In (participationSnapshot now h (getBlockClaimants rpc now h))
               (map (fun h => participationSnapshot now h
                                (getBlockClaimants rpc now h)) hs) /\
            totalClaimants (participationSnapshot now h
                              (getBlockClaimants rpc now h))
            = claimantCount rpc now h).
  { intros h Hh. split; [|reflexivity].
    apply in_map_iff. exists h. split; [reflexivity|exact Hh]. }
  destruct (Z.eqb_spec (acc_minParticipants st) MAX_SAFE_INTEGER) as [Emax|Nmax].
  - split.
    { intros s Hs. destruct (Hsnap s Hs) as (h & Hh & ->).
      split; [now apply Hpall|]. split.
      - intros Hc. unfold claimantCount. lia.
      - intros _ Hlt.
        destruct (Z_lt_le_dec 0 (claimantCount rpc now h)) as [Hc|Hc].
        + specialize (Hmall h Hh Hc). lia.
        + unfold claimantCount in *. lia. }
    split.
    { destruct Hpatt as [Hz|(h & Hh & E)]; [now left|right].
      destruct (Hmk h Hh) as [Hin Ec]. eexists. split; [exact Hin|].
      now rewrite Ec. }
    split; [now left|lia].
  - destruct Hmatt as [Hz|(h & Hh & Hc & E)]; [contradiction|].
    split.
    { intros s Hs. destruct (Hsnap s Hs) as (h' & Hh' & ->).
      split; [now apply Hpall|]. split.
      - intros Hc'. now apply Hmall.
      - intros Hz. lia. }
    split.
    { destruct Hpatt as [Hz|(h' & Hh' & E')]; [now left|right].
      destruct (Hmk h' Hh') as [Hin Ec]. eexists. split; [exact Hin|].
      now rewrite Ec. }
    split.
    { right. destruct (Hmk h Hh) as [Hin Ec]. eexists. split; [exact Hin|].
      now rewrite Ec. }
    specialize (Hpall h Hh). lia.
Qed.

Lemma standing_unique_addresses rpc now startBlock endBlock :
  let trends := getParticipationTrends rpc now startBlock endBlock in
  (exists addresses : list string,
     NoDup addresses /\
     totalUniqueAddresses trends = Z.of_nat (List.length addresses) /\
     forall clock a, In a addresses <->
       exists h,
         startBlock <= h <= endBlock /\
         In a (map address (getBlockClaimants rpc clock h))) /\
  0 <= totalUniqueAddresses trends
    <= sumZ (map totalClaimants (blocks trends)).
Proof.
  cbn zeta.
  rewrite getParticipationTrends_blocks, sumZ_map_snapshot.
  unfold getParticipationTrends. cbn [totalUniqueAddresses].
  set (hs := heightsFrom startBlock (Z.to_nat (endBlock - startBlock + 1))).
  set (st0 := {| acc_blocks := []; acc_uniqueAddresses := [];
                 acc_totalParticipants := 0; acc_peakParticipants := 0;
                 acc_minParticipants := MAX_SAFE_INTEGER |}).
  destruct (fold_trendStep_addresses rpc now hs st0 (NoDup_nil _))
    as (Hn & Hin & Hlen).
  cbn zeta in Hn, Hin, Hlen. cbn [acc_uniqueAddresses st0 List.length] in Hin, Hlen.
  split; [|lia].
  eexists. split; [exact Hn|]. split; [reflexivity|].
  intros clock a. rewrite Hin.
  split.
  - intros [[]|(h & c & Hh & Hc & E)]. exists h.
    apply In_heightsFrom in Hh. split; [lia|].
    destruct (getBlockClaimants_clock rpc now clock h) as [<- _].
    apply in_map_iff. exists c. split; assumption.
  - intros (h & Hh & Ha). right.
    destruct (getBlockClaimants_clock rpc now clock h) as [E _].
    rewrite <- E in Ha. apply in_map_iff in Ha.
    destruct Ha as (c & Ec & Hc). exists h, c.
    repeat split; try assumption. apply In_heightsFrom. lia.
Qed.

(** At heights from 0 on the tracker shifts the initial reward to the
    left by three places at most. *)
Lemma inlineBlockReward_bounded h :
  0 <= h -> 0 <= inlineBlockReward h <= 40000000000.
Proof.
  intros Hh. split; [apply inlineBlockReward_nonneg|].
  unfold inlineBlockReward, BigInt.div, BigInt.shr.
  cbn [GENESIS_BLOCK HALVING_INTERVAL INITIAL_REWARD DIESEL_CONSTANTS].
  assert (He : -3 <= Z.quot (h - 800000) 210000).
  { destruct (Z_lt_le_dec h 800000) as [Hlt|Hge].
    - replace (h - 800000) with (- (800000 - h)) by lia.
      rewrite Z.quot_opp_l by lia.
      assert (Z.quot (800000 - h) 210000 <= 3); [|lia].
      rewrite Z.quot_div_nonneg by lia.
      assert (800000 - h < 210000 * 4) by lia.
      assert ((800000 - h) / 210000 < 4); [|lia].
      apply Z.div_lt_upper_bound; lia.
    - assert (0 <= Z.quot (h - 800000) 210000); [|lia].
      apply Z.quot_pos; lia. }
  set (e := Z.quot (h - 800000) 210000) in *.
  destruct (Z_lt_le_dec e 0) as [Hneg|Hpos].
  - assert (E : e = -3 \/ e = -2 \/ e = -1) by lia.
    destruct E as [-> | [-> | ->]]; apply Z.leb_le; reflexivity.
  - rewrite Z.shiftr_div_pow2 by lia.
    assert (0 < 2 ^ e) by (apply Z.pow_pos_nonneg; lia).
    assert (50 * 100000000 / 2 ^ e <= 50 * 100000000 / 1).
    { apply Z.div_le_compat_l; lia. }
    rewrite Z.div_1_r in *. lia.
Qed.

(** *** The readings of the clock *)

(** The claimants found at a height are those of [MintTracker], their time
    stamps apart, and no reading is given back. *)
Lemma clocked_toClaimants clock now height : forall mints reads,
  (reads <= snd (ClockedMintTracker.toClaimants clock height mints reads))%nat /\
  match fst (ClockedMintTracker.toClaimants clock height mints reads),
        toClaimants now height mints with
  | Returned claimants, Returned claimants' =>
      map address claimants = map address claimants'
  | Threw, Threw => True
  | _, _ => False
  end.
Proof.
  induction mints as [|mint rest IH]; intros reads;
    cbn [ClockedMintTracker.toClaimants toClaimants].
  - split; [cbn; lia|reflexivity].
  - destruct (toBigInt (entry_amount mint)) as [a|]; [|split; [cbn; lia|exact I]].
    set (stamp := match entry_timestamp mint with
                  | Some t => (t, reads)
                  | None => (clock reads, S reads)
                  end).
    assert (Hs : (reads <= snd stamp)%nat).
    { unfold stamp. destruct (entry_timestamp mint); cbn; lia. }
    destruct (IH (snd stamp)) as [Hr Hc].
    destruct (ClockedMintTracker.toClaimants clock height rest (snd stamp))
      as [[claimants|] reads'];
      destruct (toClaimants now height rest) as [claimants'|];
      cbn [fst snd] in *; try contradiction.
    + split; [lia|]. cbn [map address]. now rewrite Hc.
    + split; [lia|exact I].
Qed.

Lemma clocked_getBlockClaimants rpc clock now h reads :
  (reads <= snd (ClockedMintTracker.getBlockClaimants rpc clock h reads))%nat /\
  map address (fst (ClockedMintTracker.getBlockClaimants rpc clock h reads))
  = map address (getBlockClaimants rpc now h).
Proof.
  unfold ClockedMintTracker.getBlockClaimants,
    ClockedMintTracker.getBlockClaimants_try,
    getBlockClaimants, getBlockClaimants_try.
  destruct (protorunesByHeight rpc h) as [[| |entries]|];
    try (split; [cbn; lia|reflexivity]).
  destruct (filterDieselMints entries) as [mints|];
    [|split; [cbn; lia|reflexivity]].
  destruct (clocked_toClaimants clock now h mints reads) as [Hr Hc].
  destruct (ClockedMintTracker.toClaimants clock h mints reads)
    as [[claimants|] reads'];
    destruct (toClaimants now h mints) as [claimants'|];
    cbn [fst snd] in *; try contradiction.
  - split; assumption.
  - split; [assumption|reflexivity].
Qed.

(** A snapshot depends on the claimants through their number. *)
Lemma stampedAt_participationSnapshot now now' h claimants claimants' :
  List.length claimants = List.length claimants' ->
  stampedAt now (participationSnapshot now' h claimants)
  = participationSnapshot now h claimants'.
Proof.
  intros E. unfold stampedAt, participationSnapshot.
  cbn [snapshotHeight totalClaimants rewardPerClaimant totalDistributed].
  now rewrite E.
Qed.

(** A state of the loop with the time stamps of its snapshots replaced. *)
Lemma clocked_trendStep rpc clock now st reads st' h :
  map (stampedAt now) (acc_blocks st) = acc_blocks st' ->
  acc_uniqueAddresses st = acc_uniqueAddresses st' ->
  acc_totalParticipants st = acc_totalParticipants st' ->
  acc_peakParticipants st = acc_peakParticipants st' ->
  acc_minParticipants st = acc_minParticipants st' ->
  let next := ClockedMintTracker.trendStep rpc clock (st, reads) h in
  let next' := trendStep rpc now st' h in
  map (stampedAt now) (acc_blocks (fst next)) = acc_blocks next' /\
  acc_uniqueAddresses (fst next) = acc_uniqueAddresses next' /\
  acc_totalParticipants (fst next) = acc_totalParticipants next' /\
  acc_peakParticipants (fst next) = acc_peakParticipants next' /\
  acc_minParticipants (fst next) = acc_minParticipants next'.
Proof.
  intros Hb Hu Ht Hp Hm. cbn zeta.
  unfold ClockedMintTracker.trendStep, trendStep.
  cbn [fst snd acc_blocks acc_uniqueAddresses acc_totalParticipants
       acc_peakParticipants acc_minParticipants].
  destruct (clocked_getBlockClaimants rpc clock now h reads) as [_ Ha].
  set (found := ClockedMintTracker.getBlockClaimants rpc clock h reads) in *.
  assert (El : List.length (fst found)
               = List.length (getBlockClaimants rpc now h)).
  { apply (f_equal (@List.length string)) in Ha.
    now rewrite !length_map in Ha. }
  assert (Ec : totalClaimants
                 (participationSnapshot (clock (snd found)) h (fst found))
               = totalClaimants
                   (participationSnapshot now h (getBlockClaimants rpc now h))).
  { unfold participationSnapshot. cbn [totalClaimants]. now rewrite El. }
  rewrite Ec, Ha, Hu, Ht, Hp, Hm.
  split; [|repeat split].
  rewrite map_app, Hb. cbn [map].
  now rewrite (stampedAt_participationSnapshot now _ h _ _ El).
Qed.

Lemma clocked_fold_trendStep rpc clock now : forall hs st reads st',
  map (stampedAt now) (acc_blocks st) = acc_blocks st' ->
  acc_uniqueAddresses st = acc_uniqueAddresses st' ->
  acc_totalParticipants st = acc_totalParticipants st' ->
  acc_peakParticipants st = acc_peakParticipants st' ->
  acc_minParticipants st = acc_minParticipants st' ->
  let final :=
    fold_left (ClockedMintTracker.trendStep rpc clock) hs (st, reads) in
  let final' := fold_left (trendStep rpc now) hs st' in
  map (stampedAt now) (acc_blocks (fst final)) = acc_blocks final' /\
  acc_uniqueAddresses (fst final) = acc_uniqueAddresses final' /\
  acc_totalParticipants (fst final) = acc_totalParticipants final' /\
  acc_peakParticipants (fst final) = acc_peakParticipants final' /\
  acc_minParticipants (fst final) = acc_minParticipants final'.
Proof.
  induction hs as [|h hs IH]; intros st reads st' Hb Hu Ht Hp Hm;
    cbn [fold_left].
  - cbn zeta. cbn [fst]. repeat split; assumption.
  - destruct (clocked_trendStep rpc clock now st reads st' h Hb Hu Ht Hp Hm)
      as (Hb' & Hu' & Ht' & Hp' & Hm').
    destruct (ClockedMintTracker.trendStep rpc clock (st, reads) h)
      as [next reads'] eqn:En.
    cbn [fst] in *. now apply IH.
Qed.

(** The result of [getParticipationTrends] is that of [MintTracker], the
    time stamps of the snapshots apart. *)
Lemma clocked_getParticipationTrends rpc clock now startBlock endBlock reads :
  let trends :=
    fst (ClockedMintTracker.getParticipationTrends rpc clock
           startBlock endBlock reads) in
  let trends' := getParticipationTrends rpc now startBlock endBlock in
  map (stampedAt now) (blocks trends) = blocks trends' /\
  averageParticipants trends = averageParticipants trends' /\
  peakParticipants trends = peakParticipants trends' /\
  minParticipants trends = minParticipants trends' /\
  totalUniqueAddresses trends = totalUniqueAddresses trends'.
Proof.
  cbn zeta.
  unfold ClockedMintTracker.getParticipationTrends, getParticipationTrends.
  cbn [fst blocks averageParticipants peakParticipants minParticipants
       totalUniqueAddresses].
  set (hs := heightsFrom startBlock (Z.to_nat (endBlock - startBlock + 1))).
  set (st0 := {| acc_blocks := []; acc_uniqueAddresses := [];
                 acc_totalParticipants := 0; acc_peakParticipants := 0;
                 acc_minParticipants := MAX_SAFE_INTEGER |}).
  destruct (clocked_fold_trendStep rpc clock now hs st0 reads st0
              eq_refl eq_refl eq_refl eq_refl eq_refl)
    as (Hb & Hu & Ht & Hp & Hm).
  cbn zeta in Hb, Hu, Ht, Hp, Hm.
  now rewrite Hb, Hu, Ht, Hp, Hm.
Qed.

(** Every snapshot is stamped with a reading of its own, made after those
    of the snapshots before it. *)
Lemma clocked_fold_trendStep_stamps rpc clock : forall hs st reads,
  exists readings : list nat,
    map snapshotTimestamp
      (acc_blocks
         (fst (fold_left (ClockedMintTracker.trendStep rpc clock) hs
                 (st, reads))))
    = map snapshotTimestamp (acc_blocks st) ++ map clock readings /\
    List.length readings = List.length hs /\
    StronglySorted Nat.lt readings /\
    Forall (fun n => (reads <= n)%nat) readings.
Proof.
  induction hs as [|h hs IH]; intros st reads; cbn [fold_left].
  - exists []. cbn [fst map]. rewrite app_nil_r.
    repeat split; constructor.
  - destruct (clocked_getBlockClaimants rpc clock 0 h reads) as [Hr _].
    set (found := ClockedMintTracker.getBlockClaimants rpc clock h reads) in *.
    specialize (IH (fst (ClockedMintTracker.trendStep rpc clock (st, reads) h))
                  (S (snd found))).
    destruct IH as (readings & Hm & Hl & Hs & Hf).
    exists (snd found :: readings).
    replace (ClockedMintTracker.trendStep rpc clock (st, reads) h)
      with (fst (ClockedMintTracker.trendStep rpc clock (st, reads) h),
            S (snd found)) by reflexivity.
    rewrite Hm. cbn [ClockedMintTracker.trendStep fst snd acc_blocks].
    fold found. rewrite map_app, <- app_assoc. cbn [map app List.length].
    split; [reflexivity|]. split; [now rewrite Hl|]. split.
    + constructor; [exact Hs|].
      eapply Forall_impl; [|exact Hf]. cbn. intros n Hn. unfold Nat.lt. lia.
    + constructor; [exact Hr|].
      eapply Forall_impl; [|exact Hf]. cbn. intros n Hn. lia.
Qed.

Lemma map_totalClaimants_stampedAt now snapshots :
  map totalClaimants (map (stampedAt now) snapshots)
  = map totalClaimants snapshots.
Proof. rewrite map_map. now apply map_ext. Qed.

Lemma map_snapshotHeight_stampedAt now snapshots :
  map snapshotHeight (map (stampedAt now) snapshots)
  = map snapshotHeight snapshots.
Proof. rewrite map_map. now apply map_ext. Qed.

Lemma clocked_getParticipationTrends_stamps rpc clock startBlock endBlock reads :
  let trends :=
    fst (ClockedMintTracker.getParticipationTrends rpc clock
           startBlock endBlock reads) in
  exists readings : list nat,
    map snapshotTimestamp (blocks trends) = map clock readings /\
    StronglySorted Nat.lt readings /\
    Forall (fun n => (reads <= n)%nat) readings.
Proof.
  cbn zeta. unfold ClockedMintTracker.getParticipationTrends.
  cbn [fst blocks].
  destruct (clocked_fold_trendStep_stamps rpc clock
              (heightsFrom startBlock (Z.to_nat (endBlock - startBlock + 1)))
              {| acc_blocks := []; acc_uniqueAddresses := [];
                 acc_totalParticipants := 0; acc_peakParticipants := 0;
                 acc_minParticipants := MAX_SAFE_INTEGER |} reads)
    as (readings & Hm & _ & Hs & Hf).
  exists readings. cbn [acc_blocks map app] in Hm. now rewrite Hm.
Qed.

End TrackerViewFacts.

(** ** The order of the bracket indexes *)

Module BracketOrder.
Import JSNumber JSArray DistributionMetrics NumberSpec NumberFacts.
Import ExactNumbers BracketFacts.

Lemma pow2_gt_one n : 1 < 2 ^ n -> 0 < n.
Proof.
  intros H. destruct (Z_lt_le_dec 0 n) as [|Hn]; [assumption|exfalso].
  destruct (Z.eq_dec n 0) as [->|]; [cbn in H; lia|].
  rewrite Z.pow_neg_r in H by lia. lia.
Qed.

Lemma shr_fexp_upper m e l k :
  0 < m -> -1074 <= k -> m < 2 ^ (k - e) ->
  snd (shr_fexp prec emax m e l) <= k /\
  0 <= shr_m (fst (shr_fexp prec emax m e l))
    < 2 ^ (k - snd (shr_fexp prec emax m e l)).
Proof.
  intros Hm Hk Hv. destruct (shr_fexp_eq m e l ltac:(lia)) as [-> ->].
  assert (Hke : 0 < k - e) by (apply pow2_gt_one; lia).
  pose proof (Zdigits2_le m (k - e) Hm ltac:(lia) Hv) as Hd.
  set (e1 := Z.max e (fexp64 (Zdigits2 m + e))).
  assert (He1 : e <= e1 <= k) by (unfold e1, fexp64; lia).
  split; [lia|]. split.
  - apply Z.div_pos; [lia|]. apply pow2_pos. lia.
  - apply shift_upper_bound; try lia.
    now replace (e1 - e + (k - e1)) with (k - e) by lia.
Qed.

(** Rounding does not go above a power of two that the rounded value stays
    below, as long as that power is a binary64 number. *)
Lemma binary_round_aux_upper s m e l k :
  0 < m -> -1074 <= k <= 971 -> m < 2 ^ (k - e) ->
  binary_round_aux prec emax s m e l = S754_zero s \/
  exists m' e',
    binary_round_aux prec emax s m e l = S754_finite s m' e' /\
    Zpos m' <= 2 ^ (k - e') /\ e' <= k.
Proof.
  intros Hm Hk Hv. rewrite binary_round_aux_unfold. cbn zeta.
  destruct (shr_fexp_upper m e l k Hm ltac:(lia) Hv) as (He1 & Hq0 & Hq).
  set (r1 := shr_fexp prec emax m e l) in *.
  pose proof (round_nearest_even_bounds (shr_m (fst r1))
                (loc_of_shr_record (fst r1))) as Hr.
  set (m1 := round_nearest_even _ _) in *.
  set (e1 := snd r1) in *.
  assert (Hm1 : 0 <= m1 <= 2 ^ (k - e1)) by lia.
  destruct (shr_fexp_eq m1 e1 loc_Exact ltac:(lia)) as [Hm2 He2].
  set (r2 := shr_fexp prec emax m1 e1 loc_Exact) in *.
  destruct (Z.eq_dec m1 0) as [Hz|Hnz].
  { rewrite Hm2, Hz, Z.div_0_l; [now left|].
    apply Z.pow_nonzero; lia. }
  assert (Hd1 : Zdigits2 m1 <= k - e1 + 1).
  { apply Zdigits2_le; [lia|lia|].
    rewrite pow2_split by lia. change (2 ^ 1) with 2.
    pose proof (pow2_pos (k - e1) ltac:(lia)). lia. }
  assert (He2' : e1 <= snd r2 <= k) by (rewrite He2; unfold fexp64; lia).
  assert (Hb : shr_m (fst r2) <= 2 ^ (k - snd r2)).
  { rewrite Hm2, <- He2.
    apply Z.div_le_upper_bound; [apply pow2_pos; lia|].
    rewrite <- pow2_split by lia.
    now replace (snd r2 - e1 + (k - snd r2)) with (k - e1) by lia. }
  assert (H0 : 0 <= shr_m (fst r2)).
  { rewrite Hm2. apply Z.div_pos; [lia|]. apply pow2_pos. lia. }
  destruct (shr_m (fst r2)) as [|p|p] eqn:Ep; [now left| |lia].
  destruct (Z.leb_spec (snd r2) 971); [|lia].
  right. exists p, (snd r2). split; [reflexivity|]. split; [exact Hb|lia].
Qed.

(** The product of two positive numbers with full mantissas lies between
    two powers of two that their exponents fix. *)
Lemma mul_full_mantissas mx ex c ec :
  2 ^ 52 <= Zpos mx < 2 ^ 53 -> 2 ^ 52 <= Zpos c < 2 ^ 53 ->
  -1074 <= 104 + ex + ec -> 106 + ex + ec <= 971 ->
  exists m' e',
    mul (S754_finite false mx ex) (S754_finite false c ec)
    = S754_finite false m' e' /\
    2 ^ (104 + ex + ec - e') <= Zpos m' /\
    Zpos m' <= 2 ^ (106 + ex + ec - e') /\
    e' <= 106 + ex + ec /\
    Zpos m' < 2 ^ 53.
Proof.
  intros Hx Hc Hlo Hhi. unfold mul, SFmul. cbn [xorb].
  assert (E104 : 2 ^ 104 = 2 ^ 52 * 2 ^ 52) by reflexivity.
  assert (E106 : 2 ^ 106 = 2 ^ 53 * 2 ^ 53) by reflexivity.
  assert (Hp : 2 ^ 104 <= Zpos (mx * c) < 2 ^ 106).
  { rewrite Pos2Z.inj_mul, E104, E106. split.
    - apply Z.mul_le_mono_nonneg; try apply Hx; try apply Hc;
        apply Z.lt_le_incl, pow2_pos; lia.
    - apply Z.mul_lt_mono_nonneg; try apply Hx; try apply Hc; lia. }
  destruct (binary_round_aux_lower false (Zpos (mx * c)) (ex + ec) loc_Exact
              (104 + ex + ec) ltac:(lia) Hlo)
    as [Hinf|(m1 & e1 & E1 & Hl1 & Hb1)].
  { replace (104 + ex + ec - (ex + ec)) with 104 by lia. apply Hp. }
  - exfalso.
    destruct (binary_round_aux_upper false (Zpos (mx * c)) (ex + ec) loc_Exact
                (106 + ex + ec) ltac:(lia) ltac:(lia))
      as [Hz|(m2 & e2 & E2 & _)].
    { replace (106 + ex + ec - (ex + ec)) with 106 by lia. apply Hp. }
    + rewrite Hinf in Hz. discriminate.
    + rewrite Hinf in E2. discriminate.
  - destruct (binary_round_aux_upper false (Zpos (mx * c)) (ex + ec) loc_Exact
                (106 + ex + ec) ltac:(lia) ltac:(lia))
      as [Hz|(m2 & e2 & E2 & Hu2 & He2)].
    { replace (106 + ex + ec - (ex + ec)) with 106 by lia. apply Hp. }
    + rewrite E1 in Hz. discriminate.
    + rewrite E1 in E2. injection E2 as <- <-.
      exists m1, e1. repeat split; assumption.
Qed.

(** [Math.ceil] and the conversion to an integer keep a positive number on
    its side of a power of two. *)
Lemma toInteger_ceil_upper m e k :
  0 <= k < 53 -> Zpos m <= 2 ^ (k - e) -> e <= k ->
  exists z,
    toIntegerOrInfinity (ceil (S754_finite false m e)) = Integer z /\
    1 <= z <= 2 ^ k.
Proof.
  intros Hk Hv He. unfold ceil.
  assert (H53 : 2 ^ k < 2 ^ 53) by (apply Z.pow_lt_mono_r; lia).
  destruct (Z.leb_spec 0 e) as [He0|He0].
  - cbn [toIntegerOrInfinity cond_Zopp].
    destruct (Z.leb_spec 0 e); [|lia].
    exists (Zpos m * 2 ^ e). split; [reflexivity|].
    pose proof (pow2_pos e He0) as Hp. split; [nia|].
    assert (E : 2 ^ k = 2 ^ (k - e) * 2 ^ e)
      by (rewrite <- pow2_split by lia; f_equal; lia).
    rewrite E. apply Z.mul_le_mono_nonneg_r; lia.
  - cbn [negb cond_Zopp].
    pose proof (pow2_pos (- e) ltac:(lia)) as Hp.
    assert (Hq : - Zpos m / 2 ^ (- e) <= -1).
    { apply Z.lt_succ_r. apply Z.div_lt_upper_bound; lia. }
    assert (Hq' : - 2 ^ k <= - Zpos m / 2 ^ (- e)).
    { apply Z.div_le_lower_bound; [lia|].
      replace (k - e) with (- e + k) in Hv by lia.
      rewrite pow2_split in Hv by lia. lia. }
    set (z := - (- Zpos m / 2 ^ (- e))) in *.
    destruct (Z.eqb_spec z 0) as [|_]; [lia|].
    exists z. split; [|lia].
    apply toIntegerOrInfinity_ofZ. split; [lia|].
    apply Z.le_lt_trans with (2 ^ k); [lia|exact H53].
Qed.

Lemma toInteger_ceil_lower m e k :
  2 ^ (k - e) <= Zpos m -> Zpos m < 2 ^ 53 ->
  exists z,
    toIntegerOrInfinity (ceil (S754_finite false m e)) = Integer z /\
    1 <= z /\ 2 ^ k <= z.
Proof.
  intros Hv Hb. unfold ceil.
  destruct (Z.leb_spec 0 e) as [He0|He0].
  - cbn [toIntegerOrInfinity cond_Zopp].
    destruct (Z.leb_spec 0 e); [|lia].
    exists (Zpos m * 2 ^ e). split; [reflexivity|].
    pose proof (pow2_pos e He0) as Hp. split; [nia|].
    destruct (Z_lt_le_dec k 0) as [Hk|Hk];
      [rewrite (Z.pow_neg_r 2 k Hk); nia|].
    destruct (Z_lt_le_dec k e) as [Hlt|Hge].
    + assert (2 ^ k <= 2 ^ e) by (apply Z.pow_le_mono_r; lia). nia.
    + assert (E : 2 ^ k = 2 ^ (k - e) * 2 ^ e)
        by (rewrite <- pow2_split by lia; f_equal; lia).
      rewrite E. apply Z.mul_le_mono_nonneg_r; lia.
  - cbn [negb cond_Zopp].
    pose proof (pow2_pos (- e) ltac:(lia)) as Hp.
    assert (Hq1 : - Zpos m / 2 ^ (- e) <= -1).
    { apply Z.lt_succ_r. apply Z.div_lt_upper_bound; lia. }
    assert (Hq : - Zpos m / 2 ^ (- e) <= - 2 ^ k).
    { destruct (Z_lt_le_dec k 0) as [Hk|Hk];
        [rewrite (Z.pow_neg_r 2 k Hk); lia|].
      pose proof (pow2_pos k Hk) as Hpk.
      apply Z.lt_succ_r. apply Z.div_lt_upper_bound; [lia|].
      replace (k - e) with (- e + k) in Hv by lia.
      rewrite pow2_split in Hv by lia. lia. }
    assert (Hq' : - Zpos m <= - Zpos m / 2 ^ (- e)).
    { apply Z.div_le_lower_bound; [lia|]. nia. }
    set (z := - (- Zpos m / 2 ^ (- e))) in *.
    destruct (Z.eqb_spec z 0) as [|_]; [lia|].
    exists z. split; [|lia].
    apply toIntegerOrInfinity_ofZ. split; [lia|].
    apply Z.le_lt_trans with (Zpos m); [lia|exact Hb].
Qed.

(** The two bracket indexes of a length: integers, the one per cent index
    from 1 up and not above the ten per cent one, which is not above the
    length rounded up to a power of two. *)
Lemma bracket_indexes_ordered len :
  (1 <= len)%nat -> Z.of_nat len < 2 ^ 53 ->
  exists i1 i10,
    toIntegerOrInfinity (top1PercentIndex len) = Integer i1 /\
    toIntegerOrInfinity (top10PercentIndex len) = Integer i10 /\
    1 <= i1 <= i10.
Proof.
  intros Hlen Hsafe. unfold top1PercentIndex, top10PercentIndex.
  destruct (ofZ_small_mantissa (Z.of_nat len) ltac:(lia))
    as (mn & -> & _ & Hmn & Hd).
  set (d := Zdigits2 (Z.of_nat len)) in *.
  assert (P52 : 2 ^ 52 = 4503599627370496) by reflexivity.
  assert (P53 : 2 ^ 53 = 9007199254740992) by reflexivity.
  destruct (mul_full_mantissas mn (d - 53) 5764607523034235 (-59) Hmn)
    as (m1 & e1 & E1 & _ & Hu1 & He1 & _);
    [rewrite P52, P53; split;
       [apply Z.leb_le; reflexivity|apply Z.ltb_lt; reflexivity]|lia|lia|].
  destruct (mul_full_mantissas mn (d - 53) 7205759403792794 (-56) Hmn)
    as (m10 & e10 & E10 & Hl10 & _ & _ & Hb10);
    [rewrite P52, P53; split;
       [apply Z.leb_le; reflexivity|apply Z.ltb_lt; reflexivity]|lia|lia|].
  change (S754_finite false 5764607523034235 (-59)) with lit_0_01 in E1.
  change (S754_finite false 7205759403792794 (-56)) with lit_0_1 in E10.
  rewrite E1, E10.
  set (k := Z.max 0 (d - 6)).
  destruct (toInteger_ceil_upper m1 e1 k) as (i1 & Ei1 & Hi1);
    [unfold k; lia| |unfold k; lia|].
  { eapply Z.le_trans; [exact Hu1|].
    destruct (Z_lt_le_dec (106 + (d - 53) + -59 - e1) 0) as [Hn|Hp].
    - rewrite Z.pow_neg_r by exact Hn. apply Z.pow_nonneg. lia.
    - apply Z.pow_le_mono_r; unfold k; lia. }
  destruct (toInteger_ceil_lower m10 e10 (d - 5)) as (i10 & Ei10 & H1 & Hi10);
    [|exact Hb10|].
  { now replace (d - 5 - e10) with (104 + (d - 53) + -56 - e10) by lia. }
  exists i1, i10. split; [exact Ei1|]. split; [exact Ei10|].
  split; [lia|].
  destruct (Z_lt_le_dec (d - 6) 0) as [Hs|Hs].
  - replace k with 0 in Hi1 by (unfold k; lia). change (2 ^ 0) with 1 in Hi1.
    lia.
  - replace k with (d - 6) in Hi1 by (unfold k; lia).
    assert (2 ^ (d - 6) <= 2 ^ (d - 5)) by (apply Z.pow_le_mono_r; lia).
    lia.
Qed.

End BracketOrder.

(** ** Sorted holders, slices and histories *)

Module DistributionViewFacts.
Import JSNumber JSArray DistributionMetrics DistributionViewsSpec.
Import NumberSpec NumberFacts ExactNumbers BracketFacts BracketOrder.
Import GiniFacts StoreFacts.

(** *** Sorting *)

Lemma insertBy_perm {A} (cmp : A -> A -> Z) x : forall l,
  Permutation (insertBy cmp x l) (x :: l).
Proof.
  induction l as [|y l IH]; cbn [insertBy]; [reflexivity|].
  destruct (cmp x y <=? 0); [reflexivity|].
  rewrite IH. apply perm_swap.
Qed.

Lemma sort_perm {A} (cmp : A -> A -> Z) : forall l,
  Permutation (sort cmp l) l.
Proof.
  induction l as [|x l IH]; cbn [sort]; [reflexivity|].
  rewrite insertBy_perm. now constructor.
Qed.

Lemma compareDescending_le sigma a b :
  compareDescending sigma a b <= 0 <-> balance (sigma b) <= balance (sigma a).
Proof.
  unfold compareDescending.
  destruct (Z.ltb_spec (balance (sigma b)) (balance (sigma a)));
    [lia|destruct (Z.ltb_spec (balance (sigma a)) (balance (sigma b))); lia].
Qed.

Lemma insertBy_descending sigma x : forall l,
  descending sigma l ->
  descending sigma (insertBy (compareDescending sigma) x l).
Proof.
  unfold descending.
  induction l as [|y l IH]; intros Hs; cbn [insertBy].
  - repeat constructor.
  - apply StronglySorted_inv in Hs. destruct Hs as [Hl Hy].
    destruct (Z.leb_spec (compareDescending sigma x y) 0) as [Hc|Hc].
    + apply (proj1 (compareDescending_le sigma x y)) in Hc.
      constructor; [constructor; assumption|].
      constructor; [exact Hc|].
      rewrite Forall_forall in *. intros z Hz. specialize (Hy z Hz). lia.
    + assert (Hxy : balance (sigma x) <= balance (sigma y)).
      { destruct (Z_le_gt_dec (balance (sigma x)) (balance (sigma y)));
          [assumption|].
        exfalso. assert (compareDescending sigma x y <= 0); [|lia].
        apply compareDescending_le. lia. }
      constructor; [now apply IH|].
      rewrite Forall_forall in *. intros z Hz.
      apply insertBy_In in Hz. destruct Hz as [->|Hz]; [exact Hxy|auto].
Qed.

Lemma sort_descending sigma : forall l,
  descending sigma (sort (compareDescending sigma) l).
Proof.
  induction l as [|x l IH]; cbn [sort]; [constructor|].
  now apply insertBy_descending.
Qed.

Lemma compareAscending_le a b : compareAscending a b <= 0 <-> a <= b.
Proof.
  unfold compareAscending.
  destruct (Z.ltb_spec a b); [lia|destruct (Z.ltb_spec b a); lia].
Qed.

Lemma insertBy_ascending x : forall l,
  StronglySorted Z.le l ->
  StronglySorted Z.le (insertBy compareAscending x l).
Proof.
  induction l as [|y l IH]; intros Hs; cbn [insertBy].
  - repeat constructor.
  - apply StronglySorted_inv in Hs. destruct Hs as [Hl Hy].
    destruct (Z.leb_spec (compareAscending x y) 0) as [Hc|Hc].
    + apply (proj1 (compareAscending_le x y)) in Hc.
      constructor; [constructor; assumption|].
      constructor; [exact Hc|].
      rewrite Forall_forall in *. intros z Hz. specialize (Hy z Hz). lia.
    + assert (Hxy : y <= x).
      { destruct (Z_le_gt_dec y x); [assumption|].
        exfalso. assert (compareAscending x y <= 0); [|lia].
        apply compareAscending_le. lia. }
      constructor; [now apply IH|].
      rewrite Forall_forall in *. intros z Hz.
      apply insertBy_In in Hz. destruct Hz as [->|Hz]; [exact Hxy|auto].
Qed.

Lemma sort_ascending : forall l,
  StronglySorted Z.le (sort compareAscending l).
Proof.
  induction l as [|x l IH]; cbn [sort]; [constructor|].
  now apply insertBy_ascending.
Qed.

(** Two ascending lists with the same elements are the same list. *)
Lemma ascending_unique : forall l l',
  StronglySorted Z.le l -> StronglySorted Z.le l' -> Permutation l l' ->
  l = l'.
Proof.
  induction l as [|a l IH]; intros l' Hs Hs' Hp.
  - apply Permutation_nil in Hp. now subst.
  - destruct l' as [|b l'];
      [apply Permutation_sym, Permutation_nil in Hp; discriminate|].
    apply StronglySorted_inv in Hs. destruct Hs as [Hl Ha].
    apply StronglySorted_inv in Hs'. destruct Hs' as [Hl' Hb].
    rewrite Forall_forall in Ha, Hb.
    assert (Hab : a = b).
    { assert (Hin : In a (b :: l'))
        by (eapply Permutation_in; [exact Hp|now left]).
      assert (Hin' : In b (a :: l))
        by (eapply Permutation_in; [apply Permutation_sym; exact Hp|now left]).
      destruct Hin as [E|Hin]; [now subst|].
      destruct Hin' as [E|Hin']; [now subst|].
      specialize (Ha b Hin'). specialize (Hb a Hin). lia. }
    subst b. f_equal. apply IH; try assumption.
    now apply Permutation_cons_inv in Hp.
Qed.

Lemma sort_ascending_perm l l' :
  Permutation l l' -> sort compareAscending l = sort compareAscending l'.
Proof.
  intros Hp. apply ascending_unique; try apply sort_ascending.
  rewrite !sort_perm. exact Hp.
Qed.

(** *** Slices *)

Lemma slice_prefix {A} (l : list A) z :
  0 <= z ->
  slice l (Integer 0) (Integer z) = firstn (Z.to_nat z) l.
Proof.
  intros Hz. unfold slice. cbn [relativeIndex].
  destruct (Z.ltb_spec 0 0); [lia|].
  destruct (Z.ltb_spec z 0); [lia|].
  replace (Z.min 0 (Z.of_nat (List.length l))) with 0 by lia.
  cbn [Z.to_nat skipn]. rewrite Z.sub_0_r.
  replace (Z.max (Z.min z (Z.of_nat (List.length l))) 0)
    with (Z.min z (Z.of_nat (List.length l))) by lia.
  destruct (Z_le_gt_dec z (Z.of_nat (List.length l))) as [Hle|Hgt].
  - now rewrite Z.min_l by lia.
  - rewrite Z.min_r by lia. rewrite Nat2Z.id.
    rewrite !firstn_all2; [reflexivity|lia|lia].
Qed.

Lemma slice_partition {A} (l : list A) a b :
  0 <= a <= b ->
  slice l (Integer 0) (Integer a) ++ slice l (Integer a) (Integer b)
    ++ sliceFrom l (Integer b) = l.
Proof.
  intros Hab. rewrite slice_prefix by lia.
  unfold sliceFrom, slice. cbn [relativeIndex].
  set (len := Z.of_nat (List.length l)).
  assert (Hlen : 0 <= len) by (unfold len; lia).
  destruct (Z.ltb_spec a 0); [lia|]. destruct (Z.ltb_spec b 0); [lia|].
  destruct (Z.ltb_spec len 0); [lia|].
  rewrite (Z.min_id len).
  set (a' := Z.to_nat (Z.min a len)). set (b' := Z.to_nat (Z.min b len)).
  replace (Z.to_nat (Z.max (Z.min b len - Z.min a len) 0))
    with (b' - a')%nat by (unfold a', b'; lia).
  replace (Z.to_nat (Z.max (len - Z.min b len) 0))
    with (List.length l - b')%nat by (unfold b', len; lia).
  assert (Ha' : (a' <= b')%nat) by (unfold a', b'; lia).
  assert (Hb' : (b' <= List.length l)%nat) by (unfold b', len; lia).
  assert (Efirst : firstn (Z.to_nat a) l = firstn a' l).
  { destruct (Z_le_gt_dec a len) as [Hle|Hgt].
    - unfold a'. now rewrite Z.min_l by lia.
    - unfold a'. rewrite Z.min_r by lia. unfold len. rewrite Nat2Z.id.
      rewrite !firstn_all2; [reflexivity|lia|unfold len in Hgt; lia]. }
  rewrite Efirst.
  rewrite (firstn_all2 (n := List.length l - b') (skipn b' l))
    by (rewrite length_skipn; lia).
  rewrite <- (firstn_skipn a' l) at 4.
  f_equal.
  rewrite <- (firstn_skipn (b' - a') (skipn a' l)) at 2.
  f_equal. rewrite skipn_skipn. f_equal. lia.
Qed.

Lemma firstn_plus {A} (a k : nat) : forall l : list A,
  firstn (a + k) l = firstn a l ++ firstn k (skipn a l).
Proof.
  induction a as [|a IH]; intros l; [reflexivity|].
  destruct l as [|x l]; cbn [Nat.add firstn skipn app].
  - now rewrite firstn_nil.
  - now rewrite IH.
Qed.

Lemma descending_app sigma l1 l2 :
  descending sigma (l1 ++ l2) ->
  descending sigma l1 /\ descending sigma l2 /\
  forall x y, In x l1 -> In y l2 -> balance (sigma y) <= balance (sigma x).
Proof.
  unfold descending. induction l1 as [|a l1 IH]; cbn [app]; intros Hs.
  - split; [constructor|]. split; [exact Hs|]. intros x y [].
  - apply StronglySorted_inv in Hs. destruct Hs as [Hl Ha].
    destruct (IH Hl) as (H1 & H2 & H12).
    rewrite Forall_forall in Ha. split.
    + constructor; [exact H1|]. rewrite Forall_forall. intros z Hz.
      apply Ha. apply in_or_app. now left.
    + split; [exact H2|]. intros x y [<-|Hx] Hy.
      * apply Ha. apply in_or_app. now right.
      * now apply H12.
Qed.

Lemma sumHolderBalances_app sigma l1 l2 :
  sumHolderBalances sigma (l1 ++ l2)
  = sumHolderBalances sigma l1 + sumHolderBalances sigma l2.
Proof.
  induction l1 as [|a l1 IH]; cbn [app].
  - unfold sumHolderBalances at 2. cbn. lia.
  - rewrite !sumHolderBalances_cons, IH. lia.
Qed.

Lemma sumHolderBalances_nonneg sigma l :
  (forall r, In r l -> 0 <= balance (sigma r)) ->
  0 <= sumHolderBalances sigma l.
Proof.
  induction l as [|a l IH]; intros H.
  - unfold sumHolderBalances. cbn. lia.
  - rewrite sumHolderBalances_cons.
    assert (0 <= balance (sigma a)) by (apply H; now left).
    assert (0 <= sumHolderBalances sigma l)
      by (apply IH; intros r Hr; apply H; now right).
    lia.
Qed.

Lemma prefix_balances_mono sigma l a b :
  (forall r, In r l -> 0 <= balance (sigma r)) ->
  (a <= b)%nat ->
  0 <= sumHolderBalances sigma (firstn a l)
    <= sumHolderBalances sigma (firstn b l) /\
  sumHolderBalances sigma (firstn b l) <= sumHolderBalances sigma l.
Proof.
  intros Hnn Hab.
  assert (Hsplit : forall n,
            sumHolderBalances sigma l
            = sumHolderBalances sigma (firstn n l)
              + sumHolderBalances sigma (skipn n l)).
  { intros n. rewrite <- sumHolderBalances_app. now rewrite firstn_skipn. }
  assert (Hfirst : forall n, 0 <= sumHolderBalances sigma (firstn n l)).
  { intros n. apply sumHolderBalances_nonneg. intros r Hr.
    apply Hnn. rewrite <- (firstn_skipn n l). apply in_or_app. now left. }
  assert (Hskip : forall n, 0 <= sumHolderBalances sigma (skipn n l)).
  { intros n. apply sumHolderBalances_nonneg. intros r Hr.
    apply Hnn. rewrite <- (firstn_skipn n l). apply in_or_app. now right. }
  split; [split; [apply Hfirst|]|].
  - replace b with (a + (b - a))%nat by lia.
    rewrite firstn_plus, sumHolderBalances_app.
    assert (0 <= sumHolderBalances sigma (firstn (b - a) (skipn a l))).
    { apply sumHolderBalances_nonneg. intros r Hr. apply Hnn.
      rewrite <- (firstn_skipn a l). apply in_or_app. right.
      rewrite <- (firstn_skipn (b - a) (skipn a l)). apply in_or_app.
      now left. }
    lia.
  - rewrite (Hsplit b). specialize (Hskip b). lia.
Qed.

(** *** The brackets *)

Lemma top10PercentCount_eq_index len :
  (1 <= len)%nat ->
  top10PercentCount len = top10PercentIndex len.
Proof.
  intros Hlen. unfold top10PercentCount, top10PercentIndex.
  pose proof (ofZ_at_least_one (Z.of_nat len) ltac:(lia)) as H1.
  pose proof (mul_literal_positive (ofZ (Z.of_nat len))
                7205759403792794 (-56) H1 ltac:(lia) ltac:(lia)) as H2.
  change (S754_finite false 7205759403792794 (-56)) with lit_0_1 in H2.
  apply max_one_at_least_one.
  apply ceil_at_least_one; [exact H2|].
  intros m e E. unfold mul, lit_0_1 in E.
  destruct (ofZ (Z.of_nat len)) as [|[|]| |[|] mx ex]; try contradiction;
    try discriminate.
  unfold SFmul in E. cbn [xorb] in E.
  destruct (binary_round_aux_shape false (Zpos (mx * 7205759403792794))
              (ex + -56) loc_Exact ltac:(lia))
    as [H|[H|(m' & e' & H & Hb)]]; rewrite H in E; try discriminate.
  injection E as <- <-. exact Hb.
Qed.

Lemma array_length_safe n : n < 2 ^ 32 -> n < 2 ^ 53.
Proof.
  intros H. apply Z.lt_trans with (2 ^ 32); [exact H|reflexivity].
Qed.

(** *** The loop of the Nakamoto coefficient *)

Lemma firstn_cons_sum sigma x l (j : nat) :
  sumHolderBalances sigma (firstn (S j) (x :: l))
  = balance (sigma x) + sumHolderBalances sigma (firstn j l).
Proof. cbn [firstn]. apply sumHolderBalances_cons. Qed.

Lemma nakamotoLoop_spec sigma t : forall l cum c,
  exists n : nat,
    nakamotoLoop sigma t l cum c = c + Z.of_nat n /\
    (n <= List.length l)%nat /\
    (l <> [] -> (1 <= n)%nat) /\
    (forall j, (1 <= j < n)%nat ->
       cum + sumHolderBalances sigma (firstn j l) <= t) /\
    (t < cum + sumHolderBalances sigma (firstn n l) \/
     (n = List.length l /\
      forall j, (1 <= j <= n)%nat ->
        cum + sumHolderBalances sigma (firstn j l) <= t)).
Proof.
  induction l as [|x l IH]; intros cum c; cbn [nakamotoLoop].
  - exists 0%nat. split; [lia|]. split; [cbn; lia|].
    split; [intros H; contradiction|]. split; [intros j Hj; lia|].
    right. split; [reflexivity|]. intros j Hj; lia.
  - destruct (Z.ltb_spec t (cum + balance (sigma x))) as [Hgt|Hle].
    + exists 1%nat. split; [lia|]. split; [cbn; lia|]. split; [lia|].
      split; [intros j Hj; lia|]. left.
      rewrite firstn_cons_sum. cbn [firstn].
      unfold sumHolderBalances at 1. cbn [fold_left]. lia.
    + destruct (IH (cum + balance (sigma x)) (c + 1))
        as (n & E & Hn & _ & Hbelow & Hend).
      exists (S n). split; [lia|]. split; [cbn [List.length]; lia|].
      split; [lia|].
      assert (Hstep : forall j, (1 <= j)%nat ->
                cum + sumHolderBalances sigma (firstn j (x :: l))
                = cum + balance (sigma x)
                  + sumHolderBalances sigma (firstn (j - 1) l)).
      { intros j Hj. destruct j as [|j]; [lia|].
        rewrite firstn_cons_sum. replace (S j - 1)%nat with j by lia. lia. }
      split.
      * intros j Hj. rewrite Hstep by lia.
        destruct (Nat.eq_dec j 1) as [->|Hne].
        -- cbn [Nat.sub firstn]. unfold sumHolderBalances. cbn [fold_left]. lia.
        -- apply Hbelow. lia.
      * destruct Hend as [Hend|[-> Hend]].
        -- left. rewrite Hstep by lia.
           now replace (S n - 1)%nat with n by lia.
        -- right. split; [reflexivity|]. intros j Hj.
           rewrite Hstep by lia.
           destruct (Nat.eq_dec j 1) as [->|Hne].
           ++ cbn [Nat.sub firstn]. unfold sumHolderBalances.
              cbn [fold_left]. lia.
           ++ apply Hend. lia.
Qed.

(** *** The history of participants *)

Lemma existsb_eqb_iff x s :
  existsb (String.eqb x) s = true <-> In x s.
Proof.
  rewrite existsb_exists. split.
  - intros (y & Hin & E). apply String.eqb_eq in E. now subst.
  - intros Hin. exists x. split; [exact Hin|apply String.eqb_refl].
Qed.

Lemma fold_historyStep : forall addresses st,
  let st' := fold_left historyStep addresses st in
  exists first veteran,
    acc_firstTime st' = acc_firstTime st ++ first /\
    acc_veteran st' = acc_veteran st ++ veteran /\
    acc_historical st' = acc_historical st ++ first /\
    Permutation (first ++ veteran) addresses /\
    NoDup first /\
    (forall a, In a first <-> In a addresses /\ ~ In a (acc_historical st)) /\
    (forall a, In a veteran -> In a addresses).
Proof.
  induction addresses as [|x addresses IH]; intros st; cbn zeta;
    cbn [fold_left].
  - exists [], []. rewrite !app_nil_r.
    split; [reflexivity|]. split; [reflexivity|]. split; [reflexivity|].
    split; [constructor|]. split; [constructor|].
    split; [intros a; split; [intros []|intros [[] _]]|intros a []].
  - destruct (IH (historyStep st x))
      as (first & veteran & E1 & E2 & E3 & Hp & Hn & Hf & Hv).
    cbn zeta in E1, E2, E3.
    set (st1 := historyStep st x) in *.
    destruct (existsb (String.eqb x) (acc_historical st)) eqn:Ex.
    1: assert (Hst : acc_firstTime st1 = acc_firstTime st /\
                     acc_veteran st1 = acc_veteran st ++ [x] /\
                     acc_historical st1 = acc_historical st)
         by (unfold st1, historyStep; rewrite Ex; repeat split).
    2: assert (Hst : acc_firstTime st1 = acc_firstTime st ++ [x] /\
                     acc_veteran st1 = acc_veteran st /\
                     acc_historical st1 = acc_historical st ++ [x])
         by (unfold st1, historyStep; rewrite Ex; repeat split).
    all: destruct Hst as (H1 & H2 & H3); rewrite H1 in E1; rewrite H2 in E2;
      rewrite H3 in E3;
      assert (Hf' : forall a, In a first <->
                      In a addresses /\ ~ In a (acc_historical st1))
        by exact Hf;
      clear Hf; rewrite H3 in Hf'; rename Hf' into Hf.
    + apply existsb_eqb_iff in Ex.
      exists first, (x :: veteran).
      split; [exact E1|]. split; [now rewrite E2, <- app_assoc|].
      split; [exact E3|]. split.
      { rewrite <- Hp. apply Permutation_sym, Permutation_middle. }
      split; [exact Hn|]. split.
      * intros a. rewrite Hf. cbn [In]. split.
        -- intros [Ha Hnot]. split; [now right|exact Hnot].
        -- intros [[<-|Ha] Hnot]; [contradiction|split; assumption].
      * intros a [<-|Ha]; [now left|right; now apply Hv].
    + assert (Hx : ~ In x (acc_historical st)).
      { intros Hin. apply existsb_eqb_iff in Hin. congruence. }
      exists (x :: first), veteran.
      split; [now rewrite E1, <- app_assoc|]. split; [exact E2|].
      split; [now rewrite E3, <- app_assoc|]. split.
      { cbn [app]. now constructor. }
      split.
      { constructor; [|exact Hn]. intros Hin. apply Hf in Hin.
        destruct Hin as [_ Hnot]. apply Hnot. apply in_or_app. right.
        now left. }
      split.
      * intros a. cbn [In]. rewrite Hf. rewrite in_app_iff. cbn [In]. split.
        -- intros [<-|[Ha Hnot]]; [split; [now left|exact Hx]|].
           split; [now right|]. intros Hin. apply Hnot. now left.
        -- intros [[<-|Ha] Hnot]; [now left|].
           destruct (string_dec x a) as [->|Hne]; [now left|right].
           split; [exact Ha|]. intros [Hin|[E|[]]]; [contradiction|].
           now apply Hne.
      * intros a Ha. right. now apply Hv.
Qed.

(** *** Numbers that are not numbers *)

Lemma add_nan_l y : add S754_nan y = S754_nan.
Proof. reflexivity. Qed.

Lemma add_nan_r x : add x S754_nan = S754_nan.
Proof. now destruct x as [?|?| |? ? ?]. Qed.

Lemma mul_nan_l y : mul S754_nan y = S754_nan.
Proof. reflexivity. Qed.

Lemma mul_nan_r x : mul x S754_nan = S754_nan.
Proof. now destruct x as [?|?| |? ? ?]. Qed.

Lemma sub_nan_l y : sub S754_nan y = S754_nan.
Proof. reflexivity. Qed.

Lemma sub_nan_r x : sub x S754_nan = S754_nan.
Proof. now destruct x as [?|?| |? ? ?]. Qed.

Lemma div_nan_l y : div S754_nan y = S754_nan.
Proof. reflexivity. Qed.

Lemma fold_add_nan_acc l : fold_left add l S754_nan = S754_nan.
Proof. induction l as [|x l IH]; [reflexivity|exact IH]. Qed.

Lemma fold_add_nan l : forall acc,
  In S754_nan l -> fold_left add l acc = S754_nan.
Proof.
  induction l as [|x l IH]; intros acc Hin; [contradiction|].
  cbn [fold_left]. destruct Hin as [->|Hin].
  - rewrite add_nan_r. apply fold_add_nan_acc.
  - now apply IH.
Qed.

(** *** Negated indexes *)

Lemma toIntegerOrInfinity_opp x :
  toIntegerOrInfinity (SFopp x) =
  match toIntegerOrInfinity x with
  | NegInfinity => PosInfinity
  | Integer z => Integer (- z)
  | PosInfinity => NegInfinity
  end.
Proof.
  destruct x as [s|[|]| |[|] m e]; cbn [SFopp toIntegerOrInfinity negb cond_Zopp];
    try reflexivity.
  f_equal. lia.
Qed.

Lemma sliceFrom_last {A} (l : list A) w :
  0 <= w ->
  let len := Z.of_nat (List.length l) in
  let taken := if w =? 0 then len else Z.min w len in
  sliceFrom l (Integer (- w)) = skipn (Z.to_nat (len - taken)) l /\
  Z.of_nat (List.length (sliceFrom l (Integer (- w)))) = taken.
Proof.
  intros Hw len taken. unfold sliceFrom, slice. cbn [relativeIndex].
  fold len. assert (Hlen : 0 <= len) by (unfold len; lia).
  destruct (Z.ltb_spec len 0); [lia|]. rewrite Z.min_id.
  assert (Hk : (if - w <? 0 then Z.max (len + - w) 0 else Z.min (- w) len)
               = len - taken).
  { unfold taken. destruct (Z.eqb_spec w 0) as [->|Hnz].
    - cbn. lia.
    - destruct (Z.ltb_spec (- w) 0); lia. }
  rewrite Hk.
  assert (Ht : 0 <= taken <= len).
  { unfold taken. destruct (Z.eqb_spec w 0); lia. }
  replace (Z.max (len - (len - taken)) 0) with taken by lia.
  assert (Hskip : List.length (skipn (Z.to_nat (len - taken)) l)
                  = Z.to_nat taken).
  { rewrite length_skipn. unfold len in *. lia. }
  rewrite firstn_all2 by lia. split; [reflexivity|].
  rewrite Hskip. lia.
Qed.

(** *** The Gini coefficient of scaled balances *)

Lemma compareAscending_scale c a b :
  0 < c -> compareAscending (c * a) (c * b) = compareAscending a b.
Proof.
  intros Hc. unfold compareAscending.
  destruct (Z.ltb_spec a b), (Z.ltb_spec (c * a) (c * b)),
    (Z.ltb_spec b a), (Z.ltb_spec (c * b) (c * a));
    try reflexivity; nia.
Qed.

Lemma insertBy_scale c x l :
  0 < c ->
  insertBy compareAscending (c * x) (map (Z.mul c) l)
  = map (Z.mul c) (insertBy compareAscending x l).
Proof.
  intros Hc. induction l as [|y l IH]; [reflexivity|].
  cbn [map insertBy]. rewrite compareAscending_scale by exact Hc.
  destruct (compareAscending x y <=? 0); [reflexivity|].
  cbn [map]. now rewrite IH.
Qed.

Lemma sort_scale c l :
  0 < c ->
  sort compareAscending (map (Z.mul c) l)
  = map (Z.mul c) (sort compareAscending l).
Proof.
  intros Hc. induction l as [|x l IH]; [reflexivity|].
  cbn [map sort]. rewrite IH. now apply insertBy_scale.
Qed.

Lemma sumBalances_scale c l :
  sumBalances (map (Z.mul c) l) = c * sumBalances l.
Proof.
  unfold sumBalances. induction l as [|x l IH]; cbn [map fold_left]; [lia|].
  rewrite (fold_add_shift (map (Z.mul c) l) (0 + c * x)).
  rewrite (fold_add_shift l (0 + x)). rewrite IH. lia.
Qed.

Lemma weightedSumLoop_scale c l : forall i acc,
  weightedSumLoop i (map (Z.mul c) l) (c * acc)
  = c * weightedSumLoop i l acc.
Proof.
  induction l as [|x l IH]; intros i acc; cbn [map weightedSumLoop];
    [reflexivity|].
  rewrite <- IH. f_equal. lia.
Qed.

End DistributionViewFacts.

(** ** Numerals *)

Module BigIntUtilsFacts.
Import BigIntUtils BigIntUtilsSpec.

(** *** Minimum, maximum and average *)

Lemma fold_minmax : forall values acc,
  min acc <= max acc ->
  let r := fold_left
             (fun acc value =>
                {| min := if value <? min acc then value else min acc;
                   max := if max acc <? value then value else max acc |})
             values acc in
  min r <= min acc /\ max acc <= max r /\
  (forall v, In v values -> min r <= v <= max r) /\
  (min r = min acc \/ In (min r) values) /\
  (max r = max acc \/ In (max r) values).
Proof.
  induction values as [|x values IH]; intros acc Hacc; cbn zeta;
    cbn [fold_left].
  - split; [lia|]. split; [lia|]. split; [intros v []|]. split; now left.
  - set (acc' := {| min := if x <? min acc then x else min acc;
                    max := if max acc <? x then x else max acc |}).
    assert (Hacc' : min acc' <= max acc').
    { unfold acc'. cbn [min max].
      destruct (Z.ltb_spec x (min acc)), (Z.ltb_spec (max acc) x); lia. }
    destruct (IH acc' Hacc') as (Hmin & Hmax & Hall & Hmin' & Hmax').
    cbn zeta in Hmin, Hmax, Hall, Hmin', Hmax'.
    set (r := fold_left _ values acc') in *.
    assert (Ea : min acc' <= min acc /\ min acc' <= x /\
                 max acc <= max acc' /\ x <= max acc' /\
                 (min acc' = min acc \/ min acc' = x) /\
                 (max acc' = max acc \/ max acc' = x)).
    { unfold acc'. cbn [min max].
      destruct (Z.ltb_spec x (min acc)), (Z.ltb_spec (max acc) x); lia. }
    split; [lia|]. split; [lia|]. split.
    + intros v [<-|Hv]; [lia|now apply Hall].
    + split.
      * destruct Hmin' as [E|Hin]; [|right; now right].
        destruct Ea as (_ & _ & _ & _ & [E'|E'] & _);
          [left; lia|right; left; lia].
      * destruct Hmax' as [E|Hin]; [|right; now right].
        destruct Ea as (_ & _ & _ & _ & _ & [E'|E']);
          [left; lia|right; left; lia].
Qed.

(** The bounds of a non-empty array enclose its elements. *)
Lemma getMinMax_encloses first rest :
  let values := first :: rest in
  (forall v, In v values ->
     min (getMinMax values) <= v <= max (getMinMax values)) /\
  (min (getMinMax values) = first \/ In (min (getMinMax values)) values) /\
  (max (getMinMax values) = first \/ In (max (getMinMax values)) values).
Proof.
  cbn zeta. unfold getMinMax.
  destruct (fold_minmax (first :: rest) {| min := first; max := first |}
              ltac:(cbn; lia)) as (_ & _ & Hall & Hmin & Hmax).
  cbn zeta in Hall, Hmin, Hmax. cbn [min max] in Hmin, Hmax.
  split; [exact Hall|]. split; assumption.
Qed.

Lemma sumBigInt_shift values : forall a,
  fold_left (fun sum value => sum + value) values a
  = a + sumBigInt values.
Proof.
  unfold sumBigInt. induction values as [|x values IH]; intros a;
    cbn [fold_left]; [lia|].
  rewrite (IH (a + x)), (IH (0 + x)). lia.
Qed.

Lemma sumBigInt_bounds lo hi values :
  (forall v, In v values -> lo <= v <= hi) ->
  Z.of_nat (List.length values) * lo <= sumBigInt values
    <= Z.of_nat (List.length values) * hi.
Proof.
  induction values as [|x values IH]; intros H.
  - cbn. lia.
  - unfold sumBigInt. cbn [fold_left]. rewrite sumBigInt_shift.
    assert (lo <= x <= hi) by (apply H; now left).
    assert (Z.of_nat (List.length values) * lo <= sumBigInt values
            <= Z.of_nat (List.length values) * hi)
      by (apply IH; intros v Hv; apply H; now right).
    cbn [List.length]. lia.
Qed.

(** *** The characters of numerals *)

Lemma isDigit_spec c :
  isDigit c = true ->
  isWordChar c = true /\ isWhiteSpace c = false /\ Ascii.eqb c "," = false.
Proof.
  unfold isDigit, isWordChar, isWhiteSpace. intros H.
  apply andb_prop in H. destruct H as [H1 H2].
  apply Nat.leb_le in H1. apply Nat.leb_le in H2.
  split; [|split].
  - apply orb_true_intro. left. apply orb_true_intro. left.
    apply orb_true_intro. left.
    apply andb_true_intro. split; now apply Nat.leb_le.
  - repeat (apply orb_false_intro).
    + apply andb_false_intro2. apply Nat.leb_gt. lia.
    + apply Nat.eqb_neq. lia.
    + apply Nat.eqb_neq. lia.
  - destruct (Ascii.eqb_spec c ","%char) as [->|]; [|reflexivity].
    cbn in H1. lia.
Qed.

Lemma decimal_digits d :
  allDigits (DecimalString.NilEmpty.string_of_uint d) = true.
Proof. induction d; cbn; auto. Qed.

Lemma decimal_numeral_nonempty d :
  d <> Decimal.Nil ->
  exists c rest,
    DecimalString.NilEmpty.string_of_uint d = String c rest /\
    isDigit c = true /\ allDigits rest = true.
Proof.
  intros Hd. pose proof (decimal_digits d) as H.
  destruct d; try contradiction; cbn in *; eauto.
Qed.

(** The decimal numeral of a natural number: digits, at least one. *)
Lemma toString_nonneg v :
  0 <= v ->
  exists c rest,
    toString v = String c rest /\ isDigit c = true /\ allDigits rest = true.
Proof.
  intros Hv. unfold toString. destruct v as [|p|p]; [| |lia].
  - exists "0"%char, EmptyString. repeat split.
  - cbn [Z.to_int DecimalString.NilZero.string_of_int].
    pose proof (DecimalPos.Unsigned.to_uint_nonnil p) as Hn.
    unfold DecimalString.NilZero.string_of_uint.
    destruct (decimal_numeral_nonempty (Pos.to_uint p) Hn)
      as (c & rest & E & Hc & Hr).
    destruct (Pos.to_uint p); try contradiction; eauto.
Qed.

Lemma toString_neg v :
  v < 0 -> toString v = String "-" (toString (- v)).
Proof.
  intros Hv. destruct v as [|p|p]; try lia. reflexivity.
Qed.

(** *** Commas *)

Lemma allDigits_tail c s :
  allDigits (String c s) = true -> isDigit c = true /\ allDigits s = true.
Proof. cbn. intros H. now apply andb_prop in H. Qed.

Lemma removeSeparators_insertCommas : forall s before,
  allDigits s = true ->
  removeSeparators (insertCommas before s) = s.
Proof.
  induction s as [|c s IH]; intros before Hs.
  - cbn [insertCommas]. destruct (_ && _); reflexivity.
  - apply allDigits_tail in Hs. destruct Hs as [Hc Hs].
    destruct (isDigit_spec c Hc) as (_ & Hw & Hcomma).
    cbn [insertCommas].
    assert (E : removeSeparators (String c (insertCommas (Some c) s))
                = String c s).
    { cbn [removeSeparators]. rewrite Hcomma, Hw. cbn [orb].
      now rewrite IH. }
    destruct (_ && _); [cbn [removeSeparators]; cbn|]; exact E.
Qed.

(** The lookahead on a run of digits that reaches the end of the string:
    the run is not empty and its length is a multiple of three. *)
Lemma groupsOfThreeAhead_digits : forall s,
  allDigits s = true ->
  groupsOfThreeAhead s
  = (negb (String.length s =? 0) && (String.length s mod 3 =? 0))%nat.
Proof.
  assert (H : forall s, allDigits s = true ->
            (groupsOfThreeAhead s
             = (negb (String.length s =? 0)
                && (String.length s mod 3 =? 0))%nat) /\
            (forall c1, isDigit c1 = true ->
               groupsOfThreeAhead (String c1 s)
               = (String.length (String c1 s) mod 3 =? 0)%nat) /\
            (forall c1 c2, isDigit c1 = true -> isDigit c2 = true ->
               groupsOfThreeAhead (String c1 (String c2 s))
               = (String.length (String c1 (String c2 s)) mod 3 =? 0)%nat)).
  { induction s as [|c s IH]; intros Hs.
    - split; [reflexivity|]. split; reflexivity.
    - apply allDigits_tail in Hs. destruct Hs as [Hc Hs].
      destruct (IH Hs) as (H0 & H1 & H2).
      split; [|split].
      + rewrite (H1 c Hc). reflexivity.
      + intros c1 Hc1. apply (H2 c1 c Hc1 Hc).
      + intros c1 c2 Hc1 Hc2.
        cbn [groupsOfThreeAhead]. rewrite Hc1, Hc2, Hc. cbn [andb].
        cbn [String.length].
        replace (S (S (S (String.length s))) mod 3)%nat
          with (String.length s mod 3)%nat.
        2:{ change (S (S (S (String.length s))))
              with (3 + String.length s)%nat.
            rewrite <- (Nat.Div0.add_mod_idemp_l 3). reflexivity. }
        destruct s as [|c' s'].
        * reflexivity.
        * apply allDigits_tail in Hs. destruct Hs as [Hc' _].
          rewrite Hc'. cbn [negb orb]. rewrite H0. reflexivity. }
  intros s Hs. apply (H s Hs).
Qed.

Lemma insertCommas_digits : forall rest c,
  isDigit c = true -> allDigits rest = true ->
  String c (insertCommas (Some c) rest) = groupThousands (String c rest).
Proof.
  induction rest as [|c' rest IH]; intros c Hc Hrest.
  - cbn [insertCommas groupThousands String.length].
    destruct (isDigit_spec c Hc) as (Hw & _ & _).
    unfold notWordBoundary. rewrite Hw. reflexivity.
  - pose proof Hrest as Hrest'.
    apply allDigits_tail in Hrest'. destruct Hrest' as [Hc' Hr].
    destruct (isDigit_spec c Hc) as (Hw & _ & _).
    destruct (isDigit_spec c' Hc') as (Hw' & _ & _).
    pose proof (IH c' Hc' Hr) as IH'.
    remember (String c' rest) as s eqn:Es.
    assert (Eg : groupThousands (String c s)
                 = if (negb (String.length s =? 0)
                       && (String.length s mod 3 =? 0))%nat
                   then String c (String "," (groupThousands s))
                   else String c (groupThousands s)) by reflexivity.
    rewrite Eg, <- IH'.
    assert (Ei : insertCommas (Some c) s
                 = if notWordBoundary (Some c) s && groupsOfThreeAhead s
                   then String "," (String c' (insertCommas (Some c') rest))
                   else String c' (insertCommas (Some c') rest)).
    { rewrite Es. reflexivity. }
    rewrite Ei. rewrite (groupsOfThreeAhead_digits s Hrest).
    assert (Eb : notWordBoundary (Some c) s = true).
    { rewrite Es. unfold notWordBoundary. now rewrite Hw, Hw'. }
    rewrite Eb. cbn [andb].
    destruct (negb (String.length s =? 0) && (String.length s mod 3 =? 0))%nat;
      reflexivity.
Qed.

Lemma insertCommas_front before c rest :
  (match before with Some b => isWordChar b | None => false end) = false ->
  isDigit c = true -> allDigits rest = true ->
  insertCommas before (String c rest) = groupThousands (String c rest).
Proof.
  intros Hb Hc Hrest. rewrite <- (insertCommas_digits rest c Hc Hrest).
  destruct (isDigit_spec c Hc) as (Hw & _ & _).
  cbn [insertCommas]. unfold notWordBoundary. rewrite Hb, Hw. reflexivity.
Qed.

(** *** Hexadecimal numerals *)

Lemma hexadecimal_numeral d :
  trimEnd (HexadecimalString.NilEmpty.string_of_uint d)
  = HexadecimalString.NilEmpty.string_of_uint d /\
  lowerHex (HexadecimalString.NilEmpty.string_of_uint d)
  = HexadecimalString.NilEmpty.string_of_uint d.
Proof.
  induction d as [|d [IH1 IH2]|d [IH1 IH2]|d [IH1 IH2]|d [IH1 IH2]
                  |d [IH1 IH2]|d [IH1 IH2]|d [IH1 IH2]|d [IH1 IH2]
                  |d [IH1 IH2]|d [IH1 IH2]|d [IH1 IH2]|d [IH1 IH2]
                  |d [IH1 IH2]|d [IH1 IH2]|d [IH1 IH2]|d [IH1 IH2]];
    [split; reflexivity|..];
    cbn [HexadecimalString.NilEmpty.string_of_uint trimEnd lowerHex];
    rewrite IH1, IH2;
    (split; [destruct (HexadecimalString.NilEmpty.string_of_uint d)|];
     reflexivity).
Qed.

Lemma bigIntOfHex_numeral d :
  d <> Hexadecimal.Nil ->
  bigIntOfHex (HexadecimalString.NilEmpty.string_of_uint d)
  = Some (Z.of_N (N.of_hex_uint d)).
Proof.
  intros Hd. unfold bigIntOfHex.
  destruct (hexadecimal_numeral d) as [-> E].
  destruct (HexadecimalString.NilEmpty.string_of_uint d) as [|c s] eqn:Es.
  - destruct d; try contradiction; discriminate.
  - rewrite E, <- Es. now rewrite HexadecimalString.NilEmpty.usu.
Qed.

Lemma bigIntOfHex_sign s : bigIntOfHex (String "-" s) = None.
Proof.
  assert (Hsign : forall x, HexadecimalString.uint_of_char "-" x = None)
    by (intros [?|]; reflexivity).
  unfold bigIntOfHex. cbn [trimEnd].
  destruct (trimEnd s) as [|c t].
  - reflexivity.
  - cbn [lowerHex HexadecimalString.NilEmpty.uint_of_string].
    change (lowerHexDigit "-") with "-"%char.
    now rewrite Hsign.
Qed.

End BigIntUtilsFacts.

(** * The claims *)

(** ** Emission *)

Section EmissionClaims.
Import EmissionFacts TrackerFacts MintTracker TrackerSpec EmissionSpec.

(** C1, at the failing input.  One block before genesis the snapshot of
    [getParticipationTrends] distributes the full initial reward, and the
    snapshot [getCurrentBlockParticipation] builds when the node reports no
    tip (height 0) distributes eight times as much, while
    [calculateBlockReward] is 0 at both heights. *)
Theorem snapshot_total_before_genesis :
  forall (rpc : AlkanesRPCService) (now : Z),
    map totalDistributed (blocks (getParticipationTrends rpc now 799999 799999))
      = [5000000000] /\
    dieselEmissionCalculator.calculateBlockReward 799999 = 0 /\
    option_map totalDistributed (getCurrentBlockParticipation tiplessIndexer now)
      = Some 40000000000 /\
    dieselEmissionCalculator.calculateBlockReward 0 = 0.
Proof.
  intros rpc now. rewrite getParticipationTrends_blocks.
  repeat split; reflexivity.
Qed.

(** From genesis on, the snapshot distributes the reward of the emission
    calculator. *)
Lemma snapshot_total_from_genesis now h claimants :
  GENESIS_BLOCK DIESEL_CONSTANTS <= h ->
  totalDistributed (participationSnapshot now h claimants) =
  dieselEmissionCalculator.calculateBlockReward h.
Proof. intros Hh. now apply inlineBlockReward_from_genesis. Qed.

(** C2.  From genesis on, the iteration over epoch boundaries returns, and
    what it returns is the sum of the block rewards of the heights from
    genesis to [h], clamped to the maximal supply. *)
Theorem cumulative_emission_matches_reference :
  forall h : Z,
    GENESIS_BLOCK DIESEL_CONSTANTS <= h ->
    dieselEmissionCalculator.calculateCumulativeEmission h =
    Some (dieselEmissionCalculator.cumulativeEmissionReference h).
Proof.
  intros h Hh. cbn [GENESIS_BLOCK DIESEL_CONSTANTS] in Hh.
  rewrite cumulative_value, reference_value by assumption. reflexivity.
Qed.

Lemma cumulative_emission_matches_reference_witness :
  GENESIS_BLOCK DIESEL_CONSTANTS <= 1010000 /\
  dieselEmissionCalculator.calculateCumulativeEmission 1010000 =
  Some (dieselEmissionCalculator.cumulativeEmissionReference 1010000).
Proof.
  split; [cbn; lia|].
  apply (cumulative_emission_matches_reference 1010000). cbn. lia.
Defined.

(** The agreement rests on the shipped cap, which the first epoch already
    exceeds.  On the miniature schedule the iteration pays the block on a
    halving boundary at the reward of the epoch before it, so that it
    differs from the sum of the block rewards there, and decreases at the
    next height. *)
Remark boundary_block_on_miniature_schedule :
  EmissionCalculator.calculateCumulativeEmission miniatureSchedule 10 = Some 11 /\
  EmissionCalculator.cumulativeEmissionReference miniatureSchedule 10 = 10 /\
  EmissionCalculator.calculateCumulativeEmission miniatureSchedule 11 = Some 10.
Proof. repeat split; reflexivity. Qed.

(** C5.  From genesis on the cumulative emission does not decrease with the
    height, and at every height, before genesis too, it is at most the
    maximal supply. *)
Theorem cumulative_emission_monotone_bounded :
  forall h1 h2 h : Z,
    GENESIS_BLOCK DIESEL_CONSTANTS <= h1 -> h1 <= h2 ->
    exists e1 e2 e : Z,
      dieselEmissionCalculator.calculateCumulativeEmission h1 = Some e1 /\
      dieselEmissionCalculator.calculateCumulativeEmission h2 = Some e2 /\
      dieselEmissionCalculator.calculateCumulativeEmission h = Some e /\
      e1 <= e2 /\
      e <= MAX_SUPPLY DIESEL_CONSTANTS.
Proof.
  intros h1 h2 h H1 H12. cbn [GENESIS_BLOCK MAX_SUPPLY DIESEL_CONSTANTS] in *.
  rewrite (cumulative_value h1), (cumulative_value h2) by lia.
  destruct (Z_lt_le_dec h 800000) as [Hb|Ha].
  - exists (Z.min ((h1 - 800000 + 1) * 5000000000) 156250000000000),
           (Z.min ((h2 - 800000 + 1) * 5000000000) 156250000000000), 0.
    repeat split; try lia.
    unfold dieselEmissionCalculator.calculateCumulativeEmission,
      EmissionCalculator.calculateCumulativeEmission.
    cbn [GENESIS_BLOCK DIESEL_CONSTANTS].
    destruct (Z.ltb_spec h 800000); [reflexivity|lia].
  - rewrite (cumulative_value h) by lia.
    do 3 eexists. repeat split; lia.
Qed.

Lemma cumulative_emission_monotone_bounded_witness :
  GENESIS_BLOCK DIESEL_CONSTANTS <= 800000 /\ 800000 <= 900000 /\
  exists e1 e2 e : Z,
    dieselEmissionCalculator.calculateCumulativeEmission 800000 = Some e1 /\
    dieselEmissionCalculator.calculateCumulativeEmission 900000 = Some e2 /\
    dieselEmissionCalculator.calculateCumulativeEmission 0 = Some e /\
    e1 <= e2 /\
    e <= MAX_SUPPLY DIESEL_CONSTANTS.
Proof.
  split; [cbn; lia|]. split; [lia|].
  apply (cumulative_emission_monotone_bounded 800000 900000 0); cbn; lia.
Defined.

End EmissionClaims.

(** ** Participation *)

Section TrackerClaims.
Import EmissionFacts TrackerFacts MintTracker TrackerSpec.

Lemma participationSnapshot_splitsEqually now h claimants :
  splitsEqually (participationSnapshot now h claimants).
Proof.
  destruct (snapshot_split now h claimants) as (_ & _ & H0 & Hq & Hle & Hd).
  unfold splitsEqually. cbn zeta. repeat split; try assumption.
  - now apply Hq.
  - specialize (Hq H). lia.
  - now apply Hd.
Qed.

(** C3, as stated, fails for a block without claimants: nothing is paid
    out, the whole reward is dust, and the dust is not below the number of
    claimants. *)
Lemma dust_with_no_claimants :
  let s := participationSnapshot 0 800000 [] in
  totalClaimants s = 0 /\
  totalDistributed s - rewardPerClaimant s * totalClaimants s = 5000000000 /\
  ~ (totalDistributed s - rewardPerClaimant s * totalClaimants s
     < totalClaimants s).
Proof. cbn. split; [reflexivity|]. split; [reflexivity|lia]. Qed.

(** C3, amended.  [calculateRewardPerClaimant R k] is the floor of [R / k]
    for [R >= 0] and [k > 0], and 0 for [k = 0]; every snapshot of
    [getParticipationTrends] and of [getCurrentBlockParticipation] pays
    [rewardPerClaimant] to each of its [k] claimants, in total no more than
    [totalDistributed], and for [k > 0] the dust left over is less than
    [k]. *)
Theorem equal_split_with_dust :
  forall (R k : Z) (rpc : AlkanesRPCService) (now startBlock endBlock : Z)
         (s : ParticipationData),
    0 <= R ->
    In s (blocks (getParticipationTrends rpc now startBlock endBlock)) \/
    getCurrentBlockParticipation rpc now = Some s ->
    (0 < k -> calculateRewardPerClaimant R k = R / k) /\
    (k = 0 -> calculateRewardPerClaimant R k = 0) /\
    splitsEqually s.
Proof.
  intros R k rpc now startBlock endBlock s HR Hs.
  split; [intros Hk; now apply calculateRewardPerClaimant_floor|].
  split; [intros ->; reflexivity|].
  destruct Hs as [Hin|Hcur].
  - rewrite getParticipationTrends_blocks in Hin.
    apply in_map_iff in Hin. destruct Hin as (h & <- & _).
    apply participationSnapshot_splitsEqually.
  - unfold getCurrentBlockParticipation in Hcur.
    destruct (getBlockchainInfo rpc) as [[v|]|]; try discriminate.
    destruct (toBigInt v) as [h|]; try discriminate.
    injection Hcur as <-. apply participationSnapshot_splitsEqually.
Qed.

Lemma equal_split_with_dust_witness :
  0 <= 10 /\
  (In (participationSnapshot 0 800000
         (getBlockClaimants (treasuryIndexer 7 800000) 0 800000))
      (blocks (getParticipationTrends (treasuryIndexer 7 800000) 0
                 800000 800000)) \/
   getCurrentBlockParticipation (treasuryIndexer 7 800000) 0 =
   Some (participationSnapshot 0 800000
           (getBlockClaimants (treasuryIndexer 7 800000) 0 800000))) /\
  (0 < 3 -> calculateRewardPerClaimant 10 3 = 10 / 3) /\
  (3 = 0 -> calculateRewardPerClaimant 10 3 = 0) /\
  splitsEqually
    (participationSnapshot 0 800000
       (getBlockClaimants (treasuryIndexer 7 800000) 0 800000)).
Proof.
  split; [lia|]. split; [right; reflexivity|].
  apply (equal_split_with_dust 10 3 (treasuryIndexer 7 800000) 0 800000 800000);
    [lia|right; reflexivity].
Defined.

(** C4, as stated, fails: when the claimant lookup fails, the tracker
    returns the snapshot of a block without claimants, the same snapshot it
    returns against an indexer that has the block and knows of no claim in
    it. *)
Lemma failed_lookup_reported_as_empty_block :
  protorunesByHeight (unavailableIndexer 900000) 900000 = Threw /\
  option_map totalClaimants
    (getCurrentBlockParticipation (unavailableIndexer 900000) 0) = Some 0 /\
  getCurrentBlockParticipation (unavailableIndexer 900000) 0 =
  getCurrentBlockParticipation (emptyIndexer 900000) 0 /\
  map totalClaimants
    (blocks (getParticipationTrends (unavailableIndexer 900000) 0
               900000 900000)) = [0].
Proof. repeat split; reflexivity. Qed.

(** C4, amended.  When the claimant lookup for a block height fails, or
    answers with something that is not an array, [getBlockClaimants]
    returns the empty list and the tracker reports the snapshot of a block
    without claimants, with no claimant and no reward per claimant: as the
    snapshot of that height in [getParticipationTrends], and, when the node
    names that height as its tip, as the result of
    [getCurrentBlockParticipation], which is then a snapshot and not
    [null].  The two calls read the clock on their own. *)
Theorem failed_lookup_is_empty_block :
  forall (rpc : AlkanesRPCService) (now now' h : Z),
    0 <= h ->
    protorunesByHeight rpc h = Threw \/
    protorunesByHeight rpc h = Returned NoResponse \/
    protorunesByHeight rpc h = Returned NotAnArray ->
    getBlockClaimants rpc now h = [] /\
    blocks (getParticipationTrends rpc now h h) =
      [participationSnapshot now h []] /\
    totalClaimants (participationSnapshot now h []) = 0 /\
    rewardPerClaimant (participationSnapshot now h []) = 0 /\
    (getBlockchainInfo rpc = Returned (Some (Integral h)) ->
     getCurrentBlockParticipation rpc now' =
     Some (participationSnapshot now' h [])).
Proof.
  intros rpc now now' h Hh Hfail.
  assert (Hc : forall clock, getBlockClaimants rpc clock h = []).
  { intros clock. unfold getBlockClaimants, getBlockClaimants_try.
    destruct Hfail as [-> | [-> | ->]]; reflexivity. }
  split; [apply Hc|]. split.
  { rewrite getParticipationTrends_blocks.
    replace (h - h + 1) with 1 by lia. change (Z.to_nat 1) with 1%nat.
    cbn [heightsFrom map]. now rewrite Hc. }
  split; [reflexivity|]. split; [reflexivity|].
  intros Hinfo. unfold getCurrentBlockParticipation. rewrite Hinfo.
  cbn [toBigInt]. now rewrite Hc.
Qed.

Lemma failed_lookup_is_empty_block_witness :
  0 <= 900000 /\
  (protorunesByHeight (unavailableIndexer 900000) 900000 = Threw \/
   protorunesByHeight (unavailableIndexer 900000) 900000 = Returned NoResponse \/
   protorunesByHeight (unavailableIndexer 900000) 900000 = Returned NotAnArray) /\
  getBlockClaimants (unavailableIndexer 900000) 0 900000 = [] /\
  blocks (getParticipationTrends (unavailableIndexer 900000) 0 900000 900000) =
    [participationSnapshot 0 900000 []] /\
  totalClaimants (participationSnapshot 0 900000 []) = 0 /\
  rewardPerClaimant (participationSnapshot 0 900000 []) = 0 /\
  (getBlockchainInfo (unavailableIndexer 900000)
     = Returned (Some (Integral 900000)) ->
   getCurrentBlockParticipation (unavailableIndexer 900000) 1 =
   Some (participationSnapshot 1 900000 [])).
Proof.
  split; [lia|]. split; [left; reflexivity|].
  apply (failed_lookup_is_empty_block (unavailableIndexer 900000) 0 1 900000);
    [lia|left; reflexivity].
Defined.

(** The cap of [getTreasuryParticipation] on the reward the tracker
    computes in place: the reported amount is the smaller of the treasury's
    claim and half of that reward. *)
Lemma treasury_share_capped rpc now treasury h :
  getTreasuryParticipation rpc now treasury h =
  Z.min (rawTreasuryClaim treasury (getBlockClaimants rpc now h))
        (inlineBlockReward h / 2).
Proof.
  unfold getTreasuryParticipation, rawTreasuryClaim.
  pose proof (inlineBlockReward_nonneg h) as HR.
  destruct (find _ _) as [c|].
  - rewrite div_nonneg_floor by lia.
    destruct (Z.ltb_spec (inlineBlockReward h / 2) (amount c)); lia.
  - assert (0 <= inlineBlockReward h / 2) by (apply Z.div_pos; lia). lia.
Qed.

(** From genesis on that is the cap on the reward of the emission
    calculator. *)
Lemma treasury_share_capped_from_genesis rpc now treasury h :
  GENESIS_BLOCK DIESEL_CONSTANTS <= h ->
  getTreasuryParticipation rpc now treasury h =
  Z.min (rawTreasuryClaim treasury (getBlockClaimants rpc now h))
        (dieselEmissionCalculator.calculateBlockReward h / 2).
Proof.
  intros Hh. rewrite treasury_share_capped.
  now rewrite inlineBlockReward_from_genesis.
Qed.

(** C8, at the failing input.  One block before genesis, where the block
    reward is 0, a treasury claim of one unit is reported in full. *)
Theorem treasury_share_before_genesis :
  rawTreasuryClaim "treasury"
    (getBlockClaimants (treasuryIndexer 1 799999) 0 799999) = 1 /\
  dieselEmissionCalculator.calculateBlockReward 799999 = 0 /\
  getTreasuryParticipation (treasuryIndexer 1 799999) 0 "treasury" 799999 = 1 /\
  Z.min 1 (dieselEmissionCalculator.calculateBlockReward 799999 / 2) = 0.
Proof. repeat split; reflexivity. Qed.

End TrackerClaims.

(** ** Distribution *)

Section DistributionClaims.
Import JSNumber JSArray DistributionMetrics.
Import NumberSpec GiniSpec StoreSpec NumberFacts GiniFacts BracketFacts StoreFacts.

Lemma gini_in_unit_interval balances :
  Z.of_nat (List.length balances) < 2 ^ 32 ->
  leb zero (calculateGiniCoefficient balances) = true /\
  leb (calculateGiniCoefficient balances) one = true.
Proof.
  intros Hlen. unfold calculateGiniCoefficient.
  destruct balances as [|a [|b rest]]; [split; reflexivity..|].
  set (l := a :: b :: rest) in *.
  destruct (sumBalances (sort compareAscending l) =? 0); [split; reflexivity|].
  rewrite sort_length.
  set (n := Z.of_nat (List.length l)) in *.
  assert (Hn : 2 <= n) by (unfold n, l; cbn [List.length]; lia).
  apply clamp_in_unit_interval. apply sub_finite_not_nan.
  - apply div_by_finite_not_nan. apply ofZ_not_nan.
  - destruct (div_ofZ_ge_unit (2 ^ 52) (n + 1) n) as (m & e & -> & _);
      try lia; reflexivity.
Qed.

Lemma gini_equal_balances n x :
  (1 <= n)%nat -> Z.of_nat n < 2 ^ 32 -> 0 <= x ->
  calculateGiniCoefficient (repeat x n) = zero.
Proof.
  intros Hn Hlen Hx.
  destruct n as [|[|n]]; [lia|reflexivity|].
  destruct (Z.eq_dec x 0) as [->|Hnz].
  - set (k := S (S n)). change (repeat 0 k) with (0 :: 0 :: repeat 0 n) at 1.
    unfold calculateGiniCoefficient.
    change (0 :: 0 :: repeat 0 n) with (repeat 0 k).
    rewrite sort_repeat, sumBalances_repeat.
    now rewrite Z.mul_0_r.
  - rewrite gini_repeat by lia.
    apply giniOfEqualBalances_zero. lia.
Qed.

(** C6.  An array has fewer than [2^32] elements.  The Gini coefficient of
    [n >= 1] copies of a balance [x >= 0] is [+0], and the Gini coefficient
    of any array of balances is a number from 0 to 1. *)
Theorem gini_equal_balances_zero_and_bounded :
  forall (n : nat) (x : Z) (balances : list Z),
    (1 <= n)%nat -> Z.of_nat n < 2 ^ 32 -> 0 <= x ->
    Z.of_nat (List.length balances) < 2 ^ 32 ->
    calculateGiniCoefficient (repeat x n) = zero /\
    leb zero (calculateGiniCoefficient balances) = true /\
    leb (calculateGiniCoefficient balances) one = true.
Proof.
  intros n x balances Hn Hlen Hx Hb.
  split; [now apply gini_equal_balances|now apply gini_in_unit_interval].
Qed.

Lemma gini_equal_balances_zero_and_bounded_witness :
  (1 <= 3)%nat /\ Z.of_nat 3 < 2 ^ 32 /\ 0 <= 7 /\
  Z.of_nat (List.length [1; 1; 1; 97]) < 2 ^ 32 /\
  calculateGiniCoefficient (repeat 7 3) = zero /\
  leb zero (calculateGiniCoefficient [1; 1; 1; 97]) = true /\
  leb (calculateGiniCoefficient [1; 1; 1; 97]) one = true.
Proof.
  split; [lia|]. split; [reflexivity|]. split; [lia|]. split; [reflexivity|].
  apply (gini_equal_balances_zero_and_bounded 3 7 [1; 1; 1; 97]);
    [lia|reflexivity|lia|reflexivity].
Defined.

Lemma whales_are_top1PercentHolders sigma balances :
  whales (snd (categorizeHolders sigma balances)) =
  top1PercentHolders sigma balances.
Proof.
  destruct balances as [|a rest]; [reflexivity|].
  unfold categorizeHolders, top1PercentHolders. cbn [snd whales].
  set (sorted := sort (compareDescending sigma) (a :: rest)).
  assert (Hlen : (1 <= List.length sorted)%nat)
    by (unfold sorted; rewrite sort_length; cbn [List.length]; lia).
  destruct (top1PercentCount_eq_index _ Hlen) as [-> _]. reflexivity.
Qed.

(** C7.  The whales of [categorizeHolders] are the holders whose balances
    [calculateConcentrationMetrics] adds up for [top1PercentShare]: the two
    brackets have the same size, which is at least 1 for a non-empty
    list. *)
Theorem whales_match_top1_bracket :
  forall (sigma : store) (balances : list ref),
    List.length (whales (snd (categorizeHolders sigma balances))) =
    List.length (top1PercentHolders sigma balances) /\
    (sumHolderBalances sigma balances <> 0 ->
     top1PercentShare (calculateConcentrationMetrics sigma balances) =
     div (ofZ (BigInt.div
                 (sumHolderBalances sigma (top1PercentHolders sigma balances)
                  * 10000)
                 (sumHolderBalances sigma balances)))
         (ofZ 100)) /\
    (balances <> [] ->
     (1 <= List.length (whales (snd (categorizeHolders sigma balances))))%nat).
Proof.
  intros sigma balances. rewrite whales_are_top1PercentHolders.
  split; [reflexivity|]. split.
  - intros Hsum. destruct balances as [|a rest]; [contradiction|].
    unfold calculateConcentrationMetrics.
    rewrite sumHolderBalances_sort.
    destruct (Z.eqb_spec (sumHolderBalances sigma (a :: rest)) 0);
      [contradiction|reflexivity].
  - intros Hne. unfold top1PercentHolders.
    set (sorted := sort (compareDescending sigma) balances).
    assert (Hlen : (1 <= List.length sorted)%nat).
    { unfold sorted. rewrite sort_length.
      destruct balances; [contradiction|cbn [List.length]; lia]. }
    destruct (top1PercentCount_eq_index _ Hlen) as [-> H1].
    apply slice_head_nonempty.
    + intros E. rewrite E in Hlen. cbn in Hlen. lia.
    + now apply toInteger_at_least_one.
Qed.

Lemma whales_match_top1_bracket_witness :
  sumHolderBalances exampleStore [0; 1; 2]%nat <> 0 /\
  [0; 1; 2]%nat <> [] /\
  List.length (whales (snd (categorizeHolders exampleStore [0; 1; 2]%nat))) =
  List.length (top1PercentHolders exampleStore [0; 1; 2]%nat) /\
  (sumHolderBalances exampleStore [0; 1; 2]%nat <> 0 ->
   top1PercentShare (calculateConcentrationMetrics exampleStore [0; 1; 2]%nat) =
   div (ofZ (BigInt.div
               (sumHolderBalances exampleStore
                  (top1PercentHolders exampleStore [0; 1; 2]%nat) * 10000)
               (sumHolderBalances exampleStore [0; 1; 2]%nat)))
       (ofZ 100)) /\
  ([0; 1; 2]%nat <> [] ->
   (1 <= List.length
           (whales (snd (categorizeHolders exampleStore [0; 1; 2]%nat))))%nat).
Proof.
  split; [discriminate|]. split; [discriminate|].
  apply (whales_match_top1_bracket exampleStore [0; 1; 2]%nat).
Defined.

(** C9.  On the empty input every operation returns its default: the Gini
    coefficient is 0, there are no whales, dolphins or shrimp, the total
    supply and the holder count are 0, the three concentration metrics are
    0, the moving average is 0; the trend is stable with a predicted
    coefficient of one half, and nobody is a first-time or veteran minter.
    The store and the set of historical participants are left as they
    were. *)
Theorem empty_input_defaults :
  forall (sigma : store) (windowSize periods : number)
         (historicalParticipants : list string),
    calculateGiniCoefficient [] = zero /\
    categorizeHolders sigma [] =
      (sigma,
       {| whales := []; dolphins := []; shrimp := [];
          totalSupply := 0; holderCount := 0 |}) /\
    calculateConcentrationMetrics sigma [] =
      {| top1PercentShare := zero; top10PercentShare := zero;
         nakamotoCoefficient := 0 |} /\
    calculateMovingAverageGini [] windowSize = zero /\
    predictDistributionTrend [] periods = (stable, lit_0_5) /\
    analyzeParticipantHistory [] historicalParticipants =
      ({| firstTimeMinters := []; veteranMinters := [];
          totalParticipants := 0; newParticipantRate := zero |},
       historicalParticipants).
Proof. intros. repeat split; reflexivity. Qed.

(** C10.  For a non-empty list of holders with a positive total supply,
    [categorizeHolders] leaves behind a store in which every holder of the
    list has the percentage of its balance, [Number(balance * 10000n /
    totalSupply) / 100], and the address and the balance it had; holders
    that are not in the list are as they were. *)
Theorem categorizeHolders_writes_percentages :
  forall (sigma : store) (balances : list ref),
    balances <> [] ->
    0 < sumHolderBalances sigma balances ->
    let sigma' := fst (categorizeHolders sigma balances) in
    totalSupply (snd (categorizeHolders sigma balances)) =
      sumHolderBalances sigma balances /\
    (forall holder : ref,
       In holder balances ->
       percentage (sigma' holder) =
         div (ofZ (BigInt.div (balance (sigma holder) * 10000)
                              (sumHolderBalances sigma balances)))
             (ofZ 100) /\
       address (sigma' holder) = address (sigma holder) /\
       balance (sigma' holder) = balance (sigma holder)) /\
    (forall other : ref, ~ In other balances -> sigma' other = sigma other).
Proof.
  intros sigma balances Hne Hpos sigma'.
  destruct balances as [|a rest]; [contradiction|].
  unfold sigma', categorizeHolders. cbn [fst snd totalSupply].
  set (l := a :: rest) in *.
  rewrite sumHolderBalances_sort.
  split; [reflexivity|]. split.
  - intros holder Hin.
    destruct (fold_writePercentage_frame (sumHolderBalances sigma l)
                (sort (compareDescending sigma) l) sigma holder)
      as (Ha & Hb & _).
    rewrite fold_writePercentage_written by (now apply sort_In).
    split; [|split; assumption].
    unfold percentageOf. destruct (Z.ltb_spec 0 (sumHolderBalances sigma l));
      [reflexivity|lia].
  - intros other Hnot.
    destruct (fold_writePercentage_frame (sumHolderBalances sigma l)
                (sort (compareDescending sigma) l) sigma other)
      as (_ & _ & Hf).
    apply Hf. now rewrite sort_In.
Qed.

(** On the example store the call changes the caller's objects: holder 2,
    who owns 3 of the 6 units, has a percentage of 0 before the call and of
    50 after it. *)
Remark categorizeHolders_changes_the_store :
  percentage (exampleStore 2%nat) = zero /\
  percentage (fst (categorizeHolders exampleStore [0; 1; 2]%nat) 2%nat)
    = ofZ 50.
Proof. split; reflexivity. Qed.

Lemma categorizeHolders_writes_percentages_witness :
  [0; 1; 2]%nat <> [] /\
  0 < sumHolderBalances exampleStore [0; 1; 2]%nat /\
  let sigma' := fst (categorizeHolders exampleStore [0; 1; 2]%nat) in
  totalSupply (snd (categorizeHolders exampleStore [0; 1; 2]%nat)) =
    sumHolderBalances exampleStore [0; 1; 2]%nat /\
  (forall holder : ref,
     In holder [0; 1; 2]%nat ->
     percentage (sigma' holder) =
       div (ofZ (BigInt.div (balance (exampleStore holder) * 10000)
                            (sumHolderBalances exampleStore [0; 1; 2]%nat)))
           (ofZ 100) /\
     address (sigma' holder) = address (exampleStore holder) /\
     balance (sigma' holder) = balance (exampleStore holder)) /\
  (forall other : ref,
     ~ In other [0; 1; 2]%nat -> sigma' other = exampleStore other).
Proof.
  split; [discriminate|]. split; [reflexivity|].
  apply (categorizeHolders_writes_percentages exampleStore [0; 1; 2]%nat);
    [discriminate|reflexivity].
Defined.

End DistributionClaims.

(** * Further properties of the code *)

(** ** The emission calculator *)

Section EmissionProperties.
Import JSNumber EmissionViews EmissionViewsSpec.
Import NumberFacts ExactNumbers EmissionFacts EmissionViewFacts.

(** X1.  From genesis on the block reward never increases with the height,
    is never negative and never above the initial reward. *)
Theorem block_reward_never_increases h1 h2 :
  GENESIS_BLOCK DIESEL_CONSTANTS <= h1 -> h1 <= h2 ->
  0 <= dieselEmissionCalculator.calculateBlockReward h2 /\
  dieselEmissionCalculator.calculateBlockReward h2
    <= dieselEmissionCalculator.calculateBlockReward h1 /\
  dieselEmissionCalculator.calculateBlockReward h1
    <= INITIAL_REWARD DIESEL_CONSTANTS.
Proof.
  intros H1 H2.
  exact (reward_antitone DIESEL_CONSTANTS DIESEL_reward_nonneg
           DIESEL_interval_pos h1 h2 H1 H2).
Qed.

Lemma block_reward_never_increases_witness :
  GENESIS_BLOCK DIESEL_CONSTANTS <= 1009999 /\ 1009999 <= 1010000 /\
  0 <= dieselEmissionCalculator.calculateBlockReward 1010000 /\
  dieselEmissionCalculator.calculateBlockReward 1010000
    <= dieselEmissionCalculator.calculateBlockReward 1009999 /\
  dieselEmissionCalculator.calculateBlockReward 1009999
    <= INITIAL_REWARD DIESEL_CONSTANTS.
Proof.
  split; [cbn; lia|]. split; [lia|].
  apply (block_reward_never_increases 1009999 1010000); cbn; lia.
Defined.

(** X2.  The block reward is 0 exactly before genesis and from block
    7730000 on, the start of epoch 33. *)
Theorem block_reward_zero_region h :
  dieselEmissionCalculator.calculateBlockReward h = 0 <->
  h < 800000 \/ 7730000 <= h.
Proof.
  unfold dieselEmissionCalculator.calculateBlockReward.
  destruct (Z_lt_le_dec h 800000) as [Hlt|Hge].
  - unfold EmissionCalculator.calculateBlockReward.
    cbn [GENESIS_BLOCK DIESEL_CONSTANTS].
    destruct (Z.ltb_spec h 800000); [|lia]. split; [lia|reflexivity].
  - rewrite (reward_from_genesis DIESEL_CONSTANTS) by exact Hge.
    destruct (epoch_of_height DIESEL_CONSTANTS DIESEL_interval_pos h Hge)
      as [He Hb].
    cbn zeta in He, Hb.
    cbn [GENESIS_BLOCK HALVING_INTERVAL INITIAL_REWARD DIESEL_CONSTANTS]
      in *.
    change (50 * 100000000) with 5000000000.
    rewrite shipped_reward_zero_iff by exact He. lia.
Qed.

(** X3.  From genesis on the next halving block lies after the height and
    at most one interval ahead; the reward there is half (rounded down) of
    the present one, and all blocks before it have the present reward. *)
Theorem next_halving_block_halves_reward h :
  GENESIS_BLOCK DIESEL_CONSTANTS <= h ->
  h < dieselEmissionViews.getNextHalvingBlock h
    <= h + HALVING_INTERVAL DIESEL_CONSTANTS /\
  dieselEmissionCalculator.calculateBlockReward
    (dieselEmissionViews.getNextHalvingBlock h)
  = dieselEmissionCalculator.calculateBlockReward h / 2 /\
  (forall k, h <= k < dieselEmissionViews.getNextHalvingBlock h ->
     dieselEmissionCalculator.calculateBlockReward k
     = dieselEmissionCalculator.calculateBlockReward h).
Proof.
  intros Hh.
  exact (next_halving DIESEL_CONSTANTS DIESEL_interval_pos h Hh).
Qed.

Lemma next_halving_block_halves_reward_witness :
  GENESIS_BLOCK DIESEL_CONSTANTS <= 900000 /\
  900000 < dieselEmissionViews.getNextHalvingBlock 900000
    <= 900000 + HALVING_INTERVAL DIESEL_CONSTANTS /\
  dieselEmissionCalculator.calculateBlockReward
    (dieselEmissionViews.getNextHalvingBlock 900000)
  = dieselEmissionCalculator.calculateBlockReward 900000 / 2 /\
  (forall k, 900000 <= k < dieselEmissionViews.getNextHalvingBlock 900000 ->
     dieselEmissionCalculator.calculateBlockReward k
     = dieselEmissionCalculator.calculateBlockReward 900000).
Proof.
  split; [cbn; lia|].
  apply (next_halving_block_halves_reward 900000). cbn. lia.
Defined.

(** X4.  From genesis on the number of blocks until the next halving is an
    integer [b] from 1 to 210000, and the time until it is exactly
    [b * 600000] milliseconds: no step of the number arithmetic rounds. *)
Theorem time_until_halving_exact h :
  GENESIS_BLOCK DIESEL_CONSTANTS <= h ->
  exists b,
    1 <= b <= 210000 /\
    h + b = dieselEmissionViews.getNextHalvingBlock h /\
    dieselEmissionViews.getBlocksUntilHalving h = ofZ b /\
    dieselEmissionViews.getTimeUntilHalving h = ofZ (b * 600000).
Proof.
  intros Hh.
  destruct (next_halving DIESEL_CONSTANTS DIESEL_interval_pos h Hh)
    as [Hn _].
  cbn zeta in Hn. cbn [HALVING_INTERVAL DIESEL_CONSTANTS] in Hn.
  unfold dieselEmissionViews.getTimeUntilHalving, getTimeUntilHalving,
    dieselEmissionViews.getBlocksUntilHalving, getBlocksUntilHalving,
    dieselEmissionViews.getNextHalvingBlock.
  set (n := EmissionCalculator.getNextHalvingBlock DIESEL_CONSTANTS h) in *.
  exists (n - h). split; [lia|]. split; [lia|]. split; [reflexivity|].
  assert (Hb : 1 <= n - h <= 210000) by lia.
  set (b := n - h) in *.
  assert (P53 : 2 ^ 53 = 9007199254740992) by reflexivity.
  rewrite (mul_ofZ_exact b 10); [|lia|lia|].
  2:{ apply Z.le_lt_trans with (210000 * 10); [lia|reflexivity]. }
  rewrite (mul_ofZ_exact (b * 10) 60); [|lia|lia|].
  2:{ apply Z.le_lt_trans with (210000 * 10 * 60); [lia|reflexivity]. }
  rewrite (mul_ofZ_exact (b * 10 * 60) 1000); [|lia|lia|].
  2:{ apply Z.le_lt_trans with (210000 * 10 * 60 * 1000); [lia|reflexivity]. }
  f_equal. lia.
Qed.

Lemma time_until_halving_exact_witness :
  GENESIS_BLOCK DIESEL_CONSTANTS <= 900000 /\
  exists b,
    1 <= b <= 210000 /\
    900000 + b = dieselEmissionViews.getNextHalvingBlock 900000 /\
    dieselEmissionViews.getBlocksUntilHalving 900000 = ofZ b /\
    dieselEmissionViews.getTimeUntilHalving 900000 = ofZ (b * 600000).
Proof.
  split; [cbn; lia|].
  apply (time_until_halving_exact 900000). cbn. lia.
Defined.

(** X5.  For every height below 2^53 from genesis on, the epoch that
    [getCurrentEpoch] reports is the integer [e] for which the height lies
    in the blocks [800000 + 210000 e] to [800000 + 210000 (e + 1) - 1]; the
    block reward is the initial reward shifted by [e], and the next halving
    block is the first block of epoch [e + 1]. *)
Theorem current_epoch_consistent h :
  GENESIS_BLOCK DIESEL_CONSTANTS <= h -> h < 2 ^ 53 ->
  exists e,
    0 <= e /\
    dieselEmissionViews.getCurrentEpoch h = ofZ e /\
    bigIntOfNumber (dieselEmissionViews.getCurrentEpoch h) = Some e /\
    800000 + 210000 * e <= h < 800000 + 210000 * (e + 1) /\
    dieselEmissionCalculator.calculateBlockReward h
    = BigInt.shr (INITIAL_REWARD DIESEL_CONSTANTS) e /\
    dieselEmissionViews.getNextHalvingBlock h = 800000 + 210000 * (e + 1).
Proof.
  intros Hh Hsafe.
  destruct (epoch_of_height DIESEL_CONSTANTS DIESEL_interval_pos h Hh)
    as [He Hb].
  cbn zeta in He, Hb.
  unfold dieselEmissionViews.getCurrentEpoch, getCurrentEpoch,
    dieselEmissionCalculator.calculateBlockReward,
    dieselEmissionViews.getNextHalvingBlock,
    EmissionCalculator.getNextHalvingBlock.
  rewrite (reward_from_genesis DIESEL_CONSTANTS) by exact Hh.
  destruct (Z.ltb_spec h (GENESIS_BLOCK DIESEL_CONSTANTS)); [lia|].
  set (e := BigInt.div (h - GENESIS_BLOCK DIESEL_CONSTANTS)
              (HALVING_INTERVAL DIESEL_CONSTANTS)) in *.
  cbn [GENESIS_BLOCK HALVING_INTERVAL DIESEL_CONSTANTS] in *.
  exists e. split; [exact He|]. split; [reflexivity|]. split.
  - apply bigIntOfNumber_ofZ. split; [exact He|].
    apply Z.le_lt_trans with h; [lia|exact Hsafe].
  - split; [lia|]. split; [reflexivity|lia].
Qed.

Lemma current_epoch_consistent_witness :
  GENESIS_BLOCK DIESEL_CONSTANTS <= 1010000 /\ 1010000 < 2 ^ 53 /\
  exists e,
    0 <= e /\
    dieselEmissionViews.getCurrentEpoch 1010000 = ofZ e /\
    bigIntOfNumber (dieselEmissionViews.getCurrentEpoch 1010000) = Some e /\
    800000 + 210000 * e <= 1010000 < 800000 + 210000 * (e + 1) /\
    dieselEmissionCalculator.calculateBlockReward 1010000
    = BigInt.shr (INITIAL_REWARD DIESEL_CONSTANTS) e /\
    dieselEmissionViews.getNextHalvingBlock 1010000
    = 800000 + 210000 * (e + 1).
Proof.
  split; [cbn; lia|]. split; [reflexivity|].
  apply (current_epoch_consistent 1010000); [cbn; lia|reflexivity].
Defined.

(** X6.  Whatever [maxEpochs] is, [getEmissionSchedule] returns, with at
    most 33 entries: the entries of the epochs 0, 1, ... in order, each
    with a positive reward, the emission of a full interval at that reward,
    and as cumulative emission the sum of the entries so far, which is not
    clamped and is above MAX_SUPPLY in every entry. *)
Theorem emission_schedule_closed_form maxEpochs :
  exists k : nat,
    (k <= 33)%nat /\
    dieselEmissionViews.getEmissionSchedule maxEpochs =
    Some (map scheduleEntry (MintTracker.heightsFrom 0 k)) /\
    forall i entry,
      nth_error (map scheduleEntry (MintTracker.heightsFrom 0 k)) i
        = Some entry ->
      entry = scheduleEntry (Z.of_nat i) /\
      0 < blockReward entry /\
      totalEmission entry = 210000 * blockReward entry /\
      cumulativeEmission entry =
        emissionOfEpochs i + totalEmission entry /\
      MAX_SUPPLY DIESEL_CONSTANTS < cumulativeEmission entry.
Proof.
  destruct (scheduleLoop_shipped maxEpochs 33 34 [] ltac:(lia) ltac:(lia))
    as (k & Hk & Hrun).
  exists k. split; [exact Hk|]. split; [exact Hrun|].
  intros i entry Hi. rewrite nth_error_map in Hi.
  destruct (nth_error _ i) as [j|] eqn:Ej; [|discriminate].
  apply nth_error_heightsFrom in Ej. destruct Ej as [-> Hik].
  injection Hi as <-. rewrite ?Z.add_0_l.
  assert (Hi33 : (i < 33)%nat) by lia.
  split; [reflexivity|].
  cbn [blockReward totalEmission cumulativeEmission scheduleEntry].
  replace (Z.to_nat (Z.of_nat i + 1)) with (S i) by lia.
  rewrite emissionOfEpochs_succ.
  assert (Hpos : 0 < BigInt.shr 5000000000 (Z.of_nat i)).
  { pose proof (shr_nonneg 5000000000 (Z.of_nat i) ltac:(lia)).
    pose proof (shipped_reward_zero_iff (Z.of_nat i) ltac:(lia)). lia. }
  split; [exact Hpos|]. split; [reflexivity|]. split; [reflexivity|].
  cbn [MAX_SUPPLY DIESEL_CONSTANTS].
  assert (Hfirst : forall n, 1050000000000000 <= emissionOfEpochs (S n)).
  { induction n as [|n IH]; [cbn; lia|].
    rewrite emissionOfEpochs_succ.
    pose proof (shr_nonneg 5000000000 (Z.of_nat (S n)) ltac:(lia)). lia. }
  specialize (Hfirst i). rewrite emissionOfEpochs_succ in Hfirst. lia.
Qed.



(** X8.  At every height the cumulative emission and the block reward are
    valid token amounts, while the premine that [calculatePremine] reports
    is not one: it is above MAX_SUPPLY and so above every cumulative
    emission the calculator returns. *)
Theorem emission_amounts_valid_premine_not h :
  isValidTokenAmount (dieselEmissionCalculator.calculateBlockReward h)
    = true /\
  isValidTokenAmount dieselEmissionCalculator.calculatePremine = false /\
  exists e,
    dieselEmissionCalculator.calculateCumulativeEmission h = Some e /\
    isValidTokenAmount e = true /\
    e < dieselEmissionCalculator.calculatePremine.
Proof.
  split; [|split; [reflexivity|]].
  - unfold isValidTokenAmount. apply andb_true_intro.
    cbn [MAX_SUPPLY DIESEL_CONSTANTS].
    destruct (Z_lt_le_dec h 800000) as [Hlt|Hge].
    + assert (E : dieselEmissionCalculator.calculateBlockReward h = 0).
      { unfold dieselEmissionCalculator.calculateBlockReward,
          EmissionCalculator.calculateBlockReward.
        cbn [GENESIS_BLOCK DIESEL_CONSTANTS].
        destruct (Z.ltb_spec h 800000); [reflexivity|lia]. }
      rewrite E. split; reflexivity.
    + destruct (reward_antitone DIESEL_CONSTANTS DIESEL_reward_nonneg
                  DIESEL_interval_pos h h Hge ltac:(lia)) as (H0 & _ & H1).
      cbn [INITIAL_REWARD DIESEL_CONSTANTS] in H1.
      fold (dieselEmissionCalculator.calculateBlockReward h) in H0, H1.
      split; [apply Z.leb_le; exact H0|apply Z.leb_le; lia].
  - destruct (Z_lt_le_dec h 800000) as [Hlt|Hge].
    + exists 0. split; [|split; reflexivity].
      unfold dieselEmissionCalculator.calculateCumulativeEmission,
        EmissionCalculator.calculateCumulativeEmission.
      cbn [GENESIS_BLOCK DIESEL_CONSTANTS].
      destruct (Z.ltb_spec h 800000); [reflexivity|lia].
    + rewrite (cumulative_value h Hge). eexists. split; [reflexivity|].
      unfold isValidTokenAmount. cbn [MAX_SUPPLY DIESEL_CONSTANTS].
      change dieselEmissionCalculator.calculatePremine with 400000000000000.
      split; [apply andb_true_intro; split; apply Z.leb_le; lia|lia].
Qed.

(** X9.  [verifyEmissionIntegrity] cannot fail: for every schedule with a
    positive halving interval, an initial reward that is not negative and
    a maximal supply that is not negative, all four of its checks pass,
    whatever the values of the constants are. *)
Theorem verifyEmissionIntegrity_cannot_fail this :
  0 < HALVING_INTERVAL this -> 0 <= INITIAL_REWARD this ->
  0 <= MAX_SUPPLY this ->
  verifyEmissionIntegrity this = Some true.
Proof.
  intros Hi Hr Hm. unfold verifyEmissionIntegrity.
  assert (E1 : EmissionCalculator.calculateBlockReward this (GENESIS_BLOCK this)
               = INITIAL_REWARD this).
  { rewrite reward_from_genesis by lia.
    rewrite Z.sub_diag. unfold BigInt.div, BigInt.shr.
    rewrite Z.quot_0_l by lia. apply Z.shiftr_0_r. }
  rewrite E1, Z.eqb_refl. cbn [negb].
  assert (E2 : EmissionCalculator.calculateBlockReward this
                 (GENESIS_BLOCK this + HALVING_INTERVAL this)
               = BigInt.div (INITIAL_REWARD this) 2).
  { rewrite reward_from_genesis by lia.
    replace (GENESIS_BLOCK this + HALVING_INTERVAL this - GENESIS_BLOCK this)
      with (HALVING_INTERVAL this) by lia.
    unfold BigInt.div at 1. rewrite Z.quot_same by lia.
    pose proof (shr_succ (INITIAL_REWARD this) 0 ltac:(lia)) as Hs.
    rewrite Z.add_0_l in Hs. rewrite Hs.
    unfold BigInt.div, BigInt.shr. rewrite Z.shiftr_0_r.
    now rewrite Z.quot_div_nonneg by lia. }
  rewrite E2, Z.eqb_refl. cbn [negb].
  unfold EmissionCalculator.calculatePremine. rewrite Z.eqb_refl. cbn [negb].
  destruct (calculateCumulativeEmission_bounded this Hi
              (GENESIS_BLOCK this + HALVING_INTERVAL this * 100) Hm)
    as (e & -> & He).
  destruct (Z.ltb_spec (MAX_SUPPLY this) e); [lia|reflexivity].
Qed.

Lemma verifyEmissionIntegrity_cannot_fail_witness :
  0 < HALVING_INTERVAL DIESEL_CONSTANTS /\
  0 <= INITIAL_REWARD DIESEL_CONSTANTS /\
  0 <= MAX_SUPPLY DIESEL_CONSTANTS /\
  dieselEmissionViews.verifyEmissionIntegrity = Some true.
Proof.
  split; [reflexivity|]. split; [cbn; lia|]. split; [cbn; lia|].
  apply (verifyEmissionIntegrity_cannot_fail DIESEL_CONSTANTS);
    [reflexivity|cbn; lia|cbn; lia].
Defined.

End EmissionProperties.

(** ** The tracker and the queries *)

Section TrackerProperties.
Import JSNumber MintTracker TrackerSpec TrackerViewsSpec TrackerFacts.
Import EmissionViewFacts TrackerViewFacts useRealtimeData.

(** X10.  [getBlockClaimants] is all or nothing.  Of an answer without a
    null element in which every DIESEL mint has an amount [BigInt] accepts,
    it returns one claimant per DIESEL mint, in order, each with the
    address of its mint and the height asked for; of any other answer it
    returns the empty list, however many well-formed mints there are. *)
Theorem block_claimants_all_or_nothing rpc now h entries :
  protorunesByHeight rpc h = Returned (ResultArray entries) ->
  (wellFormed entries = true ->
   List.length (getBlockClaimants rpc now h)
   = List.length (filter isDieselMint (presentEntries entries)) /\
   map address (getBlockClaimants rpc now h)
   = map (fun mint => match entry_address mint with
                      | Some s => s | None => "unknown"%string end)
       (filter isDieselMint (presentEntries entries)) /\
   Forall (fun c => blockHeight c = h) (getBlockClaimants rpc now h)) /\
  (wellFormed entries = false -> getBlockClaimants rpc now h = []).
Proof.
  intros Hrpc. unfold getBlockClaimants, getBlockClaimants_try, wellFormed.
  rewrite Hrpc. split; intros Hwf.
  - apply andb_prop in Hwf. destruct Hwf as [Hnull Hamt].
    rewrite (filterDieselMints_wellFormed entries Hnull).
    destruct (toClaimants_integral now h _ Hamt) as (cs & -> & H1 & H2 & H3).
    auto.
  - apply andb_false_iff in Hwf. destruct Hwf as [Hnull|Hamt].
    + now rewrite (filterDieselMints_null entries Hnull).
    + destruct (forallb (fun e => match e with Some _ => true | None => false end)
                  entries) eqn:Hnull.
      * rewrite (filterDieselMints_wellFormed entries Hnull).
        now rewrite (toClaimants_not_integral now h _ Hamt).
      * now rewrite (filterDieselMints_null entries Hnull).
Qed.

Lemma block_claimants_all_or_nothing_witness :
  protorunesByHeight (busyIndexer 900000) 900000
  = Returned (ResultArray
                [claimBy "a"%string; claimBy "b"%string; claimBy "a"%string]) /\
  (wellFormed [claimBy "a"%string; claimBy "b"%string; claimBy "a"%string]
   = true ->
   List.length (getBlockClaimants (busyIndexer 900000) 0 900000)
   = List.length
       (filter isDieselMint
          (presentEntries
             [claimBy "a"%string; claimBy "b"%string; claimBy "a"%string])) /\
   map address (getBlockClaimants (busyIndexer 900000) 0 900000)
   = map (fun mint => match entry_address mint with
                      | Some s => s | None => "unknown"%string end)
       (filter isDieselMint
          (presentEntries
             [claimBy "a"%string; claimBy "b"%string; claimBy "a"%string])) /\
   Forall (fun c => blockHeight c = 900000)
     (getBlockClaimants (busyIndexer 900000) 0 900000)) /\
  (wellFormed [claimBy "a"%string; claimBy "b"%string; claimBy "a"%string]
   = false ->
   getBlockClaimants (busyIndexer 900000) 0 900000 = []).
Proof.
  split; [reflexivity|].
  apply (block_claimants_all_or_nothing (busyIndexer 900000) 0 900000).
  reflexivity.
Defined.

(** X11.  For a range of block heights that starts at height 0 or later
    and has fewer than 2^32 heights, [getParticipationTrends] returns one
    snapshot for each of the heights [startBlock], [startBlock + 1], ...,
    [endBlock], in this order.  The snapshot of a height names that height,
    counts the claimants the indexer's answer for it has (the same at
    every reading of the clock), distributes the reward the tracker
    computes for the height, at most 40000000000, and splits it equally.
    Every snapshot is stamped with a reading of the clock of its own, made
    after those of the snapshots before it.  While the counts add up to a
    safe integer, the average is the quotient, as numbers, of their sum by
    the number of heights, and 0 for an empty range. *)
Theorem trend_blocks_in_height_order rpc clock reads startBlock endBlock :
  0 <= startBlock ->
  endBlock - startBlock + 1 < 2 ^ 32 ->
  let trends :=
    fst (ClockedMintTracker.getParticipationTrends rpc clock
           startBlock endBlock reads) in
  List.length (blocks trends) = Z.to_nat (endBlock - startBlock + 1) /\
  (forall i snapshot,
     nth_error (blocks trends) i = Some snapshot ->
     startBlock + Z.of_nat i <= endBlock /\
     snapshotHeight snapshot = startBlock + Z.of_nat i /\
     (forall now,
        totalClaimants snapshot
        = Z.of_nat
            (List.length
               (getBlockClaimants rpc now (startBlock + Z.of_nat i)))) /\
     totalDistributed snapshot = inlineBlockReward (startBlock + Z.of_nat i) /\
     0 <= totalDistributed snapshot <= 40000000000 /\
     splitsEqually snapshot) /\
  (exists readings : list nat,
     map snapshotTimestamp (blocks trends) = map clock readings /\
     StronglySorted Nat.lt readings /\
     Forall (fun n => (reads <= n)%nat) readings) /\
  (sumZ (map totalClaimants (blocks trends)) <= MAX_SAFE_INTEGER ->
   averageParticipants trends
   = (if 0 <? endBlock - startBlock + 1
      then div (ofZ (sumZ (map totalClaimants (blocks trends))))
             (ofZ (endBlock - startBlock + 1))
      else zero)).
Proof.
  intros Hstart Hcount. cbn zeta.
  destruct (clocked_getParticipationTrends rpc clock 0 startBlock endBlock reads)
    as (Hb & Ha & _).
  cbn zeta in Hb, Ha.
  set (trends := fst (ClockedMintTracker.getParticipationTrends rpc clock
                        startBlock endBlock reads)) in *.
  split.
  { rewrite <- (length_map (stampedAt 0)), Hb, getParticipationTrends_blocks.
    now rewrite length_map, length_heightsFrom. }
  split.
  { intros i snapshot Hi.
    apply (map_nth_error (stampedAt 0)) in Hi. rewrite Hb in Hi.
    apply standing_snapshot_at in Hi. destruct Hi as [Hle Hs].
    set (h := startBlock + Z.of_nat i) in *.
    assert (Hh : snapshotHeight snapshot = h).
    { apply (f_equal snapshotHeight) in Hs. exact Hs. }
    assert (Hc : totalClaimants snapshot = claimantCount rpc 0 h).
    { apply (f_equal totalClaimants) in Hs. exact Hs. }
    assert (Ht : totalDistributed snapshot = inlineBlockReward h).
    { apply (f_equal totalDistributed) in Hs. exact Hs. }
    assert (Hr : rewardPerClaimant snapshot
                 = rewardPerClaimant
                     (participationSnapshot 0 h (getBlockClaimants rpc 0 h))).
    { apply (f_equal rewardPerClaimant) in Hs. exact Hs. }
    split; [exact Hle|]. split; [exact Hh|]. split.
    { intros now. rewrite Hc. apply (claimantCount_clock rpc 0 now). }
    split; [exact Ht|]. split.
    { rewrite Ht. apply inlineBlockReward_bounded. unfold h. lia. }
    destruct (snapshot_split 0 h (getBlockClaimants rpc 0 h))
      as (Ek & Et & H0 & Hq & Hmul & Hd).
    cbn zeta in Ek, Et, H0, Hq, Hmul, Hd.
    unfold splitsEqually. cbn zeta.
    rewrite Hr, Ht, Hc. unfold claimantCount. rewrite <- Ek, <- Et.
    split; [exact Hmul|]. split; [exact H0|].
    intros Hk. split; [now apply Hq|].
    specialize (Hq Hk). specialize (Hd Hk). lia. }
  split.
  { apply clocked_getParticipationTrends_stamps. }
  intros _. rewrite Ha, (standing_average rpc 0 startBlock endBlock).
  now rewrite <- Hb, map_totalClaimants_stampedAt.
Qed.

Lemma trend_blocks_in_height_order_witness :
  0 <= 900000 /\
  900001 - 900000 + 1 < 2 ^ 32 /\
  let trends :=
    fst (ClockedMintTracker.getParticipationTrends (busyIndexer 900001)
           Z.of_nat 900000 900001 0) in
  List.length (blocks trends) = Z.to_nat (900001 - 900000 + 1) /\
  (forall i snapshot,
     nth_error (blocks trends) i = Some snapshot ->
     900000 + Z.of_nat i <= 900001 /\
     snapshotHeight snapshot = 900000 + Z.of_nat i /\
     (forall now,
        totalClaimants snapshot
        = Z.of_nat
            (List.length
               (getBlockClaimants (busyIndexer 900001) now
                  (900000 + Z.of_nat i)))) /\
     totalDistributed snapshot = inlineBlockReward (900000 + Z.of_nat i) /\
     0 <= totalDistributed snapshot <= 40000000000 /\
     splitsEqually snapshot) /\
  (exists readings : list nat,
     map snapshotTimestamp (blocks trends) = map Z.of_nat readings /\
     StronglySorted Nat.lt readings /\
     Forall (fun n => (0 <= n)%nat) readings) /\
  (sumZ (map totalClaimants (blocks trends)) <= MAX_SAFE_INTEGER ->
   averageParticipants trends
   = (if 0 <? 900001 - 900000 + 1
      then div (ofZ (sumZ (map totalClaimants (blocks trends))))
             (ofZ (900001 - 900000 + 1))
      else zero)).
Proof.
  split; [lia|]. split; [reflexivity|].
  apply (trend_blocks_in_height_order (busyIndexer 900001) Z.of_nat 0%nat
           900000 900001); [lia|reflexivity].
Defined.

(** X12.  For a range of block heights that starts at height 0 or later
    and has fewer than 2^32 heights, the peak of [getParticipationTrends]
    is at least the claimant count of every snapshot, and is 0 or the
    count of one of them; the minimum is at most every count that is not
    0, and is 0 or the count of a snapshot, never above the peak.  A
    minimum of 0 is reported only when no snapshot has a count from 1 to
    2^53 - 2. *)
Theorem trend_peak_and_minimum rpc clock reads startBlock endBlock :
  0 <= startBlock ->
  endBlock - startBlock + 1 < 2 ^ 32 ->
  let trends :=
    fst (ClockedMintTracker.getParticipationTrends rpc clock
           startBlock endBlock reads) in
  (forall snapshot, In snapshot (blocks trends) ->
     totalClaimants snapshot <= peakParticipants trends /\
     (0 < totalClaimants snapshot ->
      minParticipants trends <= totalClaimants snapshot) /\
     (minParticipants trends = 0 ->
      totalClaimants snapshot < MAX_SAFE_INTEGER ->
      totalClaimants snapshot = 0)) /\
  (peakParticipants trends = 0 \/
   exists snapshot, In snapshot (blocks trends) /\
                    totalClaimants snapshot = peakParticipants trends) /\
  (minParticipants trends = 0 \/
   exists snapshot, In snapshot (blocks trends) /\
                    totalClaimants snapshot = minParticipants trends) /\
  0 <= minParticipants trends <= peakParticipants trends.
Proof.
  intros Hstart Hcount. cbn zeta.
  destruct (clocked_getParticipationTrends rpc clock 0 startBlock endBlock reads)
    as (Hb & _ & Hp & Hm & _).
  cbn zeta in Hb, Hp, Hm.
  set (trends := fst (ClockedMintTracker.getParticipationTrends rpc clock
                        startBlock endBlock reads)) in *.
  destruct (standing_peak_and_minimum rpc 0 startBlock endBlock)
    as (Hall & Hpeak & Hmin & Hle).
  cbn zeta in Hall, Hpeak, Hmin, Hle.
  rewrite <- Hb, <- Hp, <- Hm in *.
  assert (Hback : forall stamped,
            In stamped (map (stampedAt 0) (blocks trends)) ->
            exists snapshot, In snapshot (blocks trends) /\
                             totalClaimants snapshot = totalClaimants stamped).
  { intros stamped Hs. apply in_map_iff in Hs.
    destruct Hs as (snapshot & <- & Hin). now exists snapshot. }
  split.
  { intros snapshot Hin.
    apply (Hall (stampedAt 0 snapshot)), in_map, Hin. }
  split.
  { destruct Hpeak as [Hz|(stamped & Hin & E)]; [now left|right].
    destruct (Hback stamped Hin) as (snapshot & Hs & Ec).
    exists snapshot. split; [exact Hs|]. now rewrite Ec. }
  split; [|exact Hle].
  destruct Hmin as [Hz|(stamped & Hin & E)]; [now left|right].
  destruct (Hback stamped Hin) as (snapshot & Hs & Ec).
  exists snapshot. split; [exact Hs|]. now rewrite Ec.
Qed.

Lemma trend_peak_and_minimum_witness :
  0 <= 900000 /\
  900001 - 900000 + 1 < 2 ^ 32 /\
  let trends :=
    fst (ClockedMintTracker.getParticipationTrends (busyIndexer 900001)
           Z.of_nat 900000 900001 0) in
  (forall snapshot, In snapshot (blocks trends) ->
     totalClaimants snapshot <= peakParticipants trends /\
     (0 < totalClaimants snapshot ->
      minParticipants trends <= totalClaimants snapshot) /\
     (minParticipants trends = 0 ->
      totalClaimants snapshot < MAX_SAFE_INTEGER ->
      totalClaimants snapshot = 0)) /\
  (peakParticipants trends = 0 \/
   exists snapshot, In snapshot (blocks trends) /\
                    totalClaimants snapshot = peakParticipants trends) /\
  (minParticipants trends = 0 \/
   exists snapshot, In snapshot (blocks trends) /\
                    totalClaimants snapshot = minParticipants trends) /\
  0 <= minParticipants trends <= peakParticipants trends.
Proof.
  split; [lia|]. split; [reflexivity|].
  apply (trend_peak_and_minimum (busyIndexer 900001) Z.of_nat 0%nat
           900000 900001); [lia|reflexivity].
Defined.

(** X13.  For a range of block heights that starts at height 0 or later
    and has fewer than 2^32 heights, [totalUniqueAddresses] counts each
    address once: it is the length of a duplicate-free list that holds
    exactly the addresses of the claimants the indexer's answers have at
    the heights of the range (the same at every reading of the clock),
    and it is at most the sum of the claimant counts of the snapshots. *)
Theorem trend_unique_addresses rpc clock reads startBlock endBlock :
  0 <= startBlock ->
  endBlock - startBlock + 1 < 2 ^ 32 ->
  let trends :=
    fst (ClockedMintTracker.getParticipationTrends rpc clock
           startBlock endBlock reads) in
  (exists addresses : list string,
     NoDup addresses /\
     totalUniqueAddresses trends = Z.of_nat (List.length addresses) /\
     forall now a, In a addresses <->
       exists h,
         startBlock <= h <= endBlock /\
         In a (map address (getBlockClaimants rpc now h))) /\
  0 <= totalUniqueAddresses trends
    <= sumZ (map totalClaimants (blocks trends)).
Proof.
  intros Hstart Hcount. cbn zeta.
  destruct (clocked_getParticipationTrends rpc clock 0 startBlock endBlock reads)
    as (Hb & _ & _ & _ & Hu).
  cbn zeta in Hb, Hu.
  set (trends := fst (ClockedMintTracker.getParticipationTrends rpc clock
                        startBlock endBlock reads)) in *.
  destruct (standing_unique_addresses rpc 0 startBlock endBlock)
    as ((addresses & Hn & Hlen & Hin) & Hsum).
  cbn zeta in Hlen, Hsum.
  rewrite <- Hb, map_totalClaimants_stampedAt in Hsum.
  rewrite <- Hu in Hlen, Hsum.
  split; [|exact Hsum].
  exists addresses. split; [exact Hn|]. split; [exact Hlen|exact Hin].
Qed.

Lemma trend_unique_addresses_witness :
  0 <= 900000 /\
  900001 - 900000 + 1 < 2 ^ 32 /\
  let trends :=
    fst (ClockedMintTracker.getParticipationTrends (busyIndexer 900001)
           Z.of_nat 900000 900001 0) in
  (exists addresses : list string,
     NoDup addresses /\
     totalUniqueAddresses trends = Z.of_nat (List.length addresses) /\
     forall now a, In a addresses <->
       exists h,
         900000 <= h <= 900001 /\
         In a (map address (getBlockClaimants (busyIndexer 900001) now h))) /\
  0 <= totalUniqueAddresses trends
    <= sumZ (map totalClaimants (blocks trends)).
Proof.
  split; [lia|]. split; [reflexivity|].
  apply (trend_unique_addresses (busyIndexer 900001) Z.of_nat 0%nat
           900000 900001); [lia|reflexivity].
Defined.

(** X14.  The optimistic update of [useOptimisticMint] turns the snapshot
    the tracker made of a height and its claimants into the snapshot the
    tracker makes of the same height with one more claimant, whoever that
    is: the count grows by one and the reward is split again. *)
Theorem optimistic_mint_is_next_snapshot now h claimants newcomer :
  onMutate (Some (participationSnapshot now h claimants))
  = Returned (Some (participationSnapshot now h (newcomer :: claimants))).
Proof.
  unfold onMutate, participationSnapshot.
  cbn [totalClaimants totalDistributed snapshotHeight snapshotTimestamp
       List.length].
  replace (Z.of_nat (S (List.length claimants)))
    with (Z.of_nat (List.length claimants) + 1) by lia.
  set (k := Z.of_nat (List.length claimants) + 1).
  assert (Hk : 0 < k) by (unfold k; lia).
  destruct (Z.eqb_spec k 0); [lia|].
  destruct (Z.ltb_spec 0 k); [|lia].
  unfold calculateRewardPerClaimant.
  destruct (Z.eqb_spec k 0); [lia|reflexivity].
Qed.

(** X15.  The treasury query raises its alert exactly when the current
    height is known and the amount of the treasury's first claim there (0
    without one) is at least half the reward, rounded down; the amount the
    alert shows is then always that half, whatever was claimed. *)
Theorem treasury_alert_at_cap rpc now treasury :
  match getCurrentBlockParticipation rpc now with
  | None => treasuryQueryFn rpc now treasury = None
  | Some participation =>
      let cap := totalDistributed participation / 2 in
      let claimed :=
        rawTreasuryClaim treasury
          (getBlockClaimants rpc now (snapshotHeight participation)) in
      (cap <= claimed ->
       treasuryQueryFn rpc now treasury = Some (treasury_cap cap now)) /\
      (claimed < cap -> treasuryQueryFn rpc now treasury = None)
  end.
Proof.
  unfold treasuryQueryFn.
  destruct (getCurrentBlockParticipation rpc now) as [p|] eqn:Ep;
    [|reflexivity].
  cbn zeta.
  assert (Hp : exists h, p = participationSnapshot now h
                             (getBlockClaimants rpc now h)).
  { unfold getCurrentBlockParticipation in Ep.
    destruct (getBlockchainInfo rpc) as [[v|]|]; try discriminate.
    destruct (toBigInt v) as [h|]; [|discriminate].
    injection Ep as <-. now exists h. }
  destruct Hp as (h & ->).
  cbn [totalDistributed snapshotHeight participationSnapshot].
  pose proof (inlineBlockReward_nonneg h) as HR.
  unfold getTreasuryParticipation, rawTreasuryClaim.
  unfold BigInt.div. rewrite Z.quot_div_nonneg by lia.
  set (cap := inlineBlockReward h / 2).
  assert (Hcap : 0 <= cap) by (apply Z.div_pos; lia).
  destruct (find _ _) as [c|].
  - destruct (Z.ltb_spec cap (amount c)) as [Hlt|Hge].
    + split; intros H.
      * destruct (Z.leb_spec cap cap); [reflexivity|lia].
      * lia.
    + split; intros H.
      * destruct (Z.leb_spec cap (amount c)); [|lia].
        do 2 f_equal. lia.
      * destruct (Z.leb_spec cap (amount c)); [lia|reflexivity].
  - split; intros H.
    + destruct (Z.leb_spec cap 0); [|lia]. do 2 f_equal. lia.
    + destruct (Z.leb_spec cap 0); [lia|reflexivity].
Qed.

(** X16.  The trends query of [useRealtimeMints], run for the snapshot
    of a current-block query at height 10 or later, covers eleven heights,
    the current one and the ten before it, whatever the indexer answers.
    If the indexer answers it for the current height as it answered the
    current-block query, the last of the eleven snapshots is the one that
    query holds, its time stamp apart: the two are made at readings of the
    clock of their own. *)
Theorem trends_query_covers_eleven_blocks
  rpc now participation rpc' clock reads :
  getCurrentBlockParticipation rpc now = Some participation ->
  10 <= snapshotHeight participation ->
  let trends := fst (trendsQueryFn rpc' clock (Some participation) reads) in
  map snapshotHeight (blocks trends)
  = heightsFrom (snapshotHeight participation - 10) 11 /\
  (protorunesByHeight rpc' (snapshotHeight participation)
   = protorunesByHeight rpc (snapshotHeight participation) ->
   exists last,
     nth_error (blocks trends) 10 = Some last /\
     stampedAt (snapshotTimestamp participation) last = participation).
Proof.
  intros Ep Hh. cbn zeta. unfold trendsQueryFn.
  assert (Hp : participation
               = participationSnapshot now (snapshotHeight participation)
                   (getBlockClaimants rpc now (snapshotHeight participation))).
  { unfold getCurrentBlockParticipation in Ep.
    destruct (getBlockchainInfo rpc) as [[v|]|]; try discriminate.
    destruct (toBigInt v) as [h|]; [|discriminate].
    injection Ep as <-. reflexivity. }
  assert (Hnow : snapshotTimestamp participation = now).
  { rewrite Hp. reflexivity. }
  set (h := snapshotHeight participation) in *.
  destruct (clocked_getParticipationTrends rpc' clock now (h - 10) h reads)
    as (Hb & _).
  cbn zeta in Hb. rewrite getParticipationTrends_blocks in Hb.
  replace (h - (h - 10) + 1) with 11 in Hb by lia.
  change (Z.to_nat 11) with 11%nat in Hb.
  set (trends := fst (ClockedMintTracker.getParticipationTrends rpc' clock
                        (h - 10) h reads)) in *.
  split.
  - rewrite <- (map_snapshotHeight_stampedAt now), Hb, map_map.
    cbn [snapshotHeight participationSnapshot]. now rewrite map_id.
  - intros Hsame.
    assert (Hlen : List.length (blocks trends) = 11%nat).
    { rewrite <- (length_map (stampedAt now)), Hb.
      now rewrite length_map, length_heightsFrom. }
    destruct (nth_error (blocks trends) 10) as [last|] eqn:El.
    + exists last. split; [reflexivity|].
      apply (map_nth_error (stampedAt now)) in El.
      rewrite Hb, nth_error_map in El.
      assert (E : nth_error (heightsFrom (h - 10) 11) 10 = Some h).
      { cbn [heightsFrom nth_error]. f_equal. lia. }
      rewrite E in El. cbn [option_map] in El.
      rewrite (getBlockClaimants_same_answer rpc rpc' now h Hsame) in El.
      rewrite <- Hp in El. rewrite Hnow. congruence.
    + apply nth_error_None in El. rewrite Hlen in El. lia.
Qed.

Lemma trends_query_covers_eleven_blocks_witness :
  getCurrentBlockParticipation (busyIndexer 900000) 0
  = Some (participationSnapshot 0 900000
            (getBlockClaimants (busyIndexer 900000) 0 900000)) /\
  10 <= snapshotHeight
          (participationSnapshot 0 900000
             (getBlockClaimants (busyIndexer 900000) 0 900000)) /\
  let participation :=
    participationSnapshot 0 900000
      (getBlockClaimants (busyIndexer 900000) 0 900000) in
  let trends :=
    fst (trendsQueryFn (busyIndexer 900000) Z.of_nat (Some participation) 1) in
  map snapshotHeight (blocks trends)
  = heightsFrom (snapshotHeight participation - 10) 11 /\
  (protorunesByHeight (busyIndexer 900000) (snapshotHeight participation)
   = protorunesByHeight (busyIndexer 900000) (snapshotHeight participation) ->
   exists last,
     nth_error (blocks trends) 10 = Some last /\
     stampedAt (snapshotTimestamp participation) last = participation).
Proof.
  split; [reflexivity|]. split; [cbn; lia|].
  apply (trends_query_covers_eleven_blocks (busyIndexer 900000) 0
           (participationSnapshot 0 900000
              (getBlockClaimants (busyIndexer 900000) 0 900000))
           (busyIndexer 900000) Z.of_nat 1%nat);
    [reflexivity|cbn; lia].
Defined.

End TrackerProperties.

(** ** The distribution metrics *)

Section DistributionProperties.
Import JSNumber JSArray DistributionMetrics DistributionViewsSpec.
Import NumberSpec NumberFacts ExactNumbers BracketFacts BracketOrder.
Import GiniFacts StoreFacts DistributionViewFacts.

(** X17.  [categorizeHolders] splits the holders, sorted by balance with
    the largest first, into three consecutive runs: whales, dolphins and
    shrimp together are the sorted list, so every holder is in exactly one
    category, no whale has less than a dolphin or a shrimp, and no dolphin
    less than a shrimp.  The total supply and the holder count are those of
    the input. *)
Theorem categorizeHolders_partitions_holders sigma balances :
  Z.of_nat (List.length balances) < 2 ^ 32 ->
  let categories := snd (categorizeHolders sigma balances) in
  whales categories ++ dolphins categories ++ shrimp categories
    = sort (compareDescending sigma) balances /\
  Permutation
    (whales categories ++ dolphins categories ++ shrimp categories)
    balances /\
  (forall w x,
     In w (whales categories) ->
     In x (dolphins categories ++ shrimp categories) ->
     balance (sigma x) <= balance (sigma w)) /\
  (forall d s,
     In d (dolphins categories) -> In s (shrimp categories) ->
     balance (sigma s) <= balance (sigma d)) /\
  totalSupply categories = sumHolderBalances sigma balances /\
  holderCount categories = Z.of_nat (List.length balances).
Proof.
  intros Hlen. cbn zeta.
  destruct balances as [|b balances'] eqn:Eb.
  { cbn. split; [reflexivity|]. split; [constructor|].
    split; [intros w x []|]. split; [intros d s []|]. split; reflexivity. }
  assert (Hne : (1 <= List.length balances)%nat)
    by (rewrite Eb; cbn [List.length]; lia).
  rewrite <- Eb in *.
  assert (Hnil : balances <> []) by (rewrite Eb; discriminate).
  clear Eb.
  set (sorted := sort (compareDescending sigma) balances).
  assert (Ecat : snd (categorizeHolders sigma balances) =
    {| whales := slice sorted (Integer 0)
                   (toIntegerOrInfinity (top1PercentIndex (List.length sorted)));
       dolphins := slice sorted
                     (toIntegerOrInfinity (top1PercentIndex (List.length sorted)))
                     (toIntegerOrInfinity (top10PercentIndex (List.length sorted)));
       shrimp := sliceFrom sorted
                   (toIntegerOrInfinity (top10PercentIndex (List.length sorted)));
       totalSupply := sumHolderBalances sigma sorted;
       holderCount := Z.of_nat (List.length sorted) |}).
  { destruct balances; [contradiction|reflexivity]. }
  rewrite Ecat. cbn [whales dolphins shrimp totalSupply holderCount].
  assert (Hsl : List.length sorted = List.length balances)
    by apply sort_length.
  rewrite Hsl.
  destruct (bracket_indexes_ordered (List.length balances) Hne
              (array_length_safe _ Hlen)) as (i1 & i10 & -> & -> & Hi).
  pose proof (slice_partition sorted i1 i10 ltac:(lia)) as Hpart.
  pose proof (sort_descending sigma balances) as Hdesc. fold sorted in Hdesc.
  rewrite <- Hpart in Hdesc.
  destruct (descending_app _ _ _ Hdesc) as (_ & Hrest & Hw).
  destruct (descending_app _ _ _ Hrest) as (_ & _ & Hd).
  split; [exact Hpart|]. split; [rewrite Hpart; apply sort_perm|].
  split; [exact Hw|]. split; [exact Hd|].
  split; [apply sumHolderBalances_sort|reflexivity].
Qed.

Lemma categorizeHolders_partitions_holders_witness :
  Z.of_nat (List.length [2; 0; 3; 1]%nat) < 2 ^ 32 /\
  let categories := snd (categorizeHolders fourHolders [2; 0; 3; 1]%nat) in
  whales categories ++ dolphins categories ++ shrimp categories
    = sort (compareDescending fourHolders) [2; 0; 3; 1]%nat /\
  Permutation
    (whales categories ++ dolphins categories ++ shrimp categories)
    [2; 0; 3; 1]%nat /\
  (forall w x,
     In w (whales categories) ->
     In x (dolphins categories ++ shrimp categories) ->
     balance (fourHolders x) <= balance (fourHolders w)) /\
  (forall d s,
     In d (dolphins categories) -> In s (shrimp categories) ->
     balance (fourHolders s) <= balance (fourHolders d)) /\
  totalSupply categories = sumHolderBalances fourHolders [2; 0; 3; 1]%nat /\
  holderCount categories = Z.of_nat (List.length [2; 0; 3; 1]%nat).
Proof.
  split; [reflexivity|].
  apply (categorizeHolders_partitions_holders fourHolders [2; 0; 3; 1]%nat).
  reflexivity.
Defined.

(** X18.  For a positive total supply the Nakamoto coefficient is the
    length of the shortest run of the largest holders whose balances add
    up to more than half the supply (rounded down): that run does, and no
    shorter run of the largest holders does. *)
Theorem nakamoto_coefficient_least_majority sigma balances :
  0 < sumHolderBalances sigma balances ->
  let sorted := sort (compareDescending sigma) balances in
  let half := sumHolderBalances sigma balances / 2 in
  let coefficient :=
    nakamotoCoefficient (calculateConcentrationMetrics sigma balances) in
  1 <= coefficient <= Z.of_nat (List.length balances) /\
  half < balanceOfFirst sigma coefficient sorted /\
  forall shorter, 0 <= shorter < coefficient ->
    balanceOfFirst sigma shorter sorted <= half.
Proof.
  intros Htotal. cbn zeta.
  assert (Hne : balances <> []).
  { intros ->. unfold sumHolderBalances in Htotal. cbn in Htotal. lia. }
  set (sorted := sort (compareDescending sigma) balances).
  set (total := sumHolderBalances sigma balances) in *.
  assert (Etotal : sumHolderBalances sigma sorted = total)
    by apply sumHolderBalances_sort.
  assert (Em : nakamotoCoefficient (calculateConcentrationMetrics sigma balances)
               = nakamotoLoop sigma (total / 2) sorted 0 0).
  { unfold calculateConcentrationMetrics.
    destruct balances as [|b l]; [contradiction|].
    fold sorted. rewrite Etotal.
    destruct (Z.eqb_spec total 0); [lia|].
    cbn [nakamotoCoefficient]. unfold BigInt.div.
    now rewrite Z.quot_div_nonneg by lia. }
  rewrite Em.
  destruct (nakamotoLoop_spec sigma (total / 2) sorted 0 0)
    as (n & -> & Hn & Hpos & Hbelow & Hend).
  assert (Hsl : List.length sorted = List.length balances)
    by apply sort_length.
  assert (Hsne : sorted <> []).
  { intros E. rewrite E in Hsl. destruct balances; [contradiction|discriminate]. }
  specialize (Hpos Hsne).
  assert (Hhalf : 0 <= total / 2 < total).
  { split; [apply Z.div_pos; lia|apply Z.div_lt; lia]. }
  unfold balanceOfFirst. rewrite Z.add_0_l, Nat2Z.id.
  split; [lia|]. split.
  - destruct Hend as [Hend|[En Hend]]; [lia|].
    exfalso. specialize (Hend n ltac:(lia)).
    rewrite En, firstn_all, Etotal in Hend. lia.
  - intros shorter Hs.
    destruct (Z.eq_dec shorter 0) as [->|Hnz].
    + cbn [Z.to_nat firstn]. unfold sumHolderBalances. cbn [fold_left]. lia.
    + specialize (Hbelow (Z.to_nat shorter) ltac:(lia)). lia.
Qed.

Lemma nakamoto_coefficient_least_majority_witness :
  0 < sumHolderBalances fourHolders [2; 0; 3; 1]%nat /\
  let sorted := sort (compareDescending fourHolders) [2; 0; 3; 1]%nat in
  let half := sumHolderBalances fourHolders [2; 0; 3; 1]%nat / 2 in
  let coefficient :=
    nakamotoCoefficient
      (calculateConcentrationMetrics fourHolders [2; 0; 3; 1]%nat) in
  1 <= coefficient <= Z.of_nat (List.length [2; 0; 3; 1]%nat) /\
  half < balanceOfFirst fourHolders coefficient sorted /\
  forall shorter, 0 <= shorter < coefficient ->
    balanceOfFirst fourHolders shorter sorted <= half.
Proof.
  split; [reflexivity|].
  apply (nakamoto_coefficient_least_majority fourHolders [2; 0; 3; 1]%nat).
  reflexivity.
Defined.

(** X19.  For holders without negative balances and a positive total
    supply, the two shares of [calculateConcentrationMetrics] are the
    balances of the first [i1] and the first [i10] of the sorted holders,
    with [1 <= i1 <= i10], in hundredths of a per cent (rounded down) and
    divided by 100; the hundredths are ordered and at most 10000. *)
Theorem concentration_shares_ordered sigma balances :
  Z.of_nat (List.length balances) < 2 ^ 32 ->
  (forall r, In r balances -> 0 <= balance (sigma r)) ->
  0 < sumHolderBalances sigma balances ->
  let sorted := sort (compareDescending sigma) balances in
  let total := sumHolderBalances sigma balances in
  let metrics := calculateConcentrationMetrics sigma balances in
  exists i1 i10 q1 q10,
    1 <= i1 <= i10 /\
    q1 = balanceOfFirst sigma i1 sorted * 10000 / total /\
    q10 = balanceOfFirst sigma i10 sorted * 10000 / total /\
    top1PercentShare metrics = div (ofZ q1) (ofZ 100) /\
    top10PercentShare metrics = div (ofZ q10) (ofZ 100) /\
    0 <= q1 <= q10 /\ q10 <= 10000.
Proof.
  intros Hlen Hnn Htotal. cbn zeta.
  assert (Hne : balances <> []).
  { intros ->. unfold sumHolderBalances in Htotal. cbn in Htotal. lia. }
  assert (Hne' : (1 <= List.length balances)%nat)
    by (destruct balances; [contradiction|cbn; lia]).
  set (sorted := sort (compareDescending sigma) balances).
  set (total := sumHolderBalances sigma balances) in *.
  assert (Etotal : sumHolderBalances sigma sorted = total)
    by apply sumHolderBalances_sort.
  assert (Hsl : List.length sorted = List.length balances)
    by apply sort_length.
  destruct (bracket_indexes_ordered (List.length balances) Hne'
              (array_length_safe _ Hlen)) as (i1 & i10 & E1 & E10 & Hi).
  assert (Hnn' : forall r, In r sorted -> 0 <= balance (sigma r)).
  { intros r Hr. apply Hnn. now apply (sort_In (compareDescending sigma)). }
  destruct (prefix_balances_mono sigma sorted (Z.to_nat i1) (Z.to_nat i10)
              Hnn' ltac:(lia)) as [[H0 H1] H10].
  rewrite Etotal in H10.
  fold (balanceOfFirst sigma i1 sorted) in H0, H1.
  fold (balanceOfFirst sigma i10 sorted) in H1, H10.
  exists i1, i10, (balanceOfFirst sigma i1 sorted * 10000 / total),
    (balanceOfFirst sigma i10 sorted * 10000 / total).
  split; [exact Hi|]. split; [reflexivity|]. split; [reflexivity|].
  assert (Em : calculateConcentrationMetrics sigma balances =
    {| top1PercentShare :=
         div (ofZ (BigInt.div
                     (sumHolderBalances sigma (top1PercentHolders sigma balances)
                      * 10000) total)) (ofZ 100);
       top10PercentShare :=
         div (ofZ (BigInt.div
                     (sumHolderBalances sigma (top10PercentHolders sigma balances)
                      * 10000) total)) (ofZ 100);
       nakamotoCoefficient :=
         nakamotoLoop sigma (BigInt.div total 2) sorted 0 0 |}).
  { unfold calculateConcentrationMetrics.
    destruct balances as [|b l]; [contradiction|].
    fold sorted. rewrite Etotal.
    destruct (Z.eqb_spec total 0); [lia|reflexivity]. }
  rewrite Em. cbn [top1PercentShare top10PercentShare].
  assert (Eh1 : top1PercentHolders sigma balances
                = firstn (Z.to_nat i1) sorted).
  { unfold top1PercentHolders. fold sorted. rewrite Hsl.
    destruct (top1PercentCount_eq_index (List.length balances) Hne')
      as [-> _].
    rewrite E1. apply slice_prefix. lia. }
  assert (Eh10 : top10PercentHolders sigma balances
                 = firstn (Z.to_nat i10) sorted).
  { unfold top10PercentHolders. fold sorted. rewrite Hsl.
    rewrite (top10PercentCount_eq_index (List.length balances) Hne').
    rewrite E10. apply slice_prefix. lia. }
  rewrite Eh1, Eh10.
  fold (balanceOfFirst sigma i1 sorted). fold (balanceOfFirst sigma i10 sorted).
  unfold BigInt.div. rewrite !Z.quot_div_nonneg by lia.
  split; [reflexivity|]. split; [reflexivity|].
  split; [split|].
  - apply Z.div_pos; lia.
  - apply Z.div_le_mono; lia.
  - apply Z.div_le_upper_bound; lia.
Qed.

Lemma concentration_shares_ordered_witness :
  Z.of_nat (List.length [2; 0; 3; 1]%nat) < 2 ^ 32 /\
  (forall r, In r [2; 0; 3; 1]%nat -> 0 <= balance (fourHolders r)) /\
  0 < sumHolderBalances fourHolders [2; 0; 3; 1]%nat /\
  let sorted := sort (compareDescending fourHolders) [2; 0; 3; 1]%nat in
  let total := sumHolderBalances fourHolders [2; 0; 3; 1]%nat in
  let metrics := calculateConcentrationMetrics fourHolders [2; 0; 3; 1]%nat in
  exists i1 i10 q1 q10,
    1 <= i1 <= i10 /\
    q1 = balanceOfFirst fourHolders i1 sorted * 10000 / total /\
    q10 = balanceOfFirst fourHolders i10 sorted * 10000 / total /\
    top1PercentShare metrics = div (ofZ q1) (ofZ 100) /\
    top10PercentShare metrics = div (ofZ q10) (ofZ 100) /\
    0 <= q1 <= q10 /\ q10 <= 10000.
Proof.
  assert (Hnn : forall r, In r [2; 0; 3; 1]%nat -> 0 <= balance (fourHolders r)).
  { intros r [<-|[<-|[<-|[<-|[]]]]]; cbn; lia. }
  split; [reflexivity|]. split; [exact Hnn|]. split; [reflexivity|].
  apply (concentration_shares_ordered fourHolders [2; 0; 3; 1]%nat);
    [reflexivity|exact Hnn|reflexivity].
Defined.

(** X20.  [analyzeParticipantHistory] sorts every address of the batch
    into exactly one of the two lists.  The first-time minters are the
    addresses of the batch that the set did not hold, each once, at its
    first occurrence; a repeated address is a veteran from its second
    occurrence on.  The set afterwards holds the first-time minters too,
    so that the same batch analysed again has no first-time minter. *)
Theorem participant_history_classification addresses historical :
  let analysis := fst (analyzeParticipantHistory addresses historical) in
  let after := snd (analyzeParticipantHistory addresses historical) in
  Permutation (firstTimeMinters analysis ++ veteranMinters analysis)
    addresses /\
  NoDup (firstTimeMinters analysis) /\
  (forall a, In a (firstTimeMinters analysis) <->
     In a addresses /\ ~ In a historical) /\
  after = historical ++ firstTimeMinters analysis /\
  totalParticipants analysis
  = Z.of_nat (List.length (firstTimeMinters analysis))
    + Z.of_nat (List.length (veteranMinters analysis)) /\
  firstTimeMinters (fst (analyzeParticipantHistory addresses after)) = [].
Proof.
  cbn zeta. unfold analyzeParticipantHistory.
  cbn [fst snd firstTimeMinters veteranMinters totalParticipants].
  destruct (fold_historyStep addresses
              {| acc_firstTime := []; acc_veteran := [];
                 acc_historical := historical |})
    as (first & veteran & E1 & E2 & E3 & Hp & Hn & Hf & Hv).
  cbn zeta in E1, E2, E3.
  cbn [acc_firstTime acc_veteran acc_historical app] in E1, E2, E3, Hf.
  rewrite E1, E2, E3.
  split; [exact Hp|]. split; [exact Hn|]. split; [exact Hf|].
  split; [reflexivity|]. split.
  { rewrite <- (Permutation_length Hp), length_app. lia. }
  destruct (fold_historyStep addresses
              {| acc_firstTime := []; acc_veteran := [];
                 acc_historical := historical ++ first |})
    as (first' & veteran' & E1' & _ & _ & _ & _ & Hf' & _).
  cbn zeta in E1'. cbn [acc_firstTime acc_historical app] in E1', Hf'.
  rewrite E1'. destruct first' as [|a first']; [reflexivity|exfalso].
  destruct (proj1 (Hf' a) ltac:(now left)) as [Ha Hnot].
  apply Hnot. apply in_or_app.
  destruct (in_dec string_dec a historical) as [Hin|Hout]; [now left|right].
  apply Hf. split; assumption.
Qed.

(** X21.  [calculateMovingAverageGini] averages the last [windowSize]
    values of the history, or all of them when there are fewer; a window
    of 0 does not give an empty average but the average of the whole
    history. *)
Theorem moving_average_window values w :
  values <> [] -> 0 <= w < 2 ^ 53 ->
  let len := Z.of_nat (List.length values) in
  let taken := if w =? 0 then len else Z.min w len in
  calculateMovingAverageGini values (ofZ w)
  = div (fold_left add (skipn (Z.to_nat (len - taken)) values) zero)
      (ofZ taken).
Proof.
  intros Hne Hw. cbn zeta. unfold calculateMovingAverageGini.
  destruct values as [|v values'] eqn:Ev; [contradiction|].
  rewrite <- Ev. clear Ev Hne.
  rewrite toIntegerOrInfinity_opp, (toIntegerOrInfinity_ofZ w Hw).
  destruct (sliceFrom_last values w ltac:(lia)) as [-> ->].
  reflexivity.
Qed.

Lemma moving_average_window_witness :
  [lit_0_5; lit_0_1; lit_0_01] <> [] /\ 0 <= 2 < 2 ^ 53 /\
  let len := Z.of_nat (List.length [lit_0_5; lit_0_1; lit_0_01]) in
  let taken := if 2 =? 0 then len else Z.min 2 len in
  calculateMovingAverageGini [lit_0_5; lit_0_1; lit_0_01] (ofZ 2)
  = div (fold_left add
           (skipn (Z.to_nat (len - taken)) [lit_0_5; lit_0_1; lit_0_01]) zero)
      (ofZ taken).
Proof.
  split; [discriminate|]. split; [split; [lia|reflexivity]|].
  apply (moving_average_window [lit_0_5; lit_0_1; lit_0_01] 2);
    [discriminate|split; [lia|reflexivity]].
Defined.

(** X22.  The Gini coefficient does not depend on the order of the
    balances. *)
Theorem gini_ignores_order balances balances' :
  Permutation balances balances' ->
  calculateGiniCoefficient balances = calculateGiniCoefficient balances'.
Proof.
  intros Hp. pose proof (Permutation_length Hp) as Hlen.
  pose proof (sort_ascending_perm _ _ Hp) as Hsort.
  destruct balances as [|a [|b l]], balances' as [|a' [|b' l']];
    try discriminate; try reflexivity.
  unfold calculateGiniCoefficient. now rewrite Hsort.
Qed.

Lemma gini_ignores_order_witness :
  Permutation [1; 2; 3] [3; 1; 2] /\
  calculateGiniCoefficient [1; 2; 3] = calculateGiniCoefficient [3; 1; 2].
Proof.
  assert (Hp : Permutation [1; 2; 3] [3; 1; 2]).
  { apply Permutation_sym. apply (Permutation_cons_app [1; 2] [] 3).
    reflexivity. }
  split; [exact Hp|].
  apply (gini_ignores_order [1; 2; 3] [3; 1; 2]). exact Hp.
Defined.

(** X23.  The Gini coefficient does not depend on the unit of the
    balances: multiplying every balance by the same positive factor leaves
    it unchanged. *)
Theorem gini_ignores_unit c balances :
  0 < c ->
  calculateGiniCoefficient (map (Z.mul c) balances)
  = calculateGiniCoefficient balances.
Proof.
  intros Hc. destruct balances as [|a [|b l]]; try reflexivity.
  unfold calculateGiniCoefficient.
  change (c * a :: c * b :: map (Z.mul c) l)
    with (map (Z.mul c) (a :: b :: l)).
  set (balances := a :: b :: l).
  assert (Hlen : (2 <= List.length balances)%nat) by (cbn; lia).
  cbn [map]. fold (map (Z.mul c) l).
  change (c * a :: c * b :: map (Z.mul c) l) with (map (Z.mul c) balances).
  rewrite sort_scale by exact Hc.
  rewrite sumBalances_scale, length_map.
  pose proof (weightedSumLoop_scale c (sort compareAscending balances) 0 0)
    as HW.
  rewrite Z.mul_0_r in HW. rewrite HW. clear HW.
  set (sorted := sort compareAscending balances).
  assert (Hsl : List.length sorted = List.length balances)
    by apply sort_length.
  set (total := sumBalances sorted).
  set (W := weightedSumLoop 0 sorted 0).
  set (n := Z.of_nat (List.length sorted)).
  assert (Hn : 2 <= n) by (unfold n; lia).
  destruct (Z.eqb_spec total 0) as [Hz|Hnz].
  - destruct (Z.eqb_spec (c * total) 0); [reflexivity|nia].
  - destruct (Z.eqb_spec (c * total) 0); [nia|].
    unfold BigInt.div.
    replace (2 * (c * W) * 10000) with (c * (2 * W * 10000)) by ring.
    replace (n * (c * total)) with (c * (n * total)) by ring.
    rewrite Z.quot_mul_cancel_l by nia. reflexivity.
Qed.

Lemma gini_ignores_unit_witness :
  0 < 100000000 /\
  calculateGiniCoefficient (map (Z.mul 100000000) [1; 2; 3])
  = calculateGiniCoefficient [1; 2; 3].
Proof.
  split; [lia|]. apply (gini_ignores_unit 100000000 [1; 2; 3]). lia.
Defined.

(** X24.  For a history of two values or more the predicted Gini
    coefficient is clamped: it is NaN or lies between 0 and 1. *)
Theorem prediction_is_clamped history periods :
  (2 <= List.length history)%nat ->
  let predicted := snd (predictDistributionTrend history periods) in
  is_nan predicted = true \/
  (leb zero predicted = true /\ leb predicted one = true).
Proof.
  intros Hlen. cbn zeta.
  destruct history as [|a [|b l]]; [cbn in Hlen; lia|cbn in Hlen; lia|].
  unfold predictDistributionTrend. cbn [snd].
  set (g := add _ _).
  destruct (is_nan g) eqn:Eg.
  - left. destruct g; try discriminate. reflexivity.
  - right. now apply clamp_in_unit_interval.
Qed.

Lemma prediction_is_clamped_witness :
  (2 <= List.length [lit_0_5; lit_0_1])%nat /\
  let predicted :=
    snd (predictDistributionTrend [lit_0_5; lit_0_1] defaultPeriods) in
  is_nan predicted = true \/
  (leb zero predicted = true /\ leb predicted one = true).
Proof.
  split; [cbn; lia|].
  apply (prediction_is_clamped [lit_0_5; lit_0_1] defaultPeriods). cbn. lia.
Defined.

(** X25.  A history of two values or more that holds a NaN is reported as
    worsening, with a predicted Gini coefficient of NaN: both comparisons
    of the slope fail, which leaves the last branch. *)
Theorem nan_history_reads_as_worsening history periods :
  (2 <= List.length history)%nat -> In S754_nan history ->
  predictDistributionTrend history periods = (worsening, S754_nan).
Proof.
  intros Hlen Hin.
  destruct history as [|a [|b l]]; [cbn in Hlen; lia|cbn in Hlen; lia|].
  assert (EY : fold_left add (a :: b :: l) zero = S754_nan)
    by (apply fold_add_nan; exact Hin).
  unfold predictDistributionTrend. cbv zeta. rewrite EY.
  repeat first [rewrite mul_nan_r | rewrite mul_nan_l | rewrite sub_nan_l
               | rewrite sub_nan_r | rewrite div_nan_l | rewrite add_nan_l].
  reflexivity.
Qed.

Lemma nan_history_reads_as_worsening_witness :
  (2 <= List.length [lit_0_5; S754_nan])%nat /\
  In S754_nan [lit_0_5; S754_nan] /\
  predictDistributionTrend [lit_0_5; S754_nan] defaultPeriods
  = (worsening, S754_nan).
Proof.
  split; [cbn; lia|]. split; [right; now left|].
  apply (nan_history_reads_as_worsening [lit_0_5; S754_nan] defaultPeriods);
    [cbn; lia|right; now left].
Defined.

End DistributionProperties.

(** ** The BigInt helpers *)

Section BigIntUtilsProperties.
Import BigIntUtils BigIntUtilsSpec BigIntUtilsFacts.

(** X26.  For a non-empty array [getMinMax] returns two of its elements,
    with every element between them. *)
Theorem getMinMax_bounds values :
  values <> [] ->
  In (min (getMinMax values)) values /\
  In (max (getMinMax values)) values /\
  forall v, In v values ->
    min (getMinMax values) <= v <= max (getMinMax values).
Proof.
  intros Hne. destruct values as [|first rest]; [contradiction|].
  destruct (getMinMax_encloses first rest) as (Hall & Hmin & Hmax).
  cbn zeta in Hall, Hmin, Hmax.
  split; [destruct Hmin as [->|H]; [now left|exact H]|].
  split; [destruct Hmax as [->|H]; [now left|exact H]|exact Hall].
Qed.

Lemma getMinMax_bounds_witness :
  [3; -1; 2] <> [] /\
  In (min (getMinMax [3; -1; 2])) [3; -1; 2] /\
  In (max (getMinMax [3; -1; 2])) [3; -1; 2] /\
  forall v, In v [3; -1; 2] ->
    min (getMinMax [3; -1; 2]) <= v <= max (getMinMax [3; -1; 2]).
Proof.
  split; [discriminate|].
  apply (getMinMax_bounds [3; -1; 2]). discriminate.
Defined.

(** X27.  The average of a non-empty array lies between the minimum and
    the maximum that [getMinMax] returns, and differs from the exact
    quotient by less than one: it is the quotient rounded toward zero,
    which is rounded down only when the sum is not negative. *)
Theorem averageBigInt_within_bounds values :
  values <> [] ->
  let n := Z.of_nat (List.length values) in
  min (getMinMax values) <= averageBigInt values <= max (getMinMax values) /\
  Z.abs (sumBigInt values - n * averageBigInt values) < n /\
  (0 <= sumBigInt values -> averageBigInt values = sumBigInt values / n) /\
  (sumBigInt values < 0 ->
   averageBigInt values = - (- sumBigInt values / n)).
Proof.
  intros Hne. cbn zeta.
  assert (Hall : forall v, In v values ->
            min (getMinMax values) <= v <= max (getMinMax values)).
  { destruct values as [|first rest]; [contradiction|].
    apply (getMinMax_encloses first rest). }
  pose proof (sumBigInt_bounds _ _ values Hall) as Hsum.
  set (lo := min (getMinMax values)) in *.
  set (hi := max (getMinMax values)) in *.
  assert (Ea : averageBigInt values
               = Z.quot (sumBigInt values) (Z.of_nat (List.length values))).
  { unfold averageBigInt. destruct values; [contradiction|reflexivity]. }
  rewrite Ea.
  set (n := Z.of_nat (List.length values)) in *.
  assert (Hn : 0 < n).
  { unfold n. destruct values; [contradiction|cbn [List.length]; lia]. }
  set (s := sumBigInt values) in *.
  destruct (Z_le_gt_dec 0 s) as [Hs|Hs].
  - rewrite Z.quot_div_nonneg by lia.
    pose proof (Z.mul_div_le s n Hn).
    pose proof (Z.mod_pos_bound s n Hn).
    pose proof (Z.div_mod s n ltac:(lia)).
    split; [split|].
    + apply Z.div_le_lower_bound; lia.
    + apply Z.div_le_upper_bound; lia.
    + split; [lia|]. split; [reflexivity|lia].
  - assert (Eq : Z.quot s n = - (- s / n)).
    { rewrite <- (Z.opp_involutive s) at 1.
      rewrite Z.quot_opp_l by lia.
      now rewrite Z.quot_div_nonneg by lia. }
    rewrite Eq.
    pose proof (Z.mul_div_le (- s) n Hn).
    pose proof (Z.mod_pos_bound (- s) n Hn).
    pose proof (Z.div_mod (- s) n ltac:(lia)).
    split; [split|].
    + enough (- s / n <= - lo) by lia.
      apply Z.div_le_upper_bound; lia.
    + enough (- hi <= - s / n) by lia.
      apply Z.div_le_lower_bound; lia.
    + split; [lia|]. split; [lia|reflexivity].
Qed.

Lemma averageBigInt_within_bounds_witness :
  [-1; -2] <> [] /\
  let n := Z.of_nat (List.length [-1; -2]) in
  min (getMinMax [-1; -2]) <= averageBigInt [-1; -2]
    <= max (getMinMax [-1; -2]) /\
  Z.abs (sumBigInt [-1; -2] - n * averageBigInt [-1; -2]) < n /\
  (0 <= sumBigInt [-1; -2] ->
   averageBigInt [-1; -2] = sumBigInt [-1; -2] / n) /\
  (sumBigInt [-1; -2] < 0 ->
   averageBigInt [-1; -2] = - (- sumBigInt [-1; -2] / n)).
Proof.
  split; [discriminate|].
  apply (averageBigInt_within_bounds [-1; -2]). discriminate.
Defined.

(** X28.  [formatWithCommas] writes the decimal digits of the absolute
    value in groups of three from the right, with the sign in front and no
    comma after it. *)
Theorem formatWithCommas_groups_thousands value :
  formatWithCommas value
  = if value <? 0
    then String "-" (groupThousands (toString (- value)))
    else groupThousands (toString value).
Proof.
  unfold formatWithCommas.
  destruct (Z.ltb_spec value 0) as [Hneg|Hpos].
  - rewrite (toString_neg value Hneg).
    destruct (toString_nonneg (- value) ltac:(lia))
      as (c & rest & -> & Hc & Hrest).
    rewrite <- (insertCommas_front (Some "-"%char) c rest
                  eq_refl Hc Hrest).
    remember (String c rest) as s eqn:Es.
    assert (Ei : insertCommas None (String "-" s)
                 = if notWordBoundary None (String "-" s)
                      && groupsOfThreeAhead (String "-" s)
                   then String "," (String "-" (insertCommas (Some "-"%char) s))
                   else String "-" (insertCommas (Some "-"%char) s))
      by reflexivity.
    rewrite Ei.
    assert (Eg : groupsOfThreeAhead (String "-" s) = false).
    { rewrite Es. destruct rest as [|c2 [|c3 r]]; reflexivity. }
    rewrite Eg, andb_false_r. reflexivity.
  - destruct (toString_nonneg value Hpos) as (c & rest & -> & Hc & Hrest).
    now apply insertCommas_front.
Qed.

(** X29.  [parseBigInt] reads back what [formatWithCommas] writes: for
    every bigint, and whatever the default value is. *)
Theorem parseBigInt_reads_formatWithCommas value defaultValue :
  parseBigInt (formatWithCommas value) defaultValue = value.
Proof.
  assert (Hclean : removeSeparators (formatWithCommas value)
                   = toString value).
  { unfold formatWithCommas.
    destruct (Z_lt_le_dec value 0) as [Hneg|Hpos].
    - rewrite (toString_neg value Hneg).
      destruct (toString_nonneg (- value) ltac:(lia))
        as (c & rest & -> & Hc & Hrest).
      remember (String c rest) as s eqn:Es.
      assert (Hs : allDigits s = true)
        by (rewrite Es; cbn; now rewrite Hc, Hrest).
      assert (Ei : insertCommas None (String "-" s)
                   = if notWordBoundary None (String "-" s)
                        && groupsOfThreeAhead (String "-" s)
                     then String ","
                            (String "-" (insertCommas (Some "-"%char) s))
                     else String "-" (insertCommas (Some "-"%char) s))
        by reflexivity.
      rewrite Ei.
      assert (E : removeSeparators
                    (String "-" (insertCommas (Some "-"%char) s))
                  = String "-" s).
      { cbn [removeSeparators].
        change (Ascii.eqb "-" "," || isWhiteSpace "-") with false.
        now rewrite removeSeparators_insertCommas. }
      destruct (_ && _); [cbn [removeSeparators]; cbn|]; exact E.
    - destruct (toString_nonneg value Hpos) as (c & rest & -> & Hc & Hrest).
      apply removeSeparators_insertCommas. cbn. now rewrite Hc, Hrest. }
  unfold parseBigInt. rewrite Hclean.
  assert (Hsigned : isSignedDigits (toString value) = true).
  { destruct (Z_lt_le_dec value 0) as [Hneg|Hpos].
    - rewrite (toString_neg value Hneg).
      destruct (toString_nonneg (- value) ltac:(lia))
        as (c & rest & -> & Hc & Hrest).
      cbn. now rewrite Hc, Hrest.
    - destruct (toString_nonneg value Hpos) as (c & rest & E & Hc & Hrest).
      rewrite E. unfold isSignedDigits, isDigits.
      assert (Hd : allDigits (String c rest) = true)
        by (cbn; now rewrite Hc, Hrest).
      destruct (Ascii.eqb_spec c "-"%char) as [->|Hne];
        [discriminate Hc|].
      destruct c as [[|] [|] [|] [|] [|] [|] [|] [|]];
        try exact Hd; contradiction. }
  rewrite Hsigned. cbn [negb].
  unfold bigIntOfDecimal, toString.
  rewrite DecimalString.NilZero.isi.
  - cbn [option_map]. apply DecimalZ.of_to.
  - destruct value as [|p|p]; try discriminate.
    cbn [Z.to_int]. intros [= E].
    exact (DecimalPos.Unsigned.to_uint_nonnil p E).
  - destruct value as [|p|p]; try discriminate.
    cbn [Z.to_int]. intros [= E].
    exact (DecimalPos.Unsigned.to_uint_nonnil p E).
Qed.

(** X30.  [hexToBigint] reads back what [bigintToHex] writes for every
    bigint that is not negative; for a negative one, which is written as
    0x-..., the conversion throws. *)
Theorem hexToBigint_reads_bigintToHex value :
  hexToBigint (bigintToHex value)
  = if value <? 0 then None else Some value.
Proof.
  unfold bigintToHex, toString16. cbn [append hexToBigint].
  destruct value as [|p|p].
  - reflexivity.
  - cbn [Z.to_hex_int HexadecimalString.NilZero.string_of_int Z.ltb Z.compare].
    pose proof (HexadecimalPos.Unsigned.to_uint_nonnil p) as Hn.
    unfold HexadecimalString.NilZero.string_of_uint.
    assert (E : match Pos.to_hex_uint p with
                | Hexadecimal.Nil => "0"%string
                | _ => HexadecimalString.NilEmpty.string_of_uint
                         (Pos.to_hex_uint p)
                end
                = HexadecimalString.NilEmpty.string_of_uint
                    (Pos.to_hex_uint p))
      by (destruct (Pos.to_hex_uint p); [contradiction|reflexivity..]).
    rewrite E, (bigIntOfHex_numeral _ Hn).
    unfold N.of_hex_uint. now rewrite HexadecimalPos.Unsigned.of_to.
  - cbn [Z.to_hex_int HexadecimalString.NilZero.string_of_int Z.ltb Z.compare].
    apply bigIntOfHex_sign.
Qed.

End BigIntUtilsProperties.
